(** * Jan-Sahayak voice assistant: field extraction, speech output and the
    dialogue controller of [useVoiceAssistant].

    The development embeds the JavaScript of
    - [src/components/AssistantWidget.jsx] (the hook that reads its state
      through refs), as module [Widget];
    - [src/hooks/useVoiceAssistant.js] (the first hook of the file, which
      reads React state snapshots), as module [Hook] for [extractValue],
      [speak] and [fallbackSpeak].

    JavaScript strings are sequences of UTF-16 code units: a string is a
    [list N], one element per code unit, so [length] is [String.length]. *)

From Stdlib Require Import NArith Ascii String.
From stdpp Require Import gmap strings list fin_maps.

Open Scope N_scope.
Open Scope nat_scope.

(* ===================================================================== *)
(** ** JavaScript strings *)
(* ===================================================================== *)

Abbreviation jsstring := (list N).

(** The code units of an ASCII literal of the source. *)
Fixpoint js (s : string) : jsstring :=
  match s with
  | EmptyString => []
  | String a s' => N_of_ascii a :: js s'
  end.

(** [!text] on a string: only the empty string is falsy. *)
Definition falsy (s : jsstring) : bool :=
  match s with [] => true | _ => false end.

(** [s || null] on a string. *)
Definition or_null (s : jsstring) : option jsstring :=
  if falsy s then None else Some s.

(** [\d] is [0-9]. *)
Definition is_digit (c : N) : bool := (48 <=? c)%N && (c <=? 57)%N.

(** [\s], and the characters [String.prototype.trim] strips: the WhiteSpace
    and LineTerminator productions of ECMA-262. *)
Definition is_space (c : N) : bool :=
  ((9 <=? c)%N && (c <=? 13)%N) || (c =? 32)%N || (c =? 160)%N
  || (c =? 5760)%N || ((8192 <=? c)%N && (c <=? 8202)%N)
  || (c =? 8232)%N || (c =? 8233)%N || (c =? 8239)%N || (c =? 8287)%N
  || (c =? 12288)%N || (c =? 65279)%N.

(** Canonicalize of ECMA-262 for a pattern with the [i] flag and without
    the [u] flag: the code unit is upper-cased, and a code unit from 128 up
    is never mapped below 128.  Every letter of the patterns below is
    ASCII, so the comparison with a pattern letter is decided by the ASCII
    upper-casing. *)
Definition canonicalize (c : N) : N :=
  if (97 <=? c)%N && (c <=? 122)%N then (c - 32)%N else c.

Fixpoint drop_while (p : N -> bool) (s : jsstring) : jsstring :=
  match s with
  | [] => []
  | c :: s' => if p c then drop_while p s' else s
  end.

(** [String.prototype.trim]. *)
Definition trim (s : jsstring) : jsstring :=
  rev (drop_while is_space (rev (drop_while is_space s))).

(* ===================================================================== *)
(** ** Regular expressions

    The fragment of the JavaScript pattern language that the source uses,
    with the backtracking priority of the language: alternatives are tried
    left to right and quantifiers are greedy. *)
(* ===================================================================== *)

Inductive atom : Type :=
  | AChar (c : N)      (* a literal character *)
  | ADigit             (* \d *)
  | ANonDigit          (* \D *)
  | ASpace.            (* \s *)

Inductive regex : Type :=
  | RAtom (a : atom)
  | RSeq (r1 r2 : regex)
  | RAlt (r1 r2 : regex)
  | ROpt (r : regex)       (* r? *)
  | RPlus (a : atom)       (* a+ *)
  | REps                   (* the empty pattern *)
  | REnd.                  (* $ without the m flag *)

(** Does atom [a] accept code unit [c]; [icase] is the [i] flag. *)
Definition atom_ok (icase : bool) (a : atom) (c : N) : bool :=
  match a with
  | AChar p => if icase then (canonicalize c =? canonicalize p)%N else (c =? p)%N
  | ADigit => is_digit c
  | ANonDigit => negb (is_digit c)
  | ASpace => is_space c
  end.

(** The remainders after [a+], the longest match first. *)
Fixpoint plus_rests (icase : bool) (a : atom) (s : jsstring) : list jsstring :=
  match s with
  | [] => []
  | c :: s' => if atom_ok icase a c then plus_rests icase a s' ++ [s'] else []
  end.

(** [rmatch icase r s]: the remainders of [s] after each way of matching
    [r] at the start of [s], in the order in which a backtracking matcher
    tries them.  The head of the list is the match the engine reports. *)
Fixpoint rmatch (icase : bool) (r : regex) (s : jsstring) : list jsstring :=
  match r with
  | RAtom a =>
      match s with
      | c :: s' => if atom_ok icase a c then [s'] else []
      | [] => []
      end
  | RSeq r1 r2 => flat_map (rmatch icase r2) (rmatch icase r1 s)
  | RAlt r1 r2 => rmatch icase r1 s ++ rmatch icase r2 s
  | ROpt r1 => rmatch icase r1 s ++ [s]
  | RPlus a => plus_rests icase a s
  | REps => [s]
  | REnd => match s with [] => [[]] | _ => [] end
  end.

(** Pattern builders: a literal word and [r{n}]. *)
Fixpoint rlit (w : jsstring) : regex :=
  match w with
  | [] => REps
  | [c] => RAtom (AChar c)
  | c :: w' => RSeq (RAtom (AChar c)) (rlit w')
  end.

Fixpoint rrep (n : nat) (r : regex) : regex :=
  match n with
  | O => REps
  | 1 => r
  | S n' => RSeq r (rrep n' r)
  end.

(** [r1|r2|...]; the source has no empty alternation. *)
Fixpoint ralts (rs : list regex) : regex :=
  match rs with
  | [] => REps
  | [r] => r
  | r :: rs' => RAlt r (ralts rs')
  end.

(** The text matched at the start of [s], if any. *)
Definition match_here (icase : bool) (r : regex) (s : jsstring) : option jsstring :=
  match rmatch icase r s with
  | rest :: _ => Some (take (length s - length rest) s)
  | [] => None
  end.

(** [s.match(/r/)?.[0]] for a pattern without the [g] flag: the match at the
    leftmost position that has one. *)
Fixpoint re_match (icase : bool) (r : regex) (s : jsstring) : option jsstring :=
  match match_here icase r s with
  | Some m => Some m
  | None =>
      match s with
      | [] => None
      | _ :: s' => re_match icase r s'
      end
  end.

(** [/^(r)$/.test(s)]: some way of matching [r] at position 0 ends at the
    end of the input. *)
Definition re_test_whole (icase : bool) (r : regex) (s : jsstring) : bool :=
  match rmatch icase (RSeq r REnd) s with
  | [] => false
  | _ => true
  end.

(** [s.replace(/r/g, repl)].  [skip] counts the code units of the current
    match that are still to be dropped.  After an empty match the engine
    copies one code unit and moves on. *)
Fixpoint replace_from (icase : bool) (r : regex) (repl : jsstring)
    (skip : nat) (s : jsstring) : jsstring :=
  match s with
  | [] =>
      match skip, match_here icase r [] with
      | O, Some _ => repl
      | _, _ => []
      end
  | c :: s' =>
      match skip with
      | S k => replace_from icase r repl k s'
      | O =>
          match match_here icase r s with
          | Some m =>
              match length m with
              | O => repl ++ c :: replace_from icase r repl 0 s'
              | S k => repl ++ replace_from icase r repl k s'
              end
          | None => c :: replace_from icase r repl 0 s'
          end
      end
  end.

Definition replace_all (icase : bool) (r : regex) (repl s : jsstring) : jsstring :=
  replace_from icase r repl 0 s.

(* ===================================================================== *)
(** ** The patterns of [extractValue] *)
(* ===================================================================== *)

(** [/\d{10}/] *)
Definition re_mobile : regex := rrep 10 (RAtom ADigit).

(** [/\d{4}\s?\d{4}\s?\d{4}/] *)
Definition re_aadhar : regex :=
  RSeq (rrep 4 (RAtom ADigit))
    (RSeq (ROpt (RAtom ASpace))
       (RSeq (rrep 4 (RAtom ADigit))
          (RSeq (ROpt (RAtom ASpace)) (rrep 4 (RAtom ADigit))))).

(** [/\D/g] *)
Definition re_nondigit : regex := RAtom ANonDigit.

(** [/\s+/g] *)
Definition re_spaces : regex := RPlus ASpace.

Definition words (ws : list string) : regex := ralts (map (fun w => rlit (js w)) ws).

(** The field keys that [extractValue] treats specially. *)
Definition is_key (k : string) (fieldType : option string) : bool :=
  bool_decide (fieldType = Some k).

(* ===================================================================== *)
(** ** Configuration: [config/conversationQuestions.js] *)
(* ===================================================================== *)

(** Per-scheme field order. *)
Definition SCHEME_FIELD_ORDER : list (string * list string) :=
  [ ("pm-kisan",
      ["state"; "district"; "subDistrict"; "village"; "name"; "fatherName";
       "gender"; "aadhar"; "mobile"; "dob"; "bankAccount"; "ifsc"; "bankName";
       "address"; "landArea"]);
    ("ujjwala",
      ["name"; "gender"; "aadhar"; "mobile"; "bankAccount"; "ifsc";
       "bplNumber"; "address"]);
    ("sukanya-samriddhi",
      ["daughterName"; "fatherName"; "motherName"; "daughterDOB"; "name";
       "aadhar"; "mobile"; "address"; "bankAccount"]);
    ("kisan-credit",
      ["name"; "fatherName"; "aadhar"; "mobile"; "village"; "district";
       "state"; "landArea"; "cropType"; "bankAccount"; "ifsc"; "bankName";
       "address"]);
    ("ration-card",
      ["name"; "fatherName"; "husbandName"; "aadhar"; "mobile"; "address";
       "familyMembers"; "income"; "cardType"]);
    ("vidhva-sahay",
      ["name"; "aadhar"; "mobile"; "husbandName"; "deathCertNo";
       "bankAccount"; "ifsc"; "address"]);
    ("ayushman-bharat",
      ["name"; "aadhar"; "mobile"; "dob"; "gender"; "familyMembers";
       "income"; "existingDiseases"; "address"]);
    ("pm-awas",
      ["name"; "fatherName"; "aadhar"; "mobile"; "income"; "category";
       "plotSize"; "currentAddress"]) ]%string.

Fixpoint assoc {A : Type} (k : string) (l : list (string * A)) : option A :=
  match l with
  | [] => None
  | (k', v) :: l' => if String.eqb k k' then Some v else assoc k l'
  end.

(** The language tags of the application; [other_lang] stands for a tag
    whose primary subtag is no key of the phrase tables. *)
Inductive Lang : Type := hi_IN | gu_IN | en_IN | other_lang.

(** [language.split('-')[0]] followed by the lookup [PHRASES.x[code] ||
    PHRASES.x.hi]: the language in which a phrase is spoken. *)
Inductive Code : Type := hi | gu | en.

Definition phrase_code (l : Lang) : Code :=
  match l with
  | hi_IN => hi
  | gu_IN => gu
  | en_IN => en
  | other_lang => hi
  end.

(** The texts handed to [speak].  The phrases of the configuration are kept
    symbolic; each of them is a non-empty string (a template literal or an
    entry that falls back to the Hindi one), so only a message that comes
    from the server can be falsy. *)
Inductive Text : Type :=
  | TServer (message : jsstring)                 (* data.message *)
  | TGreeting (l : Lang)                         (* getDynamicGreeting(lang) *)
  | TTriageGreeting (l : Lang)                   (* greeting and help message *)
  | TQuestion (fieldKey : option string) (c : Code)   (* getQuestion(fieldKey) *)
  | TGotIt (c : Code) (value : jsstring)         (* PHRASES.gotIt *)
  | TRetry (c : Code)                            (* PHRASES.retry *)
  | TDone (c : Code).                            (* PHRASES.done *)

Definition text_falsy (t : Text) : bool :=
  match t with
  | TServer m => falsy m
  | _ => false
  end.

(* ===================================================================== *)
(** ** The state of the hook and of the browser *)
(* ===================================================================== *)

Inductive AI_STATE : Type :=
  IDLE | SPEAKING | LISTENING | PROCESSING | COMPLETED | TRIAGE.

(** The [scheme] prop: its [id] and its [fields], which may be missing. *)
Record Scheme : Type := mkScheme {
  scheme_id : string;
  scheme_fields : option (list string)
}.

(** The arguments of the hook; a callback is [true] when it is provided. *)
Record Props : Type := mkProps {
  scheme : option Scheme;
  onFieldUpdate : bool;
  onSchemeChange : bool;
  onDownload : bool
}.

(** The [onEnd] callbacks that the hook passes to [speak]. *)
Inductive OnEnd : Type :=
  | NoCallback                               (* undefined *)
  | AskNext (stepIndex : nat)                (* () => askNextQuestion(stepIndex, ...) *)
  | ChangeScheme (id : option string).       (* () => { if (onSchemeChange) onSchemeChange(id) } *)

(** What the caller of [await speak(...)] does once the promise resolves. *)
Inductive After : Type :=
  | Return                                   (* nothing more *)
  | SaveAndDownload (newData : gmap string jsstring).

(** Where the async function [speak] stands for one call. *)
Inductive Phase : Type :=
  | AwaitFetch      (* await fetch('.../api/speak') *)
  | AwaitAudio      (* await new Promise(resolve => ...) *)
  | Returned.       (* the function has returned *)

(** The [Audio] element of a call. *)
Record AudioSt : Type := mkAudio {
  playing : bool;
  onended : bool            (* is the handler still attached *)
}.

(** The [SpeechSynthesisUtterance] of a call: in the queue of the
    synthesizer, removed from it by [cancel()], or finished.  The browser
    delivers one [end] or [error] event to an utterance, also to one that
    was cancelled. *)
Inductive UtterSt : Type := Queued | Cancelled | Delivered.

(** One call of [speak] with a truthy text. *)
Record Call : Type := mkCall {
  c_text : Text;
  c_lang : Lang;
  c_onEnd : OnEnd;
  c_after : After;
  c_phase : Phase;
  c_audio : option AudioSt;
  c_utter : option UtterSt
}.

Inductive Entry : Type :=
  | AiSaid (t : Text)
  | UserSaid (t : jsstring).

(** What the hook sends out: callbacks of the parent, HTTP requests, and
    calls of the browser's audio interfaces. *)
Inductive Effect : Type :=
  | EFieldUpdate (fieldKey : option string) (value : jsstring)
  | ESchemeChange (id : option string)
  | ESpeakRequest (call : nat) (t : Text) (l : Lang)       (* POST /speak *)
  | ERecommendRequest (transcript : jsstring) (l : Lang)   (* POST /recommend-scheme *)
  | ESaveRequest (id : string) (mobile aadhar : jsstring)
      (fields : gmap string jsstring)                      (* POST /save-form *)
  | EDownloadTimer                                         (* setTimeout(onDownload, 2000) *)
  | EPlay (call : nat)                                     (* audio.play() *)
  | EUtter (call : nat) (t : Text) (l : Lang)              (* speechSynthesis.speak(utterance) *)
  | ECompletion (call : nat).                              (* LISTENING is set and onEnd, if any, is called *)

(** [calls] holds the calls of [speak] in the order in which they were
    made; a call is named by its index.  [recommends] counts the
    /recommend-scheme requests that have not been answered. *)
Record World : Type := mkWorld {
  props : Props;
  speechSynthesis : bool;            (* does window.speechSynthesis exist *)
  stateRef : AI_STATE;
  currentStepRef : nat;
  languageRef : Lang;
  collectedDataRef : gmap string jsstring;
  conversationHistory : list Entry;
  currentAudio : option nat;         (* window.currentAudio *)
  calls : list Call;
  recommends : nat;
  log : list Effect
}.

Definition set_props (p : Props) (w : World) : World :=
  mkWorld p (speechSynthesis w) (stateRef w) (currentStepRef w)
    (languageRef w) (collectedDataRef w) (conversationHistory w)
    (currentAudio w) (calls w) (recommends w) (log w).

Definition set_state (s : AI_STATE) (w : World) : World :=
  mkWorld (props w) (speechSynthesis w) s (currentStepRef w)
    (languageRef w) (collectedDataRef w) (conversationHistory w)
    (currentAudio w) (calls w) (recommends w) (log w).

Definition set_step (n : nat) (w : World) : World :=
  mkWorld (props w) (speechSynthesis w) (stateRef w) n
    (languageRef w) (collectedDataRef w) (conversationHistory w)
    (currentAudio w) (calls w) (recommends w) (log w).

Definition set_language (l : Lang) (w : World) : World :=
  mkWorld (props w) (speechSynthesis w) (stateRef w) (currentStepRef w)
    l (collectedDataRef w) (conversationHistory w)
    (currentAudio w) (calls w) (recommends w) (log w).

Definition set_collected (d : gmap string jsstring) (w : World) : World :=
  mkWorld (props w) (speechSynthesis w) (stateRef w) (currentStepRef w)
    (languageRef w) d (conversationHistory w)
    (currentAudio w) (calls w) (recommends w) (log w).

Definition set_history (h : list Entry) (w : World) : World :=
  mkWorld (props w) (speechSynthesis w) (stateRef w) (currentStepRef w)
    (languageRef w) (collectedDataRef w) h
    (currentAudio w) (calls w) (recommends w) (log w).

Definition set_currentAudio (a : option nat) (w : World) : World :=
  mkWorld (props w) (speechSynthesis w) (stateRef w) (currentStepRef w)
    (languageRef w) (collectedDataRef w) (conversationHistory w)
    a (calls w) (recommends w) (log w).

Definition set_calls (cs : list Call) (w : World) : World :=
  mkWorld (props w) (speechSynthesis w) (stateRef w) (currentStepRef w)
    (languageRef w) (collectedDataRef w) (conversationHistory w)
    (currentAudio w) cs (recommends w) (log w).

Definition set_recommends (n : nat) (w : World) : World :=
  mkWorld (props w) (speechSynthesis w) (stateRef w) (currentStepRef w)
    (languageRef w) (collectedDataRef w) (conversationHistory w)
    (currentAudio w) (calls w) n (log w).

Definition emit (e : Effect) (w : World) : World :=
  mkWorld (props w) (speechSynthesis w) (stateRef w) (currentStepRef w)
    (languageRef w) (collectedDataRef w) (conversationHistory w)
    (currentAudio w) (calls w) (recommends w) (log w ++ [e]).

(** [addHistory(sender, text)] *)
Definition addHistory (e : Entry) (w : World) : World :=
  set_history (conversationHistory w ++ [e]) w.

Definition set_phase (p : Phase) (c : Call) : Call :=
  mkCall (c_text c) (c_lang c) (c_onEnd c) (c_after c) p (c_audio c) (c_utter c).

Definition set_audio (a : option AudioSt) (c : Call) : Call :=
  mkCall (c_text c) (c_lang c) (c_onEnd c) (c_after c) (c_phase c) a (c_utter c).

Definition set_utter (u : option UtterSt) (c : Call) : Call :=
  mkCall (c_text c) (c_lang c) (c_onEnd c) (c_after c) (c_phase c) (c_audio c) u.

(** Update the call named [i]. *)
Definition update_call (i : nat) (f : Call -> Call) (w : World) : World :=
  set_calls (alter f i (calls w)) w.

(** What the messages from outside are: the parent and the user, the
    network, the audio element and the synthesizer. *)
Inductive SpeakResult : Type :=
  | NetworkError          (* fetch rejects *)
  | HttpError             (* !response.ok *)
  | EmptyBody             (* a blob of size 0 *)
  | Body.                 (* audio data *)

(** The JSON body of /recommend-scheme; a missing [message] is the empty
    string. *)
Record Recommendation : Type := mkRecommendation {
  success : bool;
  message : jsstring;
  recommended : option string       (* scheme_id *)
}.

Inductive RecommendResult : Type :=
  | RecommendFailed                         (* fetch or response.json() throws *)
  | RecommendJson (data : Recommendation).

Inductive Event : Type :=
  | StartConversation (lang : Lang)
  | Transcript (t : jsstring)                   (* processResponse(t) *)
  | Render (s : option Scheme)                  (* the parent passes a scheme *)
  | SpeakResponse (call : nat) (r : SpeakResult)
  | AudioEnded (call : nat)
  | AudioError (call : nat)
  | PlayRejected (call : nat)
  | UtteranceEnd (call : nat)
  | UtteranceError (call : nat)
  | RecommendResponse (r : RecommendResult).

(* ===================================================================== *)
(** ** The hook of [components/AssistantWidget.jsx] *)
(* ===================================================================== *)

Module Widget.

(** [/(my name is|mera naam|naam|hai|is|hain|ji)/gi] *)
Definition fillers : list string :=
  ["my name is"; "mera naam"; "naam"; "hai"; "is"; "hain"; "ji"]%string.

(** [/^(tell|call|what|how|why|can|ok|yes|no|stop|help|hello|hi)$/i] *)
Definition rejects : list string :=
  ["tell"; "call"; "what"; "how"; "why"; "can"; "ok"; "yes"; "no"; "stop";
   "help"; "hello"; "hi"]%string.

Definition min_length : nat := 2.

(** The general-text branch: filler words removed, white space collapsed,
    the result trimmed. *)
Definition clean (text : jsstring) : jsstring :=
  trim (replace_all false re_spaces (js " ")
          (replace_all true (words fillers) [] text)).

Definition extractValue (text : jsstring) (fieldType : option string)
  : option jsstring :=
  if falsy text then None
  else if is_key "mobile" fieldType then
    match re_match false re_mobile text with
    | Some m => Some m
    | None => or_null (take 10 (replace_all false re_nondigit [] text))
    end
  else if is_key "aadhar" fieldType then
    match re_match false re_aadhar text with
    | Some m => Some m
    | None => or_null (take 12 (replace_all false re_nondigit [] text))
    end
  else
    let cleaned := clean text in
    if re_test_whole true (words rejects) cleaned
       || (length cleaned <? min_length)
    then None
    else Some cleaned.

(* ------------------------------------------------------------------- *)
(** *** Speech output and the controller *)
(* ------------------------------------------------------------------- *)

(** [SCHEME_FIELD_ORDER[s.id] || s.fields || []].  The lookup is that of
    the keys that the table lists; an id that names a member of
    [Object.prototype] ('constructor', 'toString', ...), for which the
    lookup of the code finds that member, is outside this definition. *)
Definition getFieldOrder (w : World) : list string :=
  match scheme (props w) with
  | None => []
  | Some s =>
      match assoc (scheme_id s) SCHEME_FIELD_ORDER with
      | Some order => order
      | None => default [] (scheme_fields s)
      end
  end.

(** The property name of [{ ...data, [fieldKey]: value }]. *)
Definition key_of (fieldKey : option string) : string :=
  default "undefined"%string fieldKey.

(** [audio.pause(); audio.onended = null] *)
Definition pause_detach (c : Call) : Call :=
  match c_audio c with
  | Some _ => set_audio (Some (mkAudio false false)) c
  | None => c
  end.

(** [if (window.currentAudio) { pause; onended = null;
    window.currentAudio = null }] *)
Definition stop_audio (w : World) : World :=
  match currentAudio w with
  | Some a =>
      set_currentAudio None
        (update_call a pause_detach w)
  | None => w
  end.

Definition cancel_utter (c : Call) : Call :=
  match c_utter c with
  | Some Queued => set_utter (Some Cancelled) c
  | _ => c
  end.

(** [window.speechSynthesis?.cancel()] *)
Definition synth_cancel (w : World) : World :=
  if speechSynthesis w then set_calls (cancel_utter <$> calls w) w else w.

(** [speak] for a truthy text, up to its first [await]. *)
Definition begin_speak (text : Text) (onEnd : OnEnd) (after : After)
    (w : World) : World :=
  let w := stop_audio w in
  let w := synth_cancel w in
  let w := set_state SPEAKING w in
  let w := addHistory (AiSaid text) w in
  let lang := languageRef w in
  let call := length (calls w) in
  let w := set_calls
             (calls w ++ [mkCall text lang onEnd after AwaitFetch None None]) w in
  emit (ESpeakRequest call text lang) w.

(** [speak(text)], without a callback and not awaited. *)
Definition speak_plain (text : Text) (w : World) : World :=
  if text_falsy text then w else begin_speak text NoCallback Return w.

Definition askNextQuestion (stepIndex : nat) (w : World) : World :=
  let fields := getFieldOrder w in
  if length fields <=? stepIndex then w
  else speak_plain
         (TQuestion (fields !! stepIndex) (phrase_code (languageRef w))) w.

(** [if (onEnd) onEnd()] *)
Definition run_onEnd (k : OnEnd) (w : World) : World :=
  match k with
  | NoCallback => w
  | AskNext stepIndex => askNextQuestion stepIndex w
  | ChangeScheme id =>
      if onSchemeChange (props w) then emit (ESchemeChange id) w else w
  end.

(** The rest of the caller after [await speak(...)]. *)
Definition run_after (a : After) (w : World) : World :=
  match a with
  | Return => w
  | SaveAndDownload newData =>
      let id := match scheme (props w) with
                | Some s => if String.eqb (scheme_id s) EmptyString then "unknown"%string
                            else scheme_id s
                | None => "unknown"%string
                end in
      let w := emit (ESaveRequest id (default [] (newData !! "mobile"%string))
                       (default [] (newData !! "aadhar"%string)) newData) w in
      if onDownload (props w) then emit EDownloadTimer w else w
  end.

(** [await speak(text, onEnd)] followed by [after]. *)
Definition speak (text : Text) (onEnd : OnEnd) (after : After) (w : World)
  : World :=
  if text_falsy text then run_after after (run_onEnd onEnd w)
  else begin_speak text onEnd after w.

(** After the promise of the audio has resolved:
    [setStateAndRef(LISTENING); if (onEnd) onEnd(); return]. *)
Definition complete (call : nat) (c : Call) (w : World) : World :=
  let w := update_call call (set_phase Returned) w in
  let w := set_state LISTENING w in
  let w := emit (ECompletion call) w in
  run_after (c_after c) (run_onEnd (c_onEnd c) w).

(** [resolve()]: a promise settles once. *)
Definition resolve (call : nat) (w : World) : World :=
  match calls w !! call with
  | Some c =>
      match c_phase c with
      | AwaitAudio => complete call c w
      | _ => w
      end
  | None => w
  end.

(** [fallbackSpeak(text, lang, onEnd)]; the choice of a voice has no
    effect on the control flow and is left out. *)
Definition fallbackSpeak (call : nat) (c : Call) (w : World) : World :=
  if speechSynthesis w then
    let w := synth_cancel w in
    let w := update_call call (set_utter (Some Queued)) w in
    emit (EUtter call (c_text c) (c_lang c)) w
  else
    run_onEnd (c_onEnd c) (emit (ECompletion call) (set_state LISTENING w)).

(** The /speak response arrives. *)
Definition on_speak_response (call : nat) (r : SpeakResult) (w : World)
  : World :=
  match calls w !! call with
  | Some c =>
      match c_phase c, r with
      | AwaitFetch, Body =>
          let w := update_call call
                     (fun c => set_phase AwaitAudio
                                 (set_audio (Some (mkAudio true true)) c)) w in
          let w := set_currentAudio (Some call) w in
          emit (EPlay call) w
      | AwaitFetch, _ =>
          let w := update_call call (set_phase Returned) w in
          run_after (c_after c) (fallbackSpeak call c w)
      | _, _ => w
      end
  | None => w
  end.

(** [audio.onended]: delivered to a playing audio whose handler is still
    attached. *)
Definition on_audio_ended (call : nat) (w : World) : World :=
  match calls w !! call with
  | Some c =>
      match c_audio c with
      | Some a =>
          if playing a && onended a then
            let w := update_call call
                       (set_audio (Some (mkAudio false (onended a)))) w in
            resolve call (set_currentAudio None w)
          else w
      | None => w
      end
  | None => w
  end.

(** [audio.onerror], and the [catch] of [audio.play()]: both set
    [window.currentAudio = null] and resolve. *)
Definition on_audio_failed (call : nat) (w : World) : World :=
  match calls w !! call with
  | Some c =>
      match c_audio c with
      | Some a =>
          let w := update_call call
                     (set_audio (Some (mkAudio false (onended a)))) w in
          resolve call (set_currentAudio None w)
      | None => w
      end
  | None => w
  end.

(** [utterance.onend] and [utterance.onerror]. *)
Definition on_utterance_done (call : nat) (w : World) : World :=
  match calls w !! call with
  | Some c =>
      match c_utter c with
      | Some Queued | Some Cancelled =>
          let w := update_call call (set_utter (Some Delivered)) w in
          let w := set_state LISTENING w in
          let w := emit (ECompletion call) w in
          run_onEnd (c_onEnd c) w
      | _ => w
      end
  | None => w
  end.

Definition startConversation (lang : Lang) (w : World) : World :=
  let w := set_language lang w in
  let w := set_history [] w in
  let w := set_step 0 w in
  let w := set_collected ∅ w in
  match scheme (props w) with
  | None => speak (TTriageGreeting lang) NoCallback Return (set_state TRIAGE w)
  | Some _ => speak (TGreeting lang) (AskNext 0) Return w
  end.

Definition is_triage (s : AI_STATE) : bool :=
  match s with TRIAGE | IDLE => true | _ => false end.

(** [value && value.length >= 1] *)
Definition usable (value : option jsstring) : option jsstring :=
  match value with
  | Some (c :: v) => Some (c :: v)
  | _ => None
  end.

Definition processResponse (transcript : jsstring) (w : World) : World :=
  if falsy transcript then w
  else
    let currentState := stateRef w in
    let w := set_state PROCESSING w in
    let w := addHistory (UserSaid transcript) w in
    if is_triage currentState then
      emit (ERecommendRequest transcript (languageRef w))
        (set_recommends (S (recommends w)) w)
    else
      let fields := getFieldOrder w in
      let step := currentStepRef w in
      let fieldKey := fields !! step in
      let langCode := phrase_code (languageRef w) in
      match usable (extractValue transcript fieldKey) with
      | Some value =>
          let newData := <[key_of fieldKey := value]> (collectedDataRef w) in
          let w := set_collected newData w in
          let w := if onFieldUpdate (props w)
                   then emit (EFieldUpdate fieldKey value) w else w in
          let nextStep := step + 1 in
          if nextStep <? length fields then
            speak (TGotIt langCode value) (AskNext nextStep) Return
              (set_step nextStep w)
          else
            speak (TDone langCode) NoCallback (SaveAndDownload newData)
              (set_state COMPLETED w)
      | None =>
          speak (TRetry langCode) (AskNext step) Return w
      end.

(** The /recommend-scheme response arrives in the triage branch. *)
Definition on_recommend_response (r : RecommendResult) (w : World) : World :=
  match recommends w with
  | O => w
  | S n =>
      let w := set_recommends n w in
      let retry := TRetry (phrase_code (languageRef w)) in
      match r with
      | RecommendJson data =>
          if success data then
            speak (TServer (message data)) (ChangeScheme (recommended data))
              Return w
          else
            speak (if falsy (message data) then retry
                   else TServer (message data)) NoCallback Return w
      | RecommendFailed => speak retry NoCallback Return w
      end
  end.

(** One message from outside, handled to completion. *)
Definition handle (e : Event) (w : World) : World :=
  match e with
  | StartConversation lang => startConversation lang w
  | Transcript t => processResponse t w
  | Render s =>
      set_props (mkProps s (onFieldUpdate (props w)) (onSchemeChange (props w))
                   (onDownload (props w))) w
  | SpeakResponse call r => on_speak_response call r w
  | AudioEnded call => on_audio_ended call w
  | AudioError call => on_audio_failed call w
  | PlayRejected call => on_audio_failed call w
  | UtteranceEnd call => on_utterance_done call w
  | UtteranceError call => on_utterance_done call w
  | RecommendResponse r => on_recommend_response r w
  end.

Definition run (es : list Event) (w : World) : World :=
  foldl (fun w e => handle e w) w es.

(** The hook as it is mounted. *)
Definition initial (p : Props) (synth : bool) : World :=
  mkWorld p synth IDLE 0 hi_IN ∅ [] None [] 0 [].

End Widget.

(* ===================================================================== *)
(** ** The hook of [hooks/useVoiceAssistant.js] *)
(* ===================================================================== *)

Module Hook.

(** [/(my name is|mera naam|naam|hai|is)/gi] *)
Definition fillers : list string :=
  ["my name is"; "mera naam"; "naam"; "hai"; "is"]%string.

(** [/^(tell|call|what|how|why|can|ok|yes|no|stop|help)$/i] *)
Definition rejects : list string :=
  ["tell"; "call"; "what"; "how"; "why"; "can"; "ok"; "yes"; "no"; "stop";
   "help"]%string.

Definition min_length : nat := 3.

Definition clean (text : jsstring) : jsstring :=
  trim (replace_all true (words fillers) [] text).

(** [m?.[0] || rest]: a match is ten or twelve code units at least, hence
    truthy. *)
Definition extractValue (text : jsstring) (fieldType : option string)
  : option jsstring :=
  if falsy text then None
  else if is_key "mobile" fieldType then
    match re_match false re_mobile text with
    | Some m => if falsy m then Some (replace_all false re_nondigit [] text) else Some m
    | None => Some (replace_all false re_nondigit [] text)
    end
  else if is_key "aadhar" fieldType then
    match re_match false re_aadhar text with
    | Some m => if falsy m then Some (replace_all false re_nondigit [] text) else Some m
    | None => Some (replace_all false re_nondigit [] text)
    end
  else
    let cleanText := clean text in
    if re_test_whole true (words rejects) cleanText
       || (length cleanText <? min_length)
    then None
    else Some cleanText.

(* ------------------------------------------------------------------- *)
(** *** [speak] and [fallbackSpeak] of [hooks/useVoiceAssistant.js]

    The callbacks that this hook passes to [speak] are closures over its
    React state; what they do is not modelled here, only that they are
    called: [ECompletion] marks [setState(LISTENING); if (onEnd)
    onEnd()]. *)
(* ------------------------------------------------------------------- *)

(** [audio.pause()]; the handlers stay attached. *)
Definition pause (c : Call) : Call :=
  match c_audio c with
  | Some a => set_audio (Some (mkAudio false (onended a))) c
  | None => c
  end.

(** [if (window.currentAudio) { pause(); window.currentAudio = null }] *)
Definition stop_audio (w : World) : World :=
  match currentAudio w with
  | Some a => set_currentAudio None (update_call a pause w)
  | None => w
  end.

(** [speak(text, onEnd)] up to its first [await]. *)
Definition speak (text : Text) (onEnd : OnEnd) (w : World) : World :=
  if text_falsy text then w
  else
    let w := stop_audio w in
    let w := set_state SPEAKING w in
    let w := addHistory (AiSaid text) w in
    let lang := languageRef w in
    let call := length (calls w) in
    let w := set_calls
               (calls w ++ [mkCall text lang onEnd Return AwaitFetch None None]) w in
    emit (ESpeakRequest call text lang) w.

(** [fallbackSpeak(text, onEnd)].  Without [window.speechSynthesis] the
    call throws and nothing more happens. *)
Definition fallbackSpeak (call : nat) (c : Call) (w : World) : World :=
  if speechSynthesis w then
    emit (EUtter call (c_text c) (languageRef w))
      (update_call call (set_utter (Some Queued)) w)
  else w.

(** The handlers [onended], [onerror], [onend]: [setState(LISTENING);
    if (onEnd) onEnd()]. *)
Definition completion (call : nat) (w : World) : World :=
  emit (ECompletion call) (set_state LISTENING w).

(** The /speak response arrives.  The body is not inspected: an audio
    element is made of whatever it holds. *)
Definition on_speak_response (call : nat) (r : SpeakResult) (w : World)
  : World :=
  match calls w !! call with
  | Some c =>
      match c_phase c, r with
      | AwaitFetch, (NetworkError | HttpError) =>
          fallbackSpeak call c (update_call call (set_phase Returned) w)
      | AwaitFetch, (EmptyBody | Body) =>
          let w := update_call call
                     (fun c => set_phase Returned
                                 (set_audio (Some (mkAudio true true)) c)) w in
          let w := set_currentAudio (Some call) w in
          emit (EPlay call) w
      | _, _ => w
      end
  | None => w
  end.

Definition on_audio_ended (call : nat) (w : World) : World :=
  match calls w !! call with
  | Some c =>
      match c_audio c with
      | Some a =>
          if playing a && onended a then
            completion call
              (update_call call (set_audio (Some (mkAudio false (onended a)))) w)
          else w
      | None => w
      end
  | None => w
  end.

Definition on_audio_error (call : nat) (w : World) : World :=
  match calls w !! call with
  | Some c =>
      match c_audio c with
      | Some a =>
          completion call
            (update_call call (set_audio (Some (mkAudio false (onended a)))) w)
      | None => w
      end
  | None => w
  end.

(** [playPromise.catch(error => fallbackSpeak(text, onEnd))] *)
Definition on_play_rejected (call : nat) (w : World) : World :=
  match calls w !! call with
  | Some c =>
      match c_audio c with
      | Some a =>
          fallbackSpeak call c
            (update_call call (set_audio (Some (mkAudio false (onended a)))) w)
      | None => w
      end
  | None => w
  end.

Definition on_utterance_done (call : nat) (w : World) : World :=
  match calls w !! call with
  | Some c =>
      match c_utter c with
      | Some Queued | Some Cancelled =>
          completion call (update_call call (set_utter (Some Delivered)) w)
      | _ => w
      end
  | None => w
  end.

(** The messages that concern [speak]. *)
Definition handle (e : Event) (w : World) : World :=
  match e with
  | SpeakResponse call r => on_speak_response call r w
  | AudioEnded call => on_audio_ended call w
  | AudioError call => on_audio_error call w
  | PlayRejected call => on_play_rejected call w
  | UtteranceEnd call => on_utterance_done call w
  | UtteranceError call => on_utterance_done call w
  | _ => w
  end.

Definition run (es : list Event) (w : World) : World :=
  foldl (fun w e => handle e w) w es.

End Hook.

(* ===================================================================== *)
(** ** The format constraints of the specification *)
(* ===================================================================== *)

(** A window of [n] digits starts at the head of [s]. *)
Definition digits_prefix (n : nat) (s : jsstring) : bool :=
  (n <=? length s) && forallb is_digit (take n s).

(** A run of [n] consecutive digits starts at index [i] of [s]. *)
Definition run_at (n : nat) (s : jsstring) (i : nat) : bool :=
  digits_prefix n (drop i s).

(** "Exactly ten digits or no match." *)
Definition mobile_format_ok (r : option jsstring) : bool :=
  match r with
  | None => true
  | Some v => (length v =? 10) && forallb is_digit v
  end.

Definition four_digits_then (k : jsstring -> bool) (s : jsstring) : bool :=
  digits_prefix 4 s && k (drop 4 s).

Definition opt_space_then (k : jsstring -> bool) (s : jsstring) : bool :=
  match s with
  | c :: s' => if is_space c then k s' else k s
  | [] => k s
  end.

(** Three groups of four digits, each pair of groups separated by at most
    one white-space character. *)
Definition is_444 (v : jsstring) : bool :=
  four_digits_then
    (opt_space_then (four_digits_then (opt_space_then (four_digits_then falsy)))) v.

(** "Twelve digits, a 4-4-4 grouping, or no match." *)
Definition aadhar_format_ok (r : option jsstring) : bool :=
  match r with
  | None => true
  | Some v => ((length v =? 12) && forallb is_digit v) || is_444 v
  end.


(** The Hindi word for "no", U+0928 U+0939 U+0940 U+0902, as speech
    recognition writes it for hi-IN. *)
Definition nahin : jsstring := [2344; 2361; 2368; 2306]%N.

(* ===================================================================== *)
(** ** How one utterance plays out *)
(* ===================================================================== *)

(** The ways in which the remote request of a call fails. *)
Inductive Failure : Type := FailNetwork | FailHttp | FailEmpty.

Definition failure_result (f : Failure) : SpeakResult :=
  match f with
  | FailNetwork => NetworkError
  | FailHttp => HttpError
  | FailEmpty => EmptyBody
  end.

(** The course of one call of [speak] that no other call interrupts. *)
Inductive Outcome : Type :=
  | Played                       (* audio arrives and plays to its end *)
  | PlaybackError                (* audio arrives, the element reports an error *)
  | PlaybackBlocked              (* audio arrives, play() is rejected *)
  | LocalEnd (f : Failure)       (* the request fails, the local voice finishes *)
  | LocalError (f : Failure)     (* the request fails, the local voice fails *)
  | NoVoice (f : Failure).       (* the request fails, there is no synthesizer *)

Definition play_out (call : nat) (o : Outcome) : list Event :=
  match o with
  | Played => [SpeakResponse call Body; AudioEnded call]
  | PlaybackError => [SpeakResponse call Body; AudioError call]
  | PlaybackBlocked => [SpeakResponse call Body; PlayRejected call]
  | LocalEnd f => [SpeakResponse call (failure_result f); UtteranceEnd call]
  | LocalError f => [SpeakResponse call (failure_result f); UtteranceError call]
  | NoVoice f => [SpeakResponse call (failure_result f)]
  end.

(** An outcome with the local voice needs [window.speechSynthesis]. *)
Definition possible (w : World) (o : Outcome) : bool :=
  match o with
  | LocalEnd _ | LocalError _ => speechSynthesis w
  | NoVoice _ => negb (speechSynthesis w)
  | _ => true
  end.

Definition is_remote (o : Outcome) : bool :=
  match o with
  | Played | PlaybackError | PlaybackBlocked => true
  | _ => false
  end.

(** What [Widget.run_after] sends. *)
Definition after_effects (a : After) (w : World) : list Effect :=
  match a with
  | Return => []
  | SaveAndDownload newData =>
      ESaveRequest
        (match scheme (props w) with
         | Some s => if String.eqb (scheme_id s) EmptyString then "unknown"%string
                     else scheme_id s
         | None => "unknown"%string
         end)
        (default [] (newData !! "mobile"%string))
        (default [] (newData !! "aadhar"%string)) newData
      :: (if onDownload (props w) then [EDownloadTimer] else [])
  end.

(** What the widget's hook sends while call [call] plays out, up to the
    point at which its [onEnd] callback is called. *)
Definition speech_effects (w : World) (call : nat) (c : Call) (o : Outcome)
  : list Effect :=
  if is_remote o then
    [EPlay call; ECompletion call] ++ after_effects (c_after c) w
  else if speechSynthesis w then
    [EUtter call (c_text c) (c_lang c)] ++ after_effects (c_after c) w
      ++ [ECompletion call]
  else
    [ECompletion call] ++ after_effects (c_after c) w.

(** The audio elements that are playing and the utterances in the queue of
    the synthesizer. *)
Definition audible (c : Call) : bool :=
  match c_audio c with
  | Some a => playing a
  | None => false
  end
  || match c_utter c with
     | Some Queued => true
     | _ => false
     end.

Definition active (w : World) : list Call := List.filter audible (calls w).

(** How often the completion of call [call] was reached. *)
Definition is_completion (call : nat) (e : Effect) : bool :=
  match e with
  | ECompletion i => i =? call
  | _ => false
  end.

Definition completions (call : nat) (w : World) : nat :=
  length (List.filter (is_completion call) (log w)).

Definition is_field_update (e : Effect) : bool :=
  match e with EFieldUpdate _ _ => true | _ => false end.

Definition is_scheme_change (e : Effect) : bool :=
  match e with ESchemeChange _ => true | _ => false end.

Definition is_save (e : Effect) : bool :=
  match e with ESaveRequest _ _ _ _ => true | _ => false end.

Definition is_download (e : Effect) : bool :=
  match e with EDownloadTimer => true | _ => false end.

Definition is_utter (call : nat) (e : Effect) : bool :=
  match e with EUtter i _ _ => i =? call | _ => false end.

(** The value that [Widget.processResponse] stores for a transcript, if
    any: none for an empty transcript, in the triage branch, or when
    [extractValue] finds nothing. *)
Definition answer (t : jsstring) (w : World) : option jsstring :=
  if falsy t || Widget.is_triage (stateRef w) then None
  else Widget.usable
         (Widget.extractValue t
            (Widget.getFieldOrder w !! currentStepRef w)).

(** The scheme "ujjwala" with its last question, [address], asked. *)
Definition ujjwala_last : World :=
  mkWorld (mkProps (Some (mkScheme "ujjwala" None)) true true true) true
    LISTENING 7 hi_IN ∅ [] None [] 0 [].

(** The hook as mounted without a scheme: the triage branch is taken. *)
Definition no_scheme : World :=
  Widget.initial (mkProps None true true true) true.

(** Is the completion of a call still to come: its [speak] has not
    returned, or its utterance has not had its [end] or [error] event. *)
Definition pending (c : Call) : nat :=
  match c_phase c with
  | Returned =>
      match c_utter c with
      | Some Queued | Some Cancelled => 1
      | _ => 0
      end
  | _ => 1
  end.

(** An utterance is made only by a call whose [speak] has returned. *)
Definition tidy (c : Call) : Prop := c_phase c <> Returned -> c_utter c = None.

Definition count_completions (call : nat) (lg : list Effect) : nat :=
  length (List.filter (is_completion call) lg).

(** The invariant of the widget's hook: a completion that was reached is
    not pending any more. *)
Definition once (cs : list Call) (lg : list Effect) : Prop :=
  (forall i c, cs !! i = Some c -> count_completions i lg + pending c <= 1 /\ tidy c)
  /\ (forall i, length cs <= i -> count_completions i lg = 0).

(** Two calls of [speak] in succession on the hook as mounted, and both
    /speak responses arriving afterwards. *)
Definition two_speaks : World :=
  Widget.run [SpeakResponse 0 Body; SpeakResponse 1 Body]
    (Widget.speak (TRetry en) NoCallback Return
       (Widget.speak (TGreeting en_IN) NoCallback Return no_scheme)).

(** Scenario D: the transcripts [ts] arrive one after the other, each
    after the utterances that the previous one caused have played out;
    [o call] is the course of call [call].  An answer but the last causes
    two utterances (acknowledgment, next question), the last one causes the
    closing message. *)
Fixpoint scenario_D (o : nat -> Outcome) (call : nat) (ts : list jsstring)
  : list Event :=
  match ts with
  | [] => []
  | [t] => Transcript t :: play_out call (o call)
  | t :: ts' =>
      (Transcript t :: play_out call (o call) ++ play_out (S call) (o (S call)))
        ++ scenario_D o (S (S call)) ts'
  end.

(** [{ ...data, [fieldKey]: value }] for the fields in their order. *)
Definition collect (data : gmap string jsstring)
    (answers : list (string * jsstring)) : gmap string jsstring :=
  foldl (fun d kv => <[kv.1 := kv.2]> d) data answers.

Definition saves (lg : list Effect) : nat := length (List.filter is_save lg).

Definition downloads (lg : list Effect) : nat :=
  length (List.filter is_download lg).

(** The scheme "ujjwala" with its first question asked, and answers to its
    eight questions. *)
Definition ujjwala_first : World :=
  mkWorld (mkProps (Some (mkScheme "ujjwala" None)) true true true) true
    LISTENING 0 hi_IN ∅ [] None [] 0 [].

Definition ujjwala_answers : list jsstring :=
  map js ["my name is Sita Devi"; "female"; "1234 5678 9012"; "9876543210";
          "12345678901"; "SBIN0001234"; "BPL12345"; "12 MG Road Pune"]%string.

Definition ujjwala_values : list jsstring :=
  map js ["Sita Devi"; "female"; "1234 5678 9012"; "9876543210";
          "12345678901"; "SBIN0001234"; "BPL12345"; "12 MG Road Pune"]%string.

(* ===================================================================== *)
(** ** Auxiliary notions of the proofs *)
(* ===================================================================== *)

(** Every way of matching [r] consumes a prefix accepted by [k]. *)
Definition consumes (k : jsstring -> bool) (r : regex) : Prop :=
  forall s rest, rest ∈ rmatch false r s -> exists m, s = m ++ rest /\ k m = true.

(** The spellings of a lower-case word under the [i] flag. *)
Fixpoint case_variants (w : jsstring) : list jsstring :=
  match w with
  | [] => [[]]
  | c :: w' =>
      flat_map (fun t => [c :: t; canonicalize c :: t]) (case_variants w')
  end.

Definition is_lower (c : N) : bool := (97 <=? c)%N && (c <=? 122)%N.

(** No match. *)
Definition no_value (r : option jsstring) : bool :=
  match r with None => true | Some _ => false end.

(** The part of the session that only [startConversation],
    [processResponse] and a render of the parent change. *)
Definition session (w : World) : Props * bool * nat * Lang * gmap string jsstring :=
  (props w, speechSynthesis w, currentStepRef w, languageRef w, collectedDataRef w).

(** The invariant on a state of the hook. *)
Definition Inv (w : World) : Prop := once (calls w) (log w).

(** The hook while the audio of a first utterance plays, and while the
    local voice speaks a first utterance. *)
Definition first_playing : World :=
  Widget.run [SpeakResponse 0 Body]
    (Widget.speak (TGreeting en_IN) NoCallback Return no_scheme).

Definition first_local : World :=
  Widget.run [SpeakResponse 0 HttpError]
    (Widget.speak (TGreeting en_IN) NoCallback Return no_scheme).

(* ===================================================================== *)
(** ** The parent of the hook: [pages/FormFiller.jsx]

    The page passes its callbacks to [useVoiceAssistant]; they are combined
    here with the hook of [AssistantWidget.jsx], which has the interface
    that the page uses. *)
(* ===================================================================== *)

Module FormFiller.

(** The [onFieldUpdate] callback that the page passes to the hook:
    [(field, value) => setFormData(prev => ({ ...prev, [field]: value }))]. *)
Definition onFieldUpdate (field : option string) (value : jsstring)
    (prev : gmap string jsstring) : gmap string jsstring :=
  <[Widget.key_of field := value]> prev.

(** [formData] after the field updates of a log, from [useState({})]. *)
Definition formData (lg : list Effect) : gmap string jsstring :=
  foldl (fun prev e =>
           match e with
           | EFieldUpdate field value => onFieldUpdate field value prev
           | _ => prev
           end) ∅ lg.

(** The [fields] of the table [schemes] of the page.  The objects of the
    table have the properties [name], [icon] and [fields] and no [id]. *)
Definition schemes : list (string * list string) :=
  [ ("pm-kisan",
      ["name"; "fatherName"; "aadhar"; "mobile"; "bankAccount"; "ifsc";
       "address"; "landArea"]);
    ("vidhva-sahay",
      ["name"; "aadhar"; "mobile"; "husbandName"; "deathCertNo";
       "bankAccount"; "ifsc"; "address"]);
    ("ration-card",
      ["name"; "aadhar"; "mobile"; "familyMembers"; "income"; "address";
       "cardType"]);
    ("ayushman-bharat",
      ["name"; "aadhar"; "mobile"; "familyMembers"; "income"; "address";
       "existingDiseases"]);
    ("pm-awas",
      ["name"; "fatherName"; "aadhar"; "mobile"; "income"; "currentAddress";
       "plotSize"; "category"]);
    ("ujjwala",
      ["name"; "aadhar"; "mobile"; "address"; "bankAccount"; "ifsc";
       "bplNumber"]);
    ("sukanya-samriddhi",
      ["name"; "fatherName"; "motherName"; "daughterName"; "daughterDOB";
       "aadhar"; "mobile"; "address"; "bankAccount"]);
    ("kisan-credit",
      ["name"; "fatherName"; "aadhar"; "mobile"; "landArea"; "cropType";
       "bankAccount"; "ifsc"; "address"]) ]%string.

(** [schemeId ? (schemes[schemeId] || schemes['pm-kisan']) : null], as the
    hook reads it: [s.id] is [undefined], which is no key of
    [SCHEME_FIELD_ORDER] and is falsy, as the empty string is.  The lookup
    is that of the keys that the table lists: for a [schemeId] that names
    a member of [Object.prototype] ('constructor', 'toString', ...) the
    lookup of the page finds that member, which has no [fields], and the
    render of the hook throws; such ids are outside this definition. *)
Definition scheme_of (schemeId : option string) : option Scheme :=
  match schemeId with
  | None => None
  | Some id =>
      if String.eqb id EmptyString then None
      else Some (mkScheme EmptyString
                   (match assoc id schemes with
                    | Some fields => Some fields
                    | None => assoc "pm-kisan"%string schemes
                    end))
  end.

(** The props that the page passes to the hook; all three callbacks are
    given. *)
Definition hook_props (schemeId : option string) : Props :=
  mkProps (scheme_of schemeId) true true true.

(** What happens on the page in voice mode. *)
Inductive Action : Type :=
  | Toggle                              (* a tap on the orb: onToggle *)
  | ChatSend (input : jsstring)         (* Enter or the send button of the chat bar *)
  | Voice (transcript : jsstring)       (* onTranscript of VoiceInput *)
  | Navigate (schemeId : option string) (* the search parameters change *)
  | Browser (e : Event).                (* the network, the audio elements, the synthesizer *)

(** The handlers of the page.  [aiState] is the state of the hook as of the
    last render, which has taken place when a handler runs.
    - [onToggle]: [if (aiState === 'idle') startConversation('hi-IN');
      else window.speechSynthesis.cancel()];
    - the chat bar: [if (chatInput.trim()) processResponse(chatInput.trim())];
    - [handleVoiceTranscript]: [processResponse(transcript)]. *)
Definition act (a : Action) (w : World) : World :=
  match a with
  | Toggle =>
      match stateRef w with
      | IDLE => Widget.startConversation hi_IN w
      | _ => Widget.synth_cancel w
      end
  | ChatSend input =>
      if falsy (trim input) then w else Widget.processResponse (trim input) w
  | Voice transcript => Widget.processResponse transcript w
  | Navigate schemeId => Widget.handle (Render (scheme_of schemeId)) w
  | Browser e =>
      match e with
      | StartConversation _ | Transcript _ | Render _ => w
      | _ => Widget.handle e w
      end
  end.

Definition run (acts : list Action) (w : World) : World :=
  foldl (fun w a => act a w) w acts.

End FormFiller.

(* ===================================================================== *)
(** ** Notions of the properties of the controller *)
(* ===================================================================== *)

(** The states in which the hook can be found between two messages once
    something has happened. *)
Definition observable (s : AI_STATE) : bool :=
  match s with
  | SPEAKING | LISTENING | PROCESSING => true
  | _ => false
  end.

Definition is_recommend (e : Effect) : bool :=
  match e with ERecommendRequest _ _ => true | _ => false end.

Definition recommend_requests (lg : list Effect) : nat :=
  length (List.filter is_recommend lg).

Definition scheme_changes (lg : list Effect) : list Effect :=
  List.filter is_scheme_change lg.

(** The effects of speech output: everything but a field update and a
    /recommend-scheme request. *)
Definition quiet (e : Effect) : bool :=
  negb (is_field_update e || is_recommend e).

(** A text other than the question of a missing field. *)
Definition proper (t : Text) : bool :=
  match t with
  | TQuestion None _ => false
  | _ => true
  end.

(** [w'] comes from [w] by speech output alone: the state is kept or is
    one of the observable ones, the log grows by effects of speech output,
    and each new call of [speak] is recorded in the history with its
    text. *)
Definition Speaks (w w' : World) : Prop :=
  exists l texts,
    (stateRef w' = stateRef w \/ observable (stateRef w') = true)
    /\ log w' = log w ++ l
    /\ forallb quiet l = true
    /\ conversationHistory w' = conversationHistory w ++ map AiSaid texts
    /\ map c_text (calls w') = map c_text (calls w) ++ texts
    /\ forallb proper texts = true
    /\ session w' = session w.

Definition is_user (e : Entry) : bool :=
  match e with UserSaid _ => true | AiSaid _ => false end.

Definition is_ai (e : Entry) : bool := negb (is_user e).

(** The texts of the [ai] entries of a history. *)
Definition ai_texts (h : list Entry) : list Text :=
  flat_map (fun e => match e with AiSaid t => [t] | UserSaid _ => [] end) h.

(** The [user] entries that a sequence of messages causes: one for each
    transcript that is not empty. *)
Definition heard (es : list Event) : list Entry :=
  flat_map (fun e => match e with
                     | Transcript t => if falsy t then [] else [UserSaid t]
                     | _ => []
                     end) es.

Definition is_start (e : Event) : bool :=
  match e with StartConversation _ => true | _ => false end.


(** No [startConversation] among the messages; the parent does not pass
    another scheme. *)
Definition no_start (es : list Event) : bool := forallb (fun e => negb (is_start e)) es.


(** The names of the members of [Object.prototype].  A property lookup
    [table[key]] in an object literal finds these members too, although the
    literal does not list them: [SCHEME_FIELD_ORDER['constructor']] is the
    function [Object] and not [undefined]. *)
Definition inherited_keys : list string :=
  ["constructor"; "toString"; "toLocaleString"; "valueOf"; "hasOwnProperty";
   "isPrototypeOf"; "propertyIsEnumerable"; "__proto__"; "__defineGetter__";
   "__defineSetter__"; "__lookupGetter__"; "__lookupSetter__"]%string.

(** The id of the scheme names no member of [Object.prototype]: then
    [SCHEME_FIELD_ORDER[s.id]] is the entry that the table lists for the
    id, or [undefined], as in [Widget.getFieldOrder]. *)
Definition own_id (s : option Scheme) : bool :=
  match s with
  | Some s => negb (existsb (String.eqb (scheme_id s)) inherited_keys)
  | None => true
  end.

(** The same of every scheme that the parent passes later. *)
Definition own_ids (es : list Event) : bool :=
  forallb (fun e => match e with Render s => own_id s | _ => true end) es.

(** The call that [speak(text, onEnd)] makes, as it awaits its request. *)
Definition new_call (text : Text) (lang : Lang) (onEnd : OnEnd) (after : After)
  : Call :=
  mkCall text lang onEnd after AwaitFetch None None.

(** The field update that [processResponse] sends, when the parent has
    passed [onFieldUpdate]. *)
Definition field_update (w : World) (fieldKey : option string) (value : jsstring)
  : list Effect :=
  if onFieldUpdate (props w) then [EFieldUpdate fieldKey value] else [].

(** The hook as mounted and not used yet. *)
Definition fresh (w : World) : Prop :=
  stateRef w = IDLE /\ log w = [] /\ conversationHistory w = []
  /\ calls w = [] /\ recommends w = 0
  /\ currentStepRef w = 0 /\ collectedDataRef w = ∅ /\ languageRef w = hi_IN.

(** What [startConversation] says first, and the callback it passes. *)
Definition opening (w : World) (lang : Lang) : Text :=
  match scheme (props w) with
  | Some _ => TGreeting lang
  | None => TTriageGreeting lang
  end.

Definition opening_onEnd (w : World) : OnEnd :=
  match scheme (props w) with
  | Some _ => AskNext 0
  | None => NoCallback
  end.

(** The hook once something has happened. *)
Definition started (w : World) : Prop :=
  observable (stateRef w) = true /\ recommend_requests (log w) <= 1.


(** The form of the page holds what the hook has collected. *)
Definition mirrored (w : World) : Prop :=
  onFieldUpdate (props w) = true
  /\ collectedDataRef w ⊆ FormFiller.formData (log w).

(* ===================================================================== *)
(** ** Notions of the properties of the extraction *)
(* ===================================================================== *)

(** A lower bound on the length of what a pattern matches. *)
Fixpoint min_len (r : regex) : nat :=
  match r with
  | RAtom _ => 1
  | RSeq r1 r2 => min_len r1 + min_len r2
  | RAlt r1 r2 => min_len r1 `min` min_len r2
  | ROpt _ => 0
  | RPlus _ => 1
  | REps => 0
  | REnd => 0
  end.

(** Every white-space character is U+0020 and no two are adjacent. *)
Fixpoint spaced (v : jsstring) : bool :=
  match v with
  | [] => true
  | c :: v' =>
      (if is_space c
       then (c =? 32)%N
            && match v' with c' :: _ => negb (is_space c') | [] => true end
       else true)
      && spaced v'
  end.

(** No white space at the start. *)
Definition starts_clean (v : jsstring) : bool :=
  match v with c :: _ => negb (is_space c) | [] => true end.

(** No white space at either end. *)
Definition ends_clean (v : jsstring) : bool :=
  starts_clean v && starts_clean (rev v).

(* ===================================================================== *)
(** ** Notions of the properties of the speech output *)
(* ===================================================================== *)

(** A call of [speak] that has returned and has neither an audio element
    nor an utterance: nothing is left that could call its [onEnd]. *)
Definition abandoned (call : nat) (w : World) : Prop :=
  exists c, calls w !! call = Some c
            /\ c_phase c = Returned /\ c_audio c = None /\ c_utter c = None.

(** The /speak request fails before a body arrives. *)
Definition request_fails (r : SpeakResult) : bool :=
  match r with
  | NetworkError | HttpError => true
  | _ => false
  end.

(* ===================================================================== *)
(** ** A whole dialogue *)
(* ===================================================================== *)



(** The invariant of the page: the assistant speaks Hindi, and the hook is
    as mounted or in an observable state. *)
Definition on_page (w : World) : Prop :=
  languageRef w = hi_IN /\ (fresh w \/ observable (stateRef w) = true).

(* ===================================================================== *)
(** ** Facts about the matcher *)
(* ===================================================================== *)

Section Matcher.

Variable icase : bool.

Lemma rmatch_rrep_digit n s :
  rmatch icase (rrep n (RAtom ADigit)) s
  = if digits_prefix n s then [drop n s] else [].
Proof.
  revert s. induction n as [|n IH]; intros s.
  - reflexivity.
  - destruct n as [|n].
    + destruct s as [|c s]; [reflexivity|].
      unfold digits_prefix. cbn. rewrite andb_true_r.
      destruct (is_digit c); reflexivity.
    + change (rrep (S (S n)) (RAtom ADigit))
        with (RSeq (RAtom ADigit) (rrep (S n) (RAtom ADigit))).
      cbn [rmatch]. destruct s as [|c s].
      * reflexivity.
      * cbn [atom_ok]. unfold digits_prefix at 1. cbn [length take forallb drop].
        destruct (is_digit c) eqn:Hc.
        -- cbn [flat_map]. rewrite IH, app_nil_r.
           unfold digits_prefix.
           change (S (S n) <=? S (length s)) with (S n <=? length s).
           reflexivity.
        -- rewrite andb_false_r. reflexivity.
Qed.

Lemma digits_prefix_length n s : digits_prefix n s = true -> n <= length s.
Proof.
  unfold digits_prefix. intros H. apply andb_prop in H as [H _].
  apply Nat.leb_le in H. exact H.
Qed.

Lemma digits_prefix_take n s :
  digits_prefix n s = true ->
  length (take n s) = n /\ forallb is_digit (take n s) = true.
Proof.
  intros H. pose proof (digits_prefix_length _ _ H) as Hl.
  unfold digits_prefix in H. apply andb_prop in H as [_ H].
  split; [rewrite length_take; lia | exact H].
Qed.

Lemma match_here_rrep_digit n s :
  match_here icase (rrep n (RAtom ADigit)) s
  = if digits_prefix n s then Some (take n s) else None.
Proof.
  unfold match_here. rewrite rmatch_rrep_digit.
  destruct (digits_prefix n s) eqn:H; [|reflexivity].
  apply digits_prefix_length in H.
  rewrite length_drop. f_equal. f_equal. lia.
Qed.

(** The leftmost position wins. *)
Lemma re_match_Some r s m :
  re_match icase r s = Some m ->
  exists i, match_here icase r (drop i s) = Some m
            /\ forall j, j < i -> match_here icase r (drop j s) = None.
Proof.
  revert m. induction s as [|c s IH]; intros m; cbn [re_match].
  - destruct (match_here icase r []) eqn:H; [|discriminate].
    intros [= <-]. exists 0. split; [exact H | intros j Hj; lia].
  - destruct (match_here icase r (c :: s)) eqn:H.
    + intros [= <-]. exists 0. split; [exact H | intros j Hj; lia].
    + intros Hm. destruct (IH _ Hm) as (i & Hi & Hlt).
      exists (S i). split; [exact Hi|].
      intros [|j] Hj; [exact H | apply Hlt; lia].
Qed.


Lemma re_match_first r s i m :
  match_here icase r (drop i s) = Some m ->
  (forall j, j < i -> match_here icase r (drop j s) = None) ->
  re_match icase r s = Some m.
Proof.
  revert s. induction i as [|i IH]; intros s Hi Hlt.
  - rewrite drop_0 in Hi. destruct s; cbn [re_match]; rewrite Hi; reflexivity.
  - destruct s as [|c s].
    + rewrite drop_nil in Hi. cbn [re_match]. rewrite Hi. reflexivity.
    + cbn [re_match]. pose proof (Hlt 0 ltac:(lia)) as H0.
      rewrite drop_0 in H0. rewrite H0.
      apply IH; [exact Hi|]. intros j Hj. apply (Hlt (S j)). lia.
Qed.

(** [/\D/g] replaced by the empty string keeps the digits. *)
Lemma replace_nondigit s :
  replace_all icase re_nondigit [] s = List.filter is_digit s.
Proof.
  unfold replace_all. induction s as [|c s IH]; [reflexivity|].
  cbn [replace_from List.filter]. unfold match_here, re_nondigit.
  cbn [rmatch atom_ok]. destruct (is_digit c); cbn [negb].
  - fold re_nondigit. rewrite IH. reflexivity.
  - cbn [length]. replace (S (length s) - length s) with 1 by lia.
    cbn [take length app]. fold re_nondigit. exact IH.
Qed.

End Matcher.

Lemma forallb_filter_digit s : forallb is_digit (List.filter is_digit s) = true.
Proof.
  induction s as [|c s IH]; [reflexivity|].
  cbn [List.filter]. destruct (is_digit c) eqn:H; [|exact IH].
  cbn [forallb]. rewrite H. exact IH.
Qed.

Lemma forallb_take (p : N -> bool) n s :
  forallb p s = true -> forallb p (take n s) = true.
Proof.
  revert n. induction s as [|c s IH]; intros [|n]; try reflexivity.
  cbn [forallb take]. intros H. apply andb_prop in H as [Hc Hs].
  rewrite Hc. apply IH. exact Hs.
Qed.

Lemma or_null_Some s v : or_null s = Some v -> v = s /\ 1 <= length s.
Proof.
  unfold or_null. destruct s as [|c s]; [discriminate|].
  intros [= <-]. split; [reflexivity | simpl; lia].
Qed.

(* ===================================================================== *)
(** ** The aadhar pattern yields a 4-4-4 grouping *)
(* ===================================================================== *)


Lemma digits_prefix_app n m rest :
  n <= length m -> digits_prefix n (m ++ rest) = digits_prefix n m.
Proof.
  intros H. unfold digits_prefix.
  rewrite take_app_le by exact H.
  f_equal. rewrite length_app.
  destruct (Nat.leb_spec n (length m)); [|lia].
  apply Nat.leb_le. lia.
Qed.

Lemma consumes_last_group : consumes (four_digits_then falsy) (rrep 4 (RAtom ADigit)).
Proof.
  intros s rest. rewrite rmatch_rrep_digit.
  destruct (digits_prefix 4 s) eqn:H; [|intros Hin; inversion Hin].
  intros Hin. apply list_elem_of_singleton in Hin. subst rest.
  exists (take 4 s). split; [symmetry; apply take_drop|].
  pose proof (digits_prefix_length _ _ H) as Hl.
  unfold four_digits_then.
  rewrite <- (take_drop 4 s) in H at 1.
  rewrite digits_prefix_app in H by (rewrite length_take; lia).
  rewrite H. rewrite drop_ge by (rewrite length_take; lia). reflexivity.
Qed.

Lemma consumes_group k r :
  consumes k r ->
  consumes (four_digits_then k) (RSeq (rrep 4 (RAtom ADigit)) r).
Proof.
  intros Hk s rest. cbn [rmatch]. rewrite rmatch_rrep_digit.
  destruct (digits_prefix 4 s) eqn:H; [|intros Hin; inversion Hin].
  cbn [flat_map]. rewrite app_nil_r. intros Hin.
  destruct (Hk _ _ Hin) as (m & Hm & Hkm).
  pose proof (digits_prefix_length _ _ H) as Hl.
  exists (take 4 s ++ m). split.
  - rewrite <- app_assoc, <- Hm. symmetry. apply take_drop.
  - unfold four_digits_then.
    rewrite digits_prefix_app by (rewrite length_take; lia).
    rewrite <- (take_drop 4 s) in H at 1.
    rewrite digits_prefix_app in H by (rewrite length_take; lia).
    rewrite H. rewrite drop_app_length'; [exact Hkm|].
    rewrite length_take. lia.
Qed.

Lemma consumes_opt_space k r :
  (forall c m, is_space c = true -> k (c :: m) = false) ->
  consumes k r ->
  consumes (opt_space_then k) (RSeq (ROpt (RAtom ASpace)) r).
Proof.
  intros Hsp Hk s rest. cbn [rmatch flat_map]. rewrite flat_map_app.
  cbn [flat_map]. rewrite app_nil_r. intros Hin.
  apply elem_of_app in Hin as [Hin|Hin].
  - destruct s as [|c s]; [inversion Hin|].
    cbn [atom_ok] in Hin. destruct (is_space c) eqn:Hc; [|inversion Hin].
    cbn [flat_map] in Hin. rewrite app_nil_r in Hin.
    destruct (Hk _ _ Hin) as (m & -> & Hkm).
    exists (c :: m). split; [reflexivity|].
    cbn [opt_space_then]. rewrite Hc. exact Hkm.
  - destruct (Hk _ _ Hin) as (m & -> & Hkm).
    exists m. split; [reflexivity|].
    destruct m as [|c m]; [exact Hkm|].
    cbn [opt_space_then]. destruct (is_space c) eqn:Hc; [|exact Hkm].
    rewrite (Hsp _ _ Hc) in Hkm. discriminate.
Qed.

Lemma space_not_digit c : is_space c = true -> is_digit c = false.
Proof.
  unfold is_space, is_digit. intros H.
  destruct (48 <=? c)%N eqn:H1, (c <=? 57)%N eqn:H2; try reflexivity.
  apply N.leb_le in H1, H2.
  repeat match type of H with
         | (_ || _) = true => apply orb_prop in H as [H|H]
         | (_ && _) = true => apply andb_prop in H as [? ?]
         end;
  repeat match goal with
         | H : (_ =? _)%N = true |- _ => apply N.eqb_eq in H
         | H : (_ <=? _)%N = true |- _ => apply N.leb_le in H
         end; lia.
Qed.

Lemma four_digits_no_space k c m :
  is_space c = true -> four_digits_then k (c :: m) = false.
Proof.
  intros H. unfold four_digits_then, digits_prefix.
  cbn [take forallb]. rewrite (space_not_digit _ H).
  rewrite andb_false_r. reflexivity.
Qed.

Lemma consumes_aadhar : consumes is_444 re_aadhar.
Proof.
  unfold is_444, re_aadhar.
  apply consumes_group.
  apply consumes_opt_space; [intros; apply four_digits_no_space; assumption|].
  apply consumes_group.
  apply consumes_opt_space; [intros; apply four_digits_no_space; assumption|].
  apply consumes_last_group.
Qed.

Lemma match_here_consumes k r s m :
  consumes k r -> match_here false r s = Some m -> k m = true.
Proof.
  intros Hk. unfold match_here.
  destruct (rmatch false r s) as [|rest l] eqn:H; [discriminate|].
  intros [= <-].
  destruct (Hk s rest) as (m & -> & Hm); [rewrite H; left|].
  rewrite length_app. replace (length m + length rest - length rest) with (length m) by lia.
  rewrite take_app_length. exact Hm.
Qed.

(* ===================================================================== *)
(** ** Field extraction: digit fields *)
(* ===================================================================== *)

Lemma mobile_unfold text :
  Widget.extractValue text (Some "mobile"%string)
  = if falsy text then None
    else match re_match false re_mobile text with
         | Some m => Some m
         | None => or_null (take 10 (List.filter is_digit text))
         end.
Proof.
  unfold Widget.extractValue. rewrite replace_nondigit. reflexivity.
Qed.

Lemma aadhar_unfold text :
  Widget.extractValue text (Some "aadhar"%string)
  = if falsy text then None
    else match re_match false re_aadhar text with
         | Some m => Some m
         | None => or_null (take 12 (List.filter is_digit text))
         end.
Proof.
  unfold Widget.extractValue. rewrite replace_nondigit. reflexivity.
Qed.

Lemma truncated_digits n text v :
  or_null (take n (List.filter is_digit text)) = Some v ->
  forallb is_digit v = true /\ 1 <= length v <= n.
Proof.
  intros H. apply or_null_Some in H as [-> Hl]. split.
  - apply forallb_take, forallb_filter_digit.
  - split; [exact Hl|]. rewrite length_take. lia.
Qed.

(** C1 (as amended).  On the [mobile] field [extractValue] returns a
    non-empty string of at most ten digits or no match: the first run of
    ten consecutive digits when the transcript has one, otherwise all the
    digits of the transcript cut to ten.  On the [aadhar] field it returns a
    4-4-4 grouping, or a non-empty string of at most twelve digits, or no
    match. *)
Theorem extractValue_digit_fields (text : jsstring) :
  (forall v, Widget.extractValue text (Some "mobile"%string) = Some v ->
             forallb is_digit v = true /\ 1 <= length v <= 10)
  /\ (forall i, run_at 10 text i = true ->
                (forall j, j < i -> run_at 10 text j = false) ->
                Widget.extractValue text (Some "mobile"%string)
                = Some (take 10 (drop i text)))
  /\ ((forall i, run_at 10 text i = false) ->
      Widget.extractValue text (Some "mobile"%string)
      = or_null (take 10 (List.filter is_digit text)))
  /\ (forall v, Widget.extractValue text (Some "aadhar"%string) = Some v ->
                is_444 v = true
                \/ (forallb is_digit v = true /\ 1 <= length v <= 12)).
Proof.
  repeat split.
  - rewrite mobile_unfold in H. destruct (falsy text); [discriminate|].
    destruct (re_match false re_mobile text) as [m|] eqn:Hm.
    + injection H as ->. apply re_match_Some in Hm as (i & Hi & _).
      unfold re_mobile in Hi. rewrite match_here_rrep_digit in Hi.
      destruct (digits_prefix 10 (drop i text)) eqn:Hd; [|discriminate].
      injection Hi as <-. apply digits_prefix_take in Hd. tauto.
    + apply truncated_digits in H. tauto.
  - rewrite mobile_unfold in H. destruct (falsy text); [discriminate|].
    destruct (re_match false re_mobile text) as [m|] eqn:Hm.
    + injection H as ->. apply re_match_Some in Hm as (i & Hi & _).
      unfold re_mobile in Hi. rewrite match_here_rrep_digit in Hi.
      destruct (digits_prefix 10 (drop i text)) eqn:Hd; [|discriminate].
      injection Hi as <-. apply digits_prefix_take in Hd.
      destruct Hd as [-> _]. lia.
    + apply truncated_digits in H. lia.
  - rewrite mobile_unfold in H. destruct (falsy text); [discriminate|].
    destruct (re_match false re_mobile text) as [m|] eqn:Hm.
    + injection H as ->. apply re_match_Some in Hm as (i & Hi & _).
      unfold re_mobile in Hi. rewrite match_here_rrep_digit in Hi.
      destruct (digits_prefix 10 (drop i text)) eqn:Hd; [|discriminate].
      injection Hi as <-. apply digits_prefix_take in Hd.
      destruct Hd as [-> _]. lia.
    + apply truncated_digits in H. lia.
  - intros i Hi Hlt. rewrite mobile_unfold.
    destruct text as [|c text].
    + unfold run_at in Hi. rewrite drop_nil in Hi. discriminate.
    + cbn [falsy].
      rewrite (re_match_first false re_mobile (c :: text) i (take 10 (drop i (c :: text)))).
      * reflexivity.
      * unfold re_mobile. rewrite match_here_rrep_digit.
        unfold run_at in Hi. rewrite Hi. reflexivity.
      * intros j Hj. unfold re_mobile. rewrite match_here_rrep_digit.
        specialize (Hlt j Hj). unfold run_at in Hlt. rewrite Hlt. reflexivity.
  - intros Hno. rewrite mobile_unfold.
    destruct text as [|c text]; [reflexivity|]. cbn [falsy].
    destruct (re_match false re_mobile (c :: text)) as [m|] eqn:Hm; [|reflexivity].
    apply re_match_Some in Hm as (i & Hi & _).
    unfold re_mobile in Hi. rewrite match_here_rrep_digit in Hi.
    specialize (Hno i). unfold run_at in Hno. rewrite Hno in Hi. discriminate.
  - intros v H. rewrite aadhar_unfold in H. destruct (falsy text); [discriminate|].
    destruct (re_match false re_aadhar text) as [m|] eqn:Hm.
    + injection H as ->. apply re_match_Some in Hm as (i & Hi & _).
      left. exact (match_here_consumes _ _ _ _ consumes_aadhar Hi).
    + right. exact (truncated_digits _ _ _ H).
Qed.

Lemma extractValue_digit_fields_witness :
  Widget.extractValue (js "call 9876543210 now") (Some "mobile"%string)
  = Some (js "9876543210")
  /\ Widget.extractValue (js "98765 43210") (Some "mobile"%string)
     = Some (js "9876543210")
  /\ (is_444 (js "1234 5678 9012") = true
      \/ (forallb is_digit (js "1234 5678 9012") = true
          /\ 1 <= length (js "1234 5678 9012") <= 12)).
Proof.
  split; [|split].
  - apply (proj1 (proj2 (extractValue_digit_fields (js "call 9876543210 now"))) 5).
    + reflexivity.
    + intros j Hj.
      destruct j as [|[|[|[|[|j]]]]]; try reflexivity; lia.
  - apply (proj1 (proj2 (proj2 (extractValue_digit_fields (js "98765 43210"))))).
    intros i. do 12 (destruct i as [|i]; [reflexivity|]). reflexivity.
  - apply (proj2 (proj2 (proj2 (extractValue_digit_fields (js "1234 5678 9012"))))).
    reflexivity.
Defined.

(** C1, as stated, fails: a transcript with five digits yields a five-digit
    value on both digit fields. *)
Lemma extractValue_short_digits :
  Widget.extractValue (js "12345") (Some "mobile"%string) = Some (js "12345")
  /\ mobile_format_ok (Widget.extractValue (js "12345") (Some "mobile"%string)) = false
  /\ Widget.extractValue (js "12345") (Some "aadhar"%string) = Some (js "12345")
  /\ aadhar_format_ok (Widget.extractValue (js "12345") (Some "aadhar"%string)) = false.
Proof. repeat split; reflexivity. Qed.

(* ===================================================================== *)
(** ** Field extraction: general text *)
(* ===================================================================== *)

(** C9.  The transcript "my name is Rajesh Kumar" on the field [name] gives
    the value "Rajesh Kumar". *)
Theorem extractValue_scenario_A :
  Widget.extractValue (js "my name is Rajesh Kumar") (Some "name"%string)
  = Some (js "Rajesh Kumar")
  /\ Hook.extractValue (js "my name is Rajesh Kumar") (Some "name"%string)
     = Some (js "Rajesh Kumar").
Proof. split; reflexivity. Qed.

(** The general-text branch, taken for every field key but [mobile] and
    [aadhar] (and for a missing key). *)
Lemma Widget_extractValue_text text ft :
  ft <> Some "mobile"%string -> ft <> Some "aadhar"%string ->
  Widget.extractValue text ft
  = if falsy text then None
    else if re_test_whole true (words Widget.rejects) (Widget.clean text)
            || (length (Widget.clean text) <? Widget.min_length)
         then None else Some (Widget.clean text).
Proof.
  intros Hm Ha. unfold Widget.extractValue, is_key.
  rewrite !bool_decide_eq_false_2 by assumption. reflexivity.
Qed.

Lemma Hook_extractValue_text text ft :
  ft <> Some "mobile"%string -> ft <> Some "aadhar"%string ->
  Hook.extractValue text ft
  = if falsy text then None
    else if re_test_whole true (words Hook.rejects) (Hook.clean text)
            || (length (Hook.clean text) <? Hook.min_length)
         then None else Some (Hook.clean text).
Proof.
  intros Hm Ha. unfold Hook.extractValue, is_key.
  rewrite !bool_decide_eq_false_2 by assumption. reflexivity.
Qed.


Lemma canonicalize_lower c p :
  is_lower p = true -> canonicalize c = canonicalize p ->
  c = p \/ c = canonicalize p.
Proof.
  unfold canonicalize, is_lower. intros Hp. rewrite Hp.
  apply andb_prop in Hp as [H1 H2]. apply N.leb_le in H1, H2.
  destruct ((97 <=? c)%N && (c <=? 122)%N) eqn:Hc.
  - apply andb_prop in Hc as [H3 H4]. apply N.leb_le in H3, H4.
    intros H. left. lia.
  - intros ->. right. reflexivity.
Qed.

Lemma case_variants_complete w t :
  forallb is_lower w = true ->
  map canonicalize t = map canonicalize w -> t ∈ case_variants w.
Proof.
  revert t. induction w as [|p w IH]; intros [|c t] Hw Ht; try discriminate.
  - left.
  - cbn [forallb] in Hw. apply andb_prop in Hw as [Hp Hw].
    cbn [map] in Ht. injection Ht as Hc Ht.
    specialize (IH t Hw Ht). cbn [case_variants].
    apply list_elem_of_In. apply in_flat_map. exists t.
    split; [apply list_elem_of_In; exact IH|].
    destruct (canonicalize_lower c p Hp Hc) as [-> | ->]; [left | right; left]; reflexivity.
Qed.


Lemma no_value_None r : no_value r = true -> r = None.
Proof. destruct r; [discriminate | reflexivity]. Qed.

(** A check over the spellings of the words of a list settles every
    transcript that equals one of the words under the [i] flag. *)
Lemma variants_no_match (f : jsstring -> option jsstring) (ws : list string) :
  forallb (fun w => forallb is_lower (js w)
                    && forallb (fun t => no_value (f t)) (case_variants (js w)))
    ws = true ->
  forall w t, w ∈ ws -> map canonicalize t = map canonicalize (js w) -> f t = None.
Proof.
  intros Hall w t Hw Ht.
  rewrite forallb_forall in Hall. apply list_elem_of_In in Hw.
  specialize (Hall w Hw). apply andb_prop in Hall as [Hl Hv].
  rewrite forallb_forall in Hv.
  pose proof (case_variants_complete _ _ Hl Ht) as Hin.
  apply list_elem_of_In in Hin. apply no_value_None, Hv, Hin.
Qed.

(** C8 (as amended).  A transcript that is a word of the reject list of
    the code, in any mix of upper and lower case, gives no match on every
    general-text field, and so does every transcript whose cleaned remainder
    is shorter than the minimum length (2 in the widget's hook, 3 in the
    other). *)
Theorem reject_list_no_match (ft : option string) :
  ft <> Some "mobile"%string -> ft <> Some "aadhar"%string ->
  (forall w t, w ∈ Widget.rejects ->
               map canonicalize t = map canonicalize (js w) ->
               Widget.extractValue t ft = None)
  /\ (forall text, length (Widget.clean text) < Widget.min_length ->
                   Widget.extractValue text ft = None)
  /\ (forall w t, w ∈ Hook.rejects ->
                  map canonicalize t = map canonicalize (js w) ->
                  Hook.extractValue t ft = None)
  /\ (forall text, length (Hook.clean text) < Hook.min_length ->
                   Hook.extractValue text ft = None).
Proof.
  intros Hm Ha. repeat split.
  - intros w t Hw Ht. rewrite Widget_extractValue_text by assumption.
    rewrite <- (Widget_extractValue_text t (Some "name"%string)) by discriminate.
    apply (variants_no_match
             (fun t => Widget.extractValue t (Some "name"%string))
             Widget.rejects ltac:(vm_compute; reflexivity) w t Hw Ht).
  - intros text Hlen. rewrite Widget_extractValue_text by assumption.
    destruct (falsy text); [reflexivity|].
    apply Nat.ltb_lt in Hlen. rewrite Hlen, orb_true_r. reflexivity.
  - intros w t Hw Ht. rewrite Hook_extractValue_text by assumption.
    rewrite <- (Hook_extractValue_text t (Some "name"%string)) by discriminate.
    apply (variants_no_match
             (fun t => Hook.extractValue t (Some "name"%string))
             Hook.rejects ltac:(vm_compute; reflexivity) w t Hw Ht).
  - intros text Hlen. rewrite Hook_extractValue_text by assumption.
    destruct (falsy text); [reflexivity|].
    apply Nat.ltb_lt in Hlen. rewrite Hlen, orb_true_r. reflexivity.
Qed.

Lemma reject_list_no_match_witness :
  Widget.extractValue (js "Stop") (Some "name"%string) = None
  /\ Widget.extractValue (js "is a") (Some "address"%string) = None
  /\ Hook.extractValue (js "HELP") None = None
  /\ Hook.extractValue (js "naam Om") (Some "fatherName"%string) = None.
Proof.
  split; [|split; [|split]].
  - apply (proj1 (reject_list_no_match (Some "name"%string)
                    ltac:(discriminate) ltac:(discriminate)) "stop"%string).
    + vm_compute. repeat constructor.
    + reflexivity.
  - apply (proj1 (proj2 (reject_list_no_match (Some "address"%string)
                    ltac:(discriminate) ltac:(discriminate)))).
    vm_compute. lia.
  - apply (proj1 (proj2 (proj2 (reject_list_no_match None
                    ltac:(discriminate) ltac:(discriminate)))) "help"%string).
    + vm_compute. repeat constructor.
    + reflexivity.
  - apply (proj2 (proj2 (proj2 (reject_list_no_match (Some "fatherName"%string)
                    ltac:(discriminate) ltac:(discriminate))))).
    vm_compute. lia.
Defined.

(** C8, as stated, fails: the reject lists hold English words only, and the
    Hindi word for "no", in Devanagari or in Latin letters, is extracted as
    a value by both hooks. *)
Lemma translations_are_extracted :
  Widget.extractValue nahin (Some "name"%string) = Some nahin
  /\ Hook.extractValue nahin (Some "name"%string) = Some nahin
  /\ Widget.extractValue (js "nahi") (Some "name"%string) = Some (js "nahi")
  /\ Hook.extractValue (js "nahi") (Some "name"%string) = Some (js "nahi").
Proof. repeat split; reflexivity. Qed.

(* ===================================================================== *)
(** ** What the speech operations leave alone *)
(* ===================================================================== *)


Section Frame.

Import Widget.

Lemma session_stop_audio w : session (stop_audio w) = session w.
Proof. unfold stop_audio. destruct (currentAudio w); reflexivity. Qed.

Lemma session_synth_cancel w : session (synth_cancel w) = session w.
Proof. unfold synth_cancel. destruct (speechSynthesis w); reflexivity. Qed.

Lemma session_begin_speak t k a w : session (begin_speak t k a w) = session w.
Proof.
  unfold begin_speak. cbn -[stop_audio synth_cancel].
  change (session (synth_cancel (stop_audio w)) = session w).
  rewrite session_synth_cancel. apply session_stop_audio.
Qed.

Lemma session_speak_plain t w : session (speak_plain t w) = session w.
Proof.
  unfold speak_plain. destruct (text_falsy t);
    [reflexivity | apply session_begin_speak].
Qed.

Lemma session_askNextQuestion n w : session (askNextQuestion n w) = session w.
Proof.
  unfold askNextQuestion. destruct (_ <=? _);
    [reflexivity | apply session_speak_plain].
Qed.

Lemma session_run_onEnd k w : session (run_onEnd k w) = session w.
Proof.
  destruct k; cbn [run_onEnd].
  - reflexivity.
  - apply session_askNextQuestion.
  - destruct (onSchemeChange (props w)); reflexivity.
Qed.

Lemma session_run_after a w : session (run_after a w) = session w.
Proof.
  destruct a; [reflexivity|]. unfold run_after.
  cbn [props emit]. destruct (onDownload (props w)); reflexivity.
Qed.

Lemma session_speak t k a w : session (speak t k a w) = session w.
Proof.
  unfold speak. destruct (text_falsy t).
  - rewrite session_run_after. apply session_run_onEnd.
  - apply session_begin_speak.
Qed.

Lemma session_complete i c w : session (complete i c w) = session w.
Proof.
  unfold complete. rewrite session_run_after, session_run_onEnd. reflexivity.
Qed.

Lemma session_resolve i w : session (resolve i w) = session w.
Proof.
  unfold resolve. destruct (calls w !! i) as [c|]; [|reflexivity].
  destruct (c_phase c); try reflexivity. apply session_complete.
Qed.

Lemma session_fallbackSpeak i c w : session (fallbackSpeak i c w) = session w.
Proof.
  unfold fallbackSpeak. destruct (speechSynthesis w) eqn:H.
  - cbn -[synth_cancel]. change (session (synth_cancel w) = session w).
    apply session_synth_cancel.
  - rewrite session_run_onEnd. reflexivity.
Qed.

Lemma session_on_speak_response i r w :
  session (on_speak_response i r w) = session w.
Proof.
  unfold on_speak_response. destruct (calls w !! i) as [c|]; [|reflexivity].
  destruct (c_phase c); try reflexivity.
  destruct r; try reflexivity;
    rewrite session_run_after, session_fallbackSpeak; reflexivity.
Qed.

Lemma session_on_audio_ended i w : session (on_audio_ended i w) = session w.
Proof.
  unfold on_audio_ended. destruct (calls w !! i) as [c|]; [|reflexivity].
  destruct (c_audio c) as [a|]; [|reflexivity].
  destruct (playing a && onended a); [|reflexivity].
  rewrite session_resolve. reflexivity.
Qed.

Lemma session_on_audio_failed i w : session (on_audio_failed i w) = session w.
Proof.
  unfold on_audio_failed. destruct (calls w !! i) as [c|]; [|reflexivity].
  destruct (c_audio c) as [a|]; [|reflexivity].
  rewrite session_resolve. reflexivity.
Qed.

Lemma session_on_utterance_done i w :
  session (on_utterance_done i w) = session w.
Proof.
  unfold on_utterance_done. destruct (calls w !! i) as [c|]; [|reflexivity].
  destruct (c_utter c) as [[]|]; try reflexivity;
    rewrite session_run_onEnd; reflexivity.
Qed.

Lemma session_on_recommend_response r w :
  session (on_recommend_response r w) = session w.
Proof.
  unfold on_recommend_response. destruct (recommends w); [reflexivity|].
  destruct r as [|data]; [rewrite session_speak; reflexivity|].
  destruct (success data); rewrite session_speak; reflexivity.
Qed.

Lemma session_step w w' :
  session w' = session w -> currentStepRef w' = currentStepRef w.
Proof. unfold session. intros [= _ _ H _ _]. exact H. Qed.

Lemma session_collected w w' :
  session w' = session w -> collectedDataRef w' = collectedDataRef w.
Proof. unfold session. intros [= _ _ _ _ H]. exact H. Qed.

Lemma session_props w w' : session w' = session w -> props w' = props w.
Proof. unfold session. intros [= H _ _ _ _]. exact H. Qed.

Lemma session_language w w' :
  session w' = session w -> languageRef w' = languageRef w.
Proof. unfold session. intros [= _ _ _ H _]. exact H. Qed.

Lemma session_fields w w' :
  session w' = session w -> getFieldOrder w' = getFieldOrder w.
Proof. intros H. unfold getFieldOrder. rewrite (session_props _ _ H). reflexivity. Qed.

End Frame.

(* ===================================================================== *)
(** ** One call of [speak], from the request to its completion *)
(* ===================================================================== *)

Section Speech.

Import Widget.

Lemma run_app es1 es2 w : run (es1 ++ es2) w = run es2 (run es1 w).
Proof. apply foldl_app. Qed.

Lemma log_stop_audio w : log (stop_audio w) = log w.
Proof. unfold stop_audio. destruct (currentAudio w); reflexivity. Qed.

Lemma log_synth_cancel w : log (synth_cancel w) = log w.
Proof. unfold synth_cancel. destruct (speechSynthesis w); reflexivity. Qed.

Lemma length_stop_audio w : length (calls (stop_audio w)) = length (calls w).
Proof.
  unfold stop_audio. destruct (currentAudio w); [|reflexivity].
  cbn. apply length_alter.
Qed.

Lemma length_synth_cancel w : length (calls (synth_cancel w)) = length (calls w).
Proof.
  unfold synth_cancel. destruct (speechSynthesis w); [|reflexivity].
  cbn. apply length_fmap.
Qed.

Lemma begin_speak_summary t k a w :
  let w' := begin_speak t k a w in
  session w' = session w
  /\ stateRef w' = SPEAKING
  /\ length (calls w') = S (length (calls w))
  /\ log w' = log w ++ [ESpeakRequest (length (calls w)) t (languageRef w)]
  /\ calls w' !! length (calls w)
     = Some (mkCall t (languageRef w) k a AwaitFetch None None)
  /\ recommends w' = recommends w.
Proof.
  pose proof (session_language _ _
                (eq_trans (session_synth_cancel (stop_audio w))
                          (session_stop_audio w))) as Hl.
  assert (Hn : length (calls (synth_cancel (stop_audio w))) = length (calls w))
    by (rewrite length_synth_cancel; apply length_stop_audio).
  cbv zeta. split; [apply session_begin_speak|].
  unfold begin_speak. cbn -[stop_audio synth_cancel].
  rewrite Hl, Hn, log_synth_cancel, log_stop_audio.
  repeat split.
  - rewrite length_app. cbn. lia.
  - rewrite <- Hn. apply list_lookup_middle. reflexivity.
  - unfold synth_cancel, stop_audio.
    destruct (currentAudio w); cbn; destruct (speechSynthesis w); reflexivity.
Qed.

Lemma lookup_update_call i f w c :
  calls w !! i = Some c -> calls (update_call i f w) !! i = Some (f c).
Proof. intros H. cbn. rewrite list_lookup_alter_eq, H. reflexivity. Qed.

Lemma log_run_after a w : log (run_after a w) = log w ++ after_effects a w.
Proof.
  destruct a; cbn [run_after after_effects]; [symmetry; apply app_nil_r|].
  cbn [props emit]. destruct (onDownload (props w)); cbn.
  - rewrite <- app_assoc. reflexivity.
  - reflexivity.
Qed.

Lemma stateRef_run_after a w : stateRef (run_after a w) = stateRef w.
Proof.
  destruct a; cbn [run_after]; [reflexivity|].
  cbn [props emit]. destruct (onDownload (props w)); reflexivity.
Qed.

Lemma calls_run_after a w : calls (run_after a w) = calls w.
Proof.
  destruct a; cbn [run_after]; [reflexivity|].
  cbn [props emit]. destruct (onDownload (props w)); reflexivity.
Qed.

Lemma recommends_run_after a w : recommends (run_after a w) = recommends w.
Proof.
  destruct a; cbn [run_after]; [reflexivity|].
  cbn [props emit]. destruct (onDownload (props w)); reflexivity.
Qed.

Lemma after_effects_props a w w' :
  props w' = props w -> after_effects a w' = after_effects a w.
Proof. intros H. destruct a; cbn; rewrite ?H; reflexivity. Qed.

(** The callback and the rest of the caller, when one of them is absent. *)
Lemma finish_call k a W :
  k = NoCallback \/ a = Return ->
  exists W0, run_after a (run_onEnd k W) = run_onEnd k W0
             /\ session W0 = session W /\ stateRef W0 = stateRef W
             /\ calls W0 = calls W
             /\ log W0 = log W ++ after_effects a W
             /\ recommends W0 = recommends W.
Proof.
  intros [-> | ->].
  - exists (run_after a W). cbn [run_onEnd].
    rewrite session_run_after, stateRef_run_after, calls_run_after,
      log_run_after, recommends_run_after. repeat split; reflexivity.
  - exists W. cbn [run_after after_effects]. rewrite app_nil_r.
    repeat split; reflexivity.
Qed.

Lemma audio_settled call c ev w :
  calls w !! call = Some c -> c_phase c = AwaitFetch ->
  c_onEnd c = NoCallback \/ c_after c = Return ->
  ev = AudioEnded call \/ ev = AudioError call \/ ev = PlayRejected call ->
  exists W0, run [SpeakResponse call Body; ev] w = run_onEnd (c_onEnd c) W0
             /\ session W0 = session w /\ stateRef W0 = LISTENING
             /\ length (calls W0) = length (calls w)
             /\ log W0 = log w ++ [EPlay call; ECompletion call]
                           ++ after_effects (c_after c) w
             /\ recommends W0 = recommends w.
Proof.
  intros Hc Hp Hka Hev. cbn [run foldl].
  assert (H1 : handle (SpeakResponse call Body) w
               = emit (EPlay call) (set_currentAudio (Some call)
                   (update_call call
                      (fun c => set_phase AwaitAudio
                                  (set_audio (Some (mkAudio true true)) c)) w))).
  { cbn [handle]. unfold on_speak_response. rewrite Hc, Hp. reflexivity. }
  rewrite H1. clear H1.
  set (w1 := emit _ _).
  assert (Hc1 : calls w1 !! call
                = Some (set_phase AwaitAudio (set_audio (Some (mkAudio true true)) c))).
  { subst w1. cbn. rewrite list_lookup_alter_eq, Hc. reflexivity. }
  set (w2 := set_currentAudio None
               (update_call call (set_audio (Some (mkAudio false true))) w1)).
  assert (H2 : handle ev w1 = resolve call w2).
  { destruct Hev as [-> | [-> | ->]]; cbn [handle];
      unfold on_audio_ended, on_audio_failed; rewrite Hc1; reflexivity. }
  rewrite H2. clear H2.
  unfold resolve.
  assert (Hc2 : calls w2 !! call
                = Some (set_audio (Some (mkAudio false true))
                          (set_phase AwaitAudio
                             (set_audio (Some (mkAudio true true)) c)))).
  { subst w2. cbn -[w1]. rewrite list_lookup_alter_eq, Hc1. reflexivity. }
  rewrite Hc2. cbn [c_phase set_audio set_phase]. unfold complete.
  cbn [c_after c_onEnd set_audio set_phase].
  destruct (finish_call (c_onEnd c) (c_after c)
              (emit (ECompletion call) (set_state LISTENING
                 (update_call call (set_phase Returned) w2))) Hka)
    as (W0 & HW & Hs & Hst & Hcs & Hlog & Hr).
  exists W0. split; [exact HW|]. rewrite Hs, Hst, Hcs, Hlog, Hr.
  repeat split.
  - subst w2 w1. cbn. rewrite !length_alter. reflexivity.
  - rewrite (after_effects_props _ _ w) by reflexivity.
    subst w2 w1. cbn. rewrite <- !app_assoc. reflexivity.
Qed.

Lemma failed_response call c f w :
  calls w !! call = Some c -> c_phase c = AwaitFetch ->
  handle (SpeakResponse call (failure_result f)) w
  = run_after (c_after c)
      (fallbackSpeak call c (update_call call (set_phase Returned) w)).
Proof.
  intros Hc Hp. cbn [handle]. unfold on_speak_response. rewrite Hc, Hp.
  destruct f; reflexivity.
Qed.

Lemma cancel_utter_onEnd c : c_onEnd (cancel_utter c) = c_onEnd c.
Proof. unfold cancel_utter. destruct (c_utter c) as [[]|]; reflexivity. Qed.

Lemma voice_settled call c f ev w :
  speechSynthesis w = true ->
  calls w !! call = Some c -> c_phase c = AwaitFetch ->
  ev = UtteranceEnd call \/ ev = UtteranceError call ->
  exists W0, run [SpeakResponse call (failure_result f); ev] w
             = run_onEnd (c_onEnd c) W0
             /\ session W0 = session w /\ stateRef W0 = LISTENING
             /\ length (calls W0) = length (calls w)
             /\ log W0 = log w ++ [EUtter call (c_text c) (c_lang c)]
                           ++ after_effects (c_after c) w
                           ++ [ECompletion call]
             /\ recommends W0 = recommends w.
Proof.
  intros Hs Hc Hp Hev. cbn [run foldl].
  rewrite (failed_response _ _ _ _ Hc Hp).
  unfold fallbackSpeak. cbn [speechSynthesis update_call set_calls]. rewrite Hs.
  set (w1 := update_call call (set_phase Returned) w).
  set (w2 := emit _ _).
  assert (Hc2 : exists c', calls (run_after (c_after c) w2) !! call = Some c'
                           /\ c_utter c' = Some Queued /\ c_onEnd c' = c_onEnd c).
  { rewrite calls_run_after. subst w2 w1. unfold synth_cancel.
    cbn [speechSynthesis update_call set_calls]. rewrite Hs. cbn.
    rewrite list_lookup_alter_eq, list_lookup_fmap, list_lookup_alter_eq, Hc.
    cbn. eexists. split; [reflexivity|]. split; [reflexivity|].
    cbn. rewrite cancel_utter_onEnd. reflexivity. }
  destruct Hc2 as (c' & Hc' & Hu & Hk).
  assert (H2 : handle ev (run_after (c_after c) w2)
               = run_onEnd (c_onEnd c)
                   (emit (ECompletion call) (set_state LISTENING
                      (update_call call (set_utter (Some Delivered))
                         (run_after (c_after c) w2))))).
  { destruct Hev as [-> | ->]; cbn [handle]; unfold on_utterance_done;
      rewrite Hc', Hu, Hk; reflexivity. }
  rewrite H2. clear H2. eexists. split; [reflexivity|].
  assert (Hs2 : session w2 = session w).
  { subst w2 w1. unfold synth_cancel. cbn. rewrite Hs. reflexivity. }
  repeat split.
  - cbn. change (session (run_after (c_after c) w2) = session w).
    rewrite session_run_after. exact Hs2.
  - cbn. rewrite length_alter, calls_run_after. subst w2 w1.
    unfold synth_cancel. cbn. rewrite Hs. cbn.
    rewrite length_alter, length_fmap, length_alter. reflexivity.
  - cbn. rewrite log_run_after.
    rewrite (after_effects_props (c_after c) w w2 (session_props _ _ Hs2)).
    subst w2 w1. unfold synth_cancel. cbn. rewrite Hs. cbn.
    rewrite <- !app_assoc. reflexivity.
  - cbn. rewrite recommends_run_after. subst w2 w1.
    unfold synth_cancel. cbn. rewrite Hs. reflexivity.
Qed.

Lemma novoice_settled call c f w :
  speechSynthesis w = false ->
  calls w !! call = Some c -> c_phase c = AwaitFetch ->
  c_onEnd c = NoCallback \/ c_after c = Return ->
  exists W0, run [SpeakResponse call (failure_result f)] w
             = run_onEnd (c_onEnd c) W0
             /\ session W0 = session w /\ stateRef W0 = LISTENING
             /\ length (calls W0) = length (calls w)
             /\ log W0 = log w ++ [ECompletion call]
                           ++ after_effects (c_after c) w
             /\ recommends W0 = recommends w.
Proof.
  intros Hs Hc Hp Hka. cbn [run foldl].
  rewrite (failed_response _ _ _ _ Hc Hp).
  unfold fallbackSpeak. cbn [speechSynthesis update_call set_calls]. rewrite Hs.
  destruct (finish_call (c_onEnd c) (c_after c)
              (emit (ECompletion call) (set_state LISTENING
                 (update_call call (set_phase Returned) w))) Hka)
    as (W0 & HW & Hse & Hst & Hcs & Hlog & Hr).
  exists W0. split; [exact HW|]. rewrite Hse, Hst, Hcs, Hlog, Hr.
  repeat split.
  - cbn. apply length_alter.
  - rewrite (after_effects_props _ _ w) by reflexivity.
    cbn. rewrite <- !app_assoc. reflexivity.
Qed.

(** Every course of a call ends in [LISTENING] with its callback called
    once. *)
Lemma play_out_summary call c o w :
  possible w o = true ->
  calls w !! call = Some c -> c_phase c = AwaitFetch ->
  c_onEnd c = NoCallback \/ c_after c = Return ->
  exists W0, run (play_out call o) w = run_onEnd (c_onEnd c) W0
             /\ session W0 = session w /\ stateRef W0 = LISTENING
             /\ length (calls W0) = length (calls w)
             /\ log W0 = log w ++ speech_effects w call c o
             /\ recommends W0 = recommends w.
Proof.
  intros Hpo Hc Hp Hka. unfold speech_effects.
  destruct o; cbn [play_out is_remote possible] in *.
  - apply audio_settled; auto.
  - apply audio_settled; auto.
  - apply audio_settled; auto.
  - rewrite Hpo. apply voice_settled; auto.
  - rewrite Hpo. apply voice_settled; auto.
  - apply negb_true_iff in Hpo. rewrite Hpo. apply novoice_settled; auto.
Qed.

End Speech.

(* ===================================================================== *)
(** ** One call of [processResponse] *)
(* ===================================================================== *)

Section Steps.

Import Widget.

Lemma answer_Some t w v :
  answer t w = Some v ->
  falsy t = false /\ is_triage (stateRef w) = false
  /\ usable (extractValue t (getFieldOrder w !! currentStepRef w)) = Some v.
Proof.
  unfold answer. destruct (falsy t); [discriminate|].
  destruct (is_triage (stateRef w)); [discriminate|]. auto.
Qed.

(** The three branches of the form-filling mode. *)
Lemma processResponse_next t w v :
  answer t w = Some v ->
  currentStepRef w + 1 < length (getFieldOrder w) ->
  processResponse t w
  = begin_speak (TGotIt (phrase_code (languageRef w)) v)
      (AskNext (currentStepRef w + 1)) Return
      (set_step (currentStepRef w + 1)
         ((if onFieldUpdate (props w)
           then emit (EFieldUpdate (getFieldOrder w !! currentStepRef w) v)
           else id)
            (set_collected
               (<[key_of (getFieldOrder w !! currentStepRef w) := v]>
                  (collectedDataRef w))
               (addHistory (UserSaid t) (set_state PROCESSING w))))).
Proof.
  intros Ha Hlt. apply answer_Some in Ha as (Ht & Htr & Hv).
  unfold processResponse. rewrite Ht, Htr.
  change (getFieldOrder (addHistory (UserSaid t) (set_state PROCESSING w)))
    with (getFieldOrder w).
  cbn [currentStepRef addHistory set_history set_state languageRef
         collectedDataRef props set_collected].
  rewrite Hv.
  apply Nat.ltb_lt in Hlt. 
  destruct (onFieldUpdate (props w)); cbn [props emit]; rewrite Hlt; reflexivity.
Qed.

Lemma processResponse_last t w v :
  answer t w = Some v ->
  length (getFieldOrder w) <= currentStepRef w + 1 ->
  processResponse t w
  = begin_speak (TDone (phrase_code (languageRef w))) NoCallback
      (SaveAndDownload
         (<[key_of (getFieldOrder w !! currentStepRef w) := v]>
            (collectedDataRef w)))
      (set_state COMPLETED
         ((if onFieldUpdate (props w)
           then emit (EFieldUpdate (getFieldOrder w !! currentStepRef w) v)
           else id)
            (set_collected
               (<[key_of (getFieldOrder w !! currentStepRef w) := v]>
                  (collectedDataRef w))
               (addHistory (UserSaid t) (set_state PROCESSING w))))).
Proof.
  intros Ha Hge. apply answer_Some in Ha as (Ht & Htr & Hv).
  unfold processResponse. rewrite Ht, Htr.
  change (getFieldOrder (addHistory (UserSaid t) (set_state PROCESSING w)))
    with (getFieldOrder w).
  cbn [currentStepRef addHistory set_history set_state languageRef
         collectedDataRef props set_collected].
  rewrite Hv.
  apply Nat.ltb_ge in Hge.
  destruct (onFieldUpdate (props w)); cbn [props emit]; rewrite Hge; reflexivity.
Qed.

Lemma processResponse_retry t w :
  falsy t = false -> is_triage (stateRef w) = false ->
  answer t w = None ->
  processResponse t w
  = begin_speak (TRetry (phrase_code (languageRef w)))
      (AskNext (currentStepRef w)) Return
      (addHistory (UserSaid t) (set_state PROCESSING w)).
Proof.
  intros Ht Htr Ha. unfold answer in Ha. rewrite Ht, Htr in Ha. cbn in Ha.
  unfold processResponse. rewrite Ht, Htr.
  change (getFieldOrder (addHistory (UserSaid t) (set_state PROCESSING w)))
    with (getFieldOrder w).
  cbn [currentStepRef addHistory set_history set_state languageRef].
  rewrite Ha. reflexivity.
Qed.

Lemma processResponse_triage t w :
  falsy t = false -> is_triage (stateRef w) = true ->
  processResponse t w
  = emit (ERecommendRequest t (languageRef w))
      (set_recommends (S (recommends w))
         (addHistory (UserSaid t) (set_state PROCESSING w))).
Proof.
  intros Ht Htr. unfold processResponse. rewrite Ht, Htr. reflexivity.
Qed.

Lemma answer_cases t w :
  (exists v, answer t w = Some v)
  \/ (answer t w = None
      /\ (falsy t = true
          \/ (falsy t = false /\ is_triage (stateRef w) = true)
          \/ (falsy t = false /\ is_triage (stateRef w) = false))).
Proof.
  destruct (answer t w) eqn:Ha; [left; eauto|]. right. split; [reflexivity|].
  destruct (falsy t); [left; reflexivity|].
  destruct (is_triage (stateRef w)); [right; left | right; right]; auto.
Qed.

Lemma processResponse_step t w :
  currentStepRef (processResponse t w)
  = match answer t w with
    | Some _ =>
        if currentStepRef w + 1 <? length (getFieldOrder w)
        then currentStepRef w + 1 else currentStepRef w
    | None => currentStepRef w
    end.
Proof.
  destruct (answer_cases t w) as [[v Ha] | [Ha Hc]]; rewrite Ha.
  - destruct (Nat.ltb_spec (currentStepRef w + 1) (length (getFieldOrder w))).
    + rewrite (processResponse_next _ _ _ Ha) by assumption.
      rewrite (session_step _ _ (session_begin_speak _ _ _ _)). reflexivity.
    + rewrite (processResponse_last _ _ _ Ha) by assumption.
      rewrite (session_step _ _ (session_begin_speak _ _ _ _)).
      cbn. destruct (onFieldUpdate (props w)); reflexivity.
  - destruct Hc as [Ht | [[Ht Htr] | [Ht Htr]]].
    + unfold processResponse. rewrite Ht. reflexivity.
    + rewrite processResponse_triage by assumption. reflexivity.
    + rewrite processResponse_retry by assumption.
      rewrite (session_step _ _ (session_begin_speak _ _ _ _)). reflexivity.
Qed.

Lemma processResponse_collected t w :
  collectedDataRef (processResponse t w)
  = match answer t w with
    | Some v => <[key_of (getFieldOrder w !! currentStepRef w) := v]>
                  (collectedDataRef w)
    | None => collectedDataRef w
    end.
Proof.
  destruct (answer_cases t w) as [[v Ha] | [Ha Hc]]; rewrite Ha.
  - destruct (Nat.ltb_spec (currentStepRef w + 1) (length (getFieldOrder w))).
    + rewrite (processResponse_next _ _ _ Ha) by assumption.
      rewrite (session_collected _ _ (session_begin_speak _ _ _ _)).
      cbn. destruct (onFieldUpdate (props w)); reflexivity.
    + rewrite (processResponse_last _ _ _ Ha) by assumption.
      rewrite (session_collected _ _ (session_begin_speak _ _ _ _)).
      cbn. destruct (onFieldUpdate (props w)); reflexivity.
  - destruct Hc as [Ht | [[Ht Htr] | [Ht Htr]]].
    + unfold processResponse. rewrite Ht. reflexivity.
    + rewrite processResponse_triage by assumption. reflexivity.
    + rewrite processResponse_retry by assumption.
      rewrite (session_collected _ _ (session_begin_speak _ _ _ _)). reflexivity.
Qed.

Lemma log_begin_speak t k a w :
  log (begin_speak t k a w)
  = log w ++ [ESpeakRequest (length (calls w)) t (languageRef w)].
Proof. apply (begin_speak_summary t k a w). Qed.

Lemma filter_snoc_false {A} (p : A -> bool) l x :
  p x = false -> List.filter p (l ++ [x]) = List.filter p l.
Proof.
  intros H. rewrite List.filter_app. cbn. rewrite H. apply app_nil_r.
Qed.

(** The field updates that [processResponse] sends. *)
Lemma processResponse_field_updates t w :
  List.filter is_field_update (log (processResponse t w))
  = List.filter is_field_update (log w)
    ++ match answer t w with
       | Some v =>
           if onFieldUpdate (props w)
           then [EFieldUpdate (getFieldOrder w !! currentStepRef w) v]
           else []
       | None => []
       end.
Proof.
  destruct (answer_cases t w) as [[v Ha] | [Ha Hc]]; rewrite Ha.
  - destruct (Nat.ltb_spec (currentStepRef w + 1) (length (getFieldOrder w))).
    + rewrite (processResponse_next _ _ _ Ha) by assumption.
      rewrite log_begin_speak, filter_snoc_false by reflexivity.
      cbn. destruct (onFieldUpdate (props w)); cbn.
      * rewrite List.filter_app. reflexivity.
      * symmetry. apply app_nil_r.
    + rewrite (processResponse_last _ _ _ Ha) by assumption.
      rewrite log_begin_speak, filter_snoc_false by reflexivity.
      cbn. destruct (onFieldUpdate (props w)); cbn.
      * rewrite List.filter_app. reflexivity.
      * symmetry. apply app_nil_r.
  - rewrite app_nil_r. destruct Hc as [Ht | [[Ht Htr] | [Ht Htr]]].
    + unfold processResponse. rewrite Ht. reflexivity.
    + rewrite processResponse_triage by assumption. cbn.
      apply filter_snoc_false. reflexivity.
    + rewrite processResponse_retry by assumption.
      rewrite log_begin_speak, filter_snoc_false by reflexivity. reflexivity.
Qed.

End Steps.

(* ===================================================================== *)
(** ** Each completion is reached at most once *)
(* ===================================================================== *)

Section Once.

Import Widget.

Lemma count_completions_snoc i lg e :
  count_completions i (lg ++ [e])
  = count_completions i lg + (if is_completion i e then 1 else 0).
Proof.
  unfold count_completions. rewrite List.filter_app, length_app. cbn.
  destruct (is_completion i e); reflexivity.
Qed.

Lemma once_emit cs lg e :
  (forall i, is_completion i e = false) -> once cs lg -> once cs (lg ++ [e]).
Proof.
  intros He [H1 H2]. split.
  - intros i c Hc. rewrite count_completions_snoc, He, Nat.add_0_r. auto.
  - intros i Hi. rewrite count_completions_snoc, He, Nat.add_0_r. auto.
Qed.

(** A pointwise change of the calls that makes no completion pending
    again. *)
Lemma once_update cs cs' lg :
  once cs lg -> length cs' = length cs ->
  (forall j c', cs' !! j = Some c' ->
                exists c, cs !! j = Some c /\ (tidy c -> pending c' <= pending c /\ tidy c')) ->
  once cs' lg.
Proof.
  intros [H1 H2] Hlen Hpt. split.
  - intros j c' Hj. destruct (Hpt _ _ Hj) as (c & Hc & Hok).
    destruct (H1 _ _ Hc) as [Hn Ht]. destruct (Hok Ht). split; [lia | assumption].
  - intros j Hj. rewrite Hlen in Hj. auto.
Qed.

Lemma once_alter_at cs lg i c f :
  once cs lg -> cs !! i = Some c ->
  pending (f c) <= pending c -> tidy (f c) ->
  once (alter f i cs) lg.
Proof.
  intros H Hc Hp Ht. apply (once_update cs); [exact H | apply length_alter |].
  intros j c' Hj. destruct (decide (i = j)) as [<-|Hne].
  - rewrite list_lookup_alter_eq, Hc in Hj. injection Hj as <-.
    exists c. auto.
  - rewrite list_lookup_alter_ne in Hj by exact Hne. exists c'. auto.
Qed.

Lemma once_alter cs lg i f :
  once cs lg ->
  (forall c, tidy c -> pending (f c) <= pending c /\ tidy (f c)) ->
  once (alter f i cs) lg.
Proof.
  intros H Hf. apply (once_update cs); [exact H | apply length_alter |].
  intros j c' Hj. destruct (decide (i = j)) as [<-|Hne].
  - rewrite list_lookup_alter_eq in Hj.
    destruct (cs !! i) as [c|]; [|discriminate]. injection Hj as <-.
    exists c. auto.
  - rewrite list_lookup_alter_ne in Hj by exact Hne. exists c'. auto.
Qed.

Lemma once_fmap cs lg f :
  once cs lg ->
  (forall c, tidy c -> pending (f c) <= pending c /\ tidy (f c)) ->
  once (f <$> cs) lg.
Proof.
  intros H Hf. apply (once_update cs); [exact H | apply length_fmap |].
  intros j c' Hj. rewrite list_lookup_fmap in Hj.
  destruct (cs !! j) as [c|]; [|discriminate]. injection Hj as <-.
  exists c. auto.
Qed.

Lemma once_snoc cs lg c :
  once cs lg -> c_phase c = AwaitFetch -> c_utter c = None ->
  once (cs ++ [c]) lg.
Proof.
  intros [H1 H2] Hp Hu. split.
  - intros j c' Hj. apply lookup_snoc_Some in Hj as [[_ Hj] | [-> <-]].
    + auto.
    + rewrite (H2 (length cs)) by lia. unfold pending, tidy. rewrite Hp.
      split; [lia | intros _; exact Hu].
  - intros j Hj. rewrite length_app in Hj. cbn in Hj. apply H2. lia.
Qed.

Lemma once_complete cs lg i c f :
  once cs lg -> cs !! i = Some c ->
  pending c = 1 -> pending (f c) = 0 -> tidy (f c) ->
  once (alter f i cs) (lg ++ [ECompletion i]).
Proof.
  intros [H1 H2] Hc Hp Hp' Ht. split.
  - intros j c' Hj. rewrite count_completions_snoc. cbn [is_completion].
    destruct (decide (i = j)) as [<-|Hne].
    + rewrite list_lookup_alter_eq, Hc in Hj. injection Hj as <-.
      rewrite Nat.eqb_refl. destruct (H1 _ _ Hc). split; [lia | exact Ht].
    + rewrite list_lookup_alter_ne in Hj by exact Hne.
      destruct (Nat.eqb_spec i j); [contradiction|].
      rewrite Nat.add_0_r. auto.
  - intros j Hj. rewrite length_alter in Hj.
    rewrite count_completions_snoc. cbn [is_completion].
    destruct (Nat.eqb_spec i j) as [<-|Hne].
    + apply lookup_lt_Some in Hc. lia.
    + rewrite Nat.add_0_r. auto.
Qed.


Lemma pause_detach_ok c :
  tidy c -> pending (pause_detach c) <= pending c /\ tidy (pause_detach c).
Proof.
  unfold pause_detach. destruct (c_audio c); auto.
Qed.

Lemma cancel_utter_ok c :
  tidy c -> pending (cancel_utter c) <= pending c /\ tidy (cancel_utter c).
Proof.
  unfold cancel_utter, pending, tidy.
  destruct c as [t l k a p au u]. cbn.
  destruct u as [[]|]; cbn; destruct p; cbn; intros H; split; auto;
    try lia; try (intros Hp; specialize (H Hp); discriminate).
Qed.

Lemma Inv_stop_audio w : Inv w -> Inv (stop_audio w).
Proof.
  unfold Inv, stop_audio. destruct (currentAudio w); [|auto]. cbn.
  intros H. apply once_alter; [exact H | exact pause_detach_ok].
Qed.

Lemma Inv_synth_cancel w : Inv w -> Inv (synth_cancel w).
Proof.
  unfold Inv, synth_cancel. destruct (speechSynthesis w); [|auto]. cbn.
  intros H. apply once_fmap; [exact H | exact cancel_utter_ok].
Qed.

Lemma Inv_begin_speak t k a w : Inv w -> Inv (begin_speak t k a w).
Proof.
  intros H. apply Inv_stop_audio, Inv_synth_cancel in H.
  unfold Inv, begin_speak in *. cbn -[stop_audio synth_cancel].
  apply once_emit; [reflexivity|].
  apply once_snoc; [exact H | reflexivity | reflexivity].
Qed.

Lemma Inv_run_onEnd k w : Inv w -> Inv (run_onEnd k w).
Proof.
  intros H. destruct k as [|n|id]; cbn [run_onEnd].
  - exact H.
  - unfold askNextQuestion. destruct (_ <=? _); [exact H|].
    unfold speak_plain. cbn [text_falsy]. apply Inv_begin_speak, H.
  - destruct (onSchemeChange (props w)); [|exact H].
    apply once_emit; [reflexivity | exact H].
Qed.

Lemma Inv_run_after a w : Inv w -> Inv (run_after a w).
Proof.
  intros H. destruct a as [|d]; [exact H|]. unfold run_after.
  cbn [props emit]. destruct (onDownload (props w)).
  - apply once_emit; [reflexivity|]. apply once_emit; [reflexivity | exact H].
  - apply once_emit; [reflexivity | exact H].
Qed.

Lemma Inv_speak t k a w : Inv w -> Inv (speak t k a w).
Proof.
  intros H. unfold speak. destruct (text_falsy t).
  - apply Inv_run_after, Inv_run_onEnd, H.
  - apply Inv_begin_speak, H.
Qed.

Lemma Inv_resolve i w : Inv w -> Inv (resolve i w).
Proof.
  intros H. unfold resolve. destruct (calls w !! i) as [c|] eqn:Hc; [|exact H].
  destruct (c_phase c) eqn:Hp; try exact H.
  unfold complete. apply Inv_run_after, Inv_run_onEnd.
  unfold Inv. cbn.
  apply (once_complete _ _ _ c); try assumption.
  - unfold pending. rewrite Hp. reflexivity.
  - unfold pending. cbn. rewrite (proj2 (proj1 H _ _ Hc)); [reflexivity|].
    rewrite Hp. discriminate.
  - intros Hr. cbn in Hr. contradiction.
Qed.

Lemma Inv_on_speak_response i r w : Inv w -> Inv (on_speak_response i r w).
Proof.
  intros H. unfold on_speak_response.
  destruct (calls w !! i) as [c|] eqn:Hc; [|exact H].
  destruct (proj1 H _ _ Hc) as [Hn Ht].
  destruct (c_phase c) eqn:Hp; try exact H.
  assert (Hu : c_utter c = None) by (apply Ht; rewrite Hp; discriminate).
  assert (Hfb : Inv (run_after (c_after c)
                       (fallbackSpeak i c (update_call i (set_phase Returned) w)))).
  { apply Inv_run_after. unfold fallbackSpeak.
    cbn [speechSynthesis update_call set_calls].
    destruct (speechSynthesis w) eqn:Hs.
    - unfold Inv, synth_cancel. cbn. rewrite Hs. cbn.
      apply once_emit; [reflexivity|].
      apply (once_update (calls w)); [exact H | |].
      + rewrite length_alter, length_fmap, length_alter. reflexivity.
      + intros j c' Hj. destruct (decide (i = j)) as [<-|Hne].
        * rewrite list_lookup_alter_eq, list_lookup_fmap,
            list_lookup_alter_eq, Hc in Hj. cbn in Hj. injection Hj as <-.
          exists c. split; [exact Hc|]. intros _. split.
          -- unfold pending at 2. rewrite Hp. unfold pending, cancel_utter.
             cbn. rewrite Hu. cbn. lia.
          -- intros Hr. exfalso. apply Hr. unfold cancel_utter. cbn.
             rewrite Hu. reflexivity.
        * rewrite list_lookup_alter_ne, list_lookup_fmap,
            list_lookup_alter_ne in Hj by exact Hne.
          destruct (calls w !! j) as [cj|]; [|discriminate].
          injection Hj as <-. exists cj. split; [reflexivity|].
          apply cancel_utter_ok.
    - apply Inv_run_onEnd. unfold Inv. cbn.
      apply (once_complete _ _ _ c); try assumption.
      + unfold pending. rewrite Hp. reflexivity.
      + unfold pending. cbn. rewrite Hu. reflexivity.
      + intros Hr. cbn in Hr. contradiction. }
  destruct r; try exact Hfb.
  unfold Inv. cbn. apply once_emit; [reflexivity|].
  apply (once_alter_at _ _ _ c); try assumption.
  - unfold pending. cbn. rewrite Hp. lia.
  - intros _. cbn. exact Hu.
Qed.

Lemma set_audio_ok a c :
  tidy c -> pending (set_audio a c) <= pending c /\ tidy (set_audio a c).
Proof. intros H. split; [reflexivity | exact H]. Qed.

Lemma Inv_on_audio_ended i w : Inv w -> Inv (on_audio_ended i w).
Proof.
  intros H. unfold on_audio_ended.
  destruct (calls w !! i) as [c|]; [|exact H].
  destruct (c_audio c) as [a|]; [|exact H].
  destruct (playing a && onended a); [|exact H].
  apply Inv_resolve. unfold Inv. cbn.
  apply once_alter; [exact H | apply set_audio_ok].
Qed.

Lemma Inv_on_audio_failed i w : Inv w -> Inv (on_audio_failed i w).
Proof.
  intros H. unfold on_audio_failed.
  destruct (calls w !! i) as [c|]; [|exact H].
  destruct (c_audio c) as [a|]; [|exact H].
  apply Inv_resolve. unfold Inv. cbn.
  apply once_alter; [exact H | apply set_audio_ok].
Qed.

Lemma Inv_on_utterance_done i w : Inv w -> Inv (on_utterance_done i w).
Proof.
  intros H. unfold on_utterance_done.
  destruct (calls w !! i) as [c|] eqn:Hc; [|exact H].
  destruct (proj1 H _ _ Hc) as [Hn Ht].
  assert (Hgo : (c_utter c = Some Queued \/ c_utter c = Some Cancelled) ->
                Inv (run_onEnd (c_onEnd c)
                       (emit (ECompletion i) (set_state LISTENING
                          (update_call i (set_utter (Some Delivered)) w))))).
  { intros Hu. apply Inv_run_onEnd. unfold Inv. cbn.
    assert (Hp : c_phase c = Returned).
    { destruct (c_phase c) eqn:Hp; [| |reflexivity];
        (assert (Hn' : c_utter c = None) by (apply Ht; rewrite Hp; discriminate);
         rewrite Hn' in Hu; destruct Hu; discriminate). }
    apply (once_complete _ _ _ c); try assumption.
    - unfold pending. rewrite Hp. destruct Hu as [-> | ->]; reflexivity.
    - unfold pending. cbn. rewrite Hp. reflexivity.
    - intros Hr. cbn in Hr. contradiction. }
  destruct (c_utter c) as [[]|]; try exact H; apply Hgo; auto.
Qed.

Lemma Inv_processResponse t w : Inv w -> Inv (processResponse t w).
Proof.
  intros H. unfold processResponse. destruct (falsy t); [exact H|].
  destruct (is_triage (stateRef w)).
  - apply once_emit; [reflexivity | exact H].
  - cbv zeta. destruct (usable _).
    + destruct (_ <? _); apply Inv_speak.
      * cbn [props set_collected addHistory set_history set_state].
        destruct (onFieldUpdate (props w));
          [apply once_emit; [reflexivity | exact H] | exact H].
      * cbn [props set_collected addHistory set_history set_state].
        destruct (onFieldUpdate (props w));
          [apply once_emit; [reflexivity | exact H] | exact H].
    + apply Inv_speak. exact H.
Qed.

Lemma Inv_handle e w : Inv w -> Inv (handle e w).
Proof.
  intros H. destruct e; cbn [handle].
  - unfold startConversation.
    cbn [props set_collected set_step set_history set_language].
    destruct (scheme (props w)); apply Inv_speak; exact H.
  - apply Inv_processResponse, H.
  - exact H.
  - apply Inv_on_speak_response, H.
  - apply Inv_on_audio_ended, H.
  - apply Inv_on_audio_failed, H.
  - apply Inv_on_audio_failed, H.
  - apply Inv_on_utterance_done, H.
  - apply Inv_on_utterance_done, H.
  - unfold on_recommend_response. destruct (recommends w); [exact H|].
    destruct r as [|data]; [apply Inv_speak; exact H|].
    destruct (success data); apply Inv_speak; exact H.
Qed.

Lemma Inv_run es w : Inv w -> Inv (run es w).
Proof.
  revert w. induction es as [|e es IH]; intros w H; [exact H|].
  cbn [run foldl]. apply IH, Inv_handle, H.
Qed.

Lemma Inv_initial p synth : Inv (initial p synth).
Proof.
  split.
  - intros i c Hc. discriminate.
  - intros i _. reflexivity.
Qed.

Lemma Inv_at_most_once w call : Inv w -> completions call w <= 1.
Proof.
  intros [H1 H2]. unfold completions.
  change (count_completions call (log w) <= 1).
  destruct (calls w !! call) as [c|] eqn:Hc.
  - destruct (H1 _ _ Hc). lia.
  - rewrite H2; [lia|]. apply lookup_ge_None. exact Hc.
Qed.

End Once.

(* ===================================================================== *)
(** ** The dialogue controller *)
(* ===================================================================== *)

Section Controller.

Import Widget.

Lemma handle_step_mono e w :
  (forall l, e <> StartConversation l) ->
  currentStepRef w <= currentStepRef (handle e w).
Proof.
  intros Hne. destruct e; cbn [handle].
  - exfalso. apply (Hne lang). reflexivity.
  - rewrite processResponse_step. destruct (answer t w); [|lia].
    destruct (_ <? _); lia.
  - cbn. lia.
  - rewrite (session_step _ _ (session_on_speak_response _ _ _)). lia.
  - rewrite (session_step _ _ (session_on_audio_ended _ _)). lia.
  - rewrite (session_step _ _ (session_on_audio_failed _ _)). lia.
  - rewrite (session_step _ _ (session_on_audio_failed _ _)). lia.
  - rewrite (session_step _ _ (session_on_utterance_done _ _)). lia.
  - rewrite (session_step _ _ (session_on_utterance_done _ _)). lia.
  - rewrite (session_step _ _ (session_on_recommend_response _ _)). lia.
Qed.


End Controller.




(** C10.  What [processResponse] extracts and stores does not depend on
    the language of the session: with the same transcript, the same field
    and two languages, the value, the collected data, the step index and the
    field updates sent to the parent are the same. *)
Theorem extraction_ignores_language (w : World) (l1 l2 : Lang) (t : jsstring) :
  let w1 := Widget.processResponse t (set_language l1 w) in
  let w2 := Widget.processResponse t (set_language l2 w) in
  answer t (set_language l1 w) = answer t (set_language l2 w)
  /\ collectedDataRef w1 = collectedDataRef w2
  /\ currentStepRef w1 = currentStepRef w2
  /\ List.filter is_field_update (log w1) = List.filter is_field_update (log w2).
Proof.
  cbv zeta.
  assert (Ha : answer t (set_language l1 w) = answer t (set_language l2 w))
    by reflexivity.
  split; [exact Ha|].
  rewrite !processResponse_collected, !processResponse_step,
    !processResponse_field_updates, Ha.
  repeat split; reflexivity.
Qed.

Section Retry.

Import Widget.

Lemma askNextQuestion_asks n w :
  n < length (getFieldOrder w) ->
  askNextQuestion n w
  = begin_speak (TQuestion (getFieldOrder w !! n) (phrase_code (languageRef w)))
      NoCallback Return w.
Proof.
  intros H. unfold askNextQuestion.
  destruct (Nat.leb_spec (length (getFieldOrder w)) n); [lia|]. reflexivity.
Qed.

Lemma possible_session w w' o :
  session w' = session w -> possible w' o = possible w o.
Proof.
  unfold session. intros [= _ H _ _ _]. destruct o; cbn; rewrite ?H; reflexivity.
Qed.

Lemma speech_effects_session w w' call c o :
  session w' = session w ->
  speech_effects w' call c o = speech_effects w call c o.
Proof.
  intros H. unfold speech_effects.
  rewrite (after_effects_props (c_after c) w w' (session_props _ _ H)).
  unfold session in H. injection H as _ H _ _ _. rewrite H. reflexivity.
Qed.

(** A call whose callback asks a question: once it has played out, the
    question is requested. *)
Lemma play_out_then_ask call c o n w :
  possible w o = true ->
  calls w !! call = Some c -> c_phase c = AwaitFetch ->
  c_onEnd c = AskNext n -> c_after c = Return ->
  n < length (getFieldOrder w) ->
  let w' := run (play_out call o) w in
  session w' = session w
  /\ stateRef w' = SPEAKING
  /\ length (calls w') = S (length (calls w))
  /\ log w' = log w ++ speech_effects w call c o
                ++ [ESpeakRequest (length (calls w))
                      (TQuestion (getFieldOrder w !! n) (phrase_code (languageRef w)))
                      (languageRef w)]
  /\ calls w' !! length (calls w)
     = Some (mkCall (TQuestion (getFieldOrder w !! n) (phrase_code (languageRef w)))
               (languageRef w) NoCallback Return AwaitFetch None None)
  /\ recommends w' = recommends w.
Proof.
  intros Hpo Hc Hp Hk Ha Hn. cbv zeta.
  destruct (play_out_summary call c o w Hpo Hc Hp (or_intror Ha))
    as (W0 & -> & Hs & Hst & Hlen & Hlog & Hr).
  rewrite Hk. cbn [run_onEnd].
  rewrite askNextQuestion_asks by (rewrite (session_fields _ _ Hs); exact Hn).
  destruct (begin_speak_summary
              (TQuestion (getFieldOrder W0 !! n) (phrase_code (languageRef W0)))
              NoCallback Return W0) as (Hs' & Hst' & Hlen' & Hlog' & Hc' & Hr').
  rewrite (session_fields _ _ Hs), (session_language _ _ Hs), Hlen, Hlog in *.
  repeat split; try assumption.
  - rewrite Hs'. exact Hs.
  - rewrite Hlog', <- app_assoc. reflexivity.
  - rewrite Hr'. exact Hr.
Qed.

End Retry.



(* ===================================================================== *)
(** ** Speech output *)
(* ===================================================================== *)

Section HookSpeech.

Lemma Hook_stop_audio_frame w :
  length (calls (Hook.stop_audio w)) = length (calls w)
  /\ log (Hook.stop_audio w) = log w
  /\ speechSynthesis (Hook.stop_audio w) = speechSynthesis w
  /\ languageRef (Hook.stop_audio w) = languageRef w.
Proof.
  unfold Hook.stop_audio. destruct (currentAudio w); cbn;
    rewrite ?length_alter; repeat split; reflexivity.
Qed.

(** The other hook at a blocked playback: the local voice is started. *)
Lemma Hook_blocked_playback w text k :
  text_falsy text = false ->
  speechSynthesis w = true ->
  log (Hook.run [SpeakResponse (length (calls w)) Body;
                 PlayRejected (length (calls w))] (Hook.speak text k w))
  = log w ++ [ESpeakRequest (length (calls w)) text (languageRef w);
              EPlay (length (calls w));
              EUtter (length (calls w)) text (languageRef w)].
Proof.
  intros Ht Hs. destruct (Hook_stop_audio_frame w) as (Hlen & Hlog & Hsy & Hl).
  unfold Hook.speak. rewrite Ht.
  cbn [calls addHistory set_history set_state languageRef].
  rewrite Hlen, Hl.
  set (new := mkCall text (languageRef w) k Return AwaitFetch None None).
  set (w1 := emit _ _).
  assert (Hc1 : calls w1 !! length (calls w) = Some new).
  { subst w1. cbn. rewrite <- Hlen. apply list_lookup_middle. reflexivity. }
  cbn [Hook.run foldl Hook.handle].
  unfold Hook.on_speak_response at 1. rewrite Hc1. cbn [c_phase new].
  set (w2 := emit (EPlay _) _).
  assert (Hc2 : calls w2 !! length (calls w)
                = Some (set_phase Returned (set_audio (Some (mkAudio true true)) new))).
  { subst w2. cbn -[w1]. rewrite list_lookup_alter_eq, Hc1. reflexivity. }
  unfold Hook.on_play_rejected. rewrite Hc2. cbn [c_audio set_phase set_audio].
  unfold Hook.fallbackSpeak.
  replace (speechSynthesis _) with true
    by (subst w2 w1; cbn; rewrite Hsy, Hs; reflexivity).
  subst w2 w1. cbn. rewrite Hlog, Hl, <- !app_assoc. reflexivity.
Qed.

(** The other hook does not look at the body of the response: an empty
    one becomes an audio element, and when that element reports an error the
    completion is reached without the local voice. *)
Lemma Hook_empty_body w text k :
  text_falsy text = false ->
  log (Hook.run [SpeakResponse (length (calls w)) EmptyBody;
                 AudioError (length (calls w))] (Hook.speak text k w))
  = log w ++ [ESpeakRequest (length (calls w)) text (languageRef w);
              EPlay (length (calls w));
              ECompletion (length (calls w))].
Proof.
  intros Ht. destruct (Hook_stop_audio_frame w) as (Hlen & Hlog & Hsy & Hl).
  unfold Hook.speak. rewrite Ht.
  cbn [calls addHistory set_history set_state languageRef].
  rewrite Hlen, Hl.
  set (new := mkCall text (languageRef w) k Return AwaitFetch None None).
  set (w1 := emit _ _).
  assert (Hc1 : calls w1 !! length (calls w) = Some new).
  { subst w1. cbn. rewrite <- Hlen. apply list_lookup_middle. reflexivity. }
  cbn [Hook.run foldl Hook.handle].
  unfold Hook.on_speak_response at 1. rewrite Hc1. cbn [c_phase new].
  set (w2 := emit (EPlay _) _).
  assert (Hc2 : calls w2 !! length (calls w)
                = Some (set_phase Returned (set_audio (Some (mkAudio true true)) new))).
  { subst w2. cbn -[w1]. rewrite list_lookup_alter_eq, Hc1. reflexivity. }
  unfold Hook.on_audio_error. rewrite Hc2. cbn [c_audio set_phase set_audio].
  subst w2 w1. cbn. rewrite Hlog, <- !app_assoc. reflexivity.
Qed.

(** In the other hook the handlers of the audio element and of the
    utterance call [onEnd] each on their own: an audio that cannot be played
    reports an error and has its [play()] rejected, and the completion is
    reached twice. *)
Lemma Hook_completion_twice :
  completions 0
    (Hook.run [SpeakResponse 0 Body; AudioError 0; PlayRejected 0; UtteranceEnd 0]
       (Hook.speak (TGreeting en_IN) NoCallback no_scheme)) = 2.
Proof. reflexivity. Qed.

End HookSpeech.

Section WidgetSpeech.

Import Widget.

(** The widget's hook at an empty body: the local voice is started. *)
Lemma Widget_empty_body w text k :
  text_falsy text = false ->
  speechSynthesis w = true ->
  log (run [SpeakResponse (length (calls w)) EmptyBody] (speak text k Return w))
  = log w ++ [ESpeakRequest (length (calls w)) text (languageRef w);
              EUtter (length (calls w)) text (languageRef w)].
Proof.
  intros Ht Hs. unfold speak. rewrite Ht.
  destruct (begin_speak_summary text k Return w) as (Hse & _ & _ & Hlog & Hc & _).
  set (w1 := begin_speak text k Return w) in *.
  assert (Hs1 : speechSynthesis w1 = true)
    by (rewrite <- Hs; exact (f_equal (fun s => snd (fst (fst (fst s)))) Hse)).
  cbn [run foldl].
  change EmptyBody with (failure_result FailEmpty).
  rewrite (failed_response _ _ FailEmpty _ Hc eq_refl).
  cbn [c_after run_after c_text c_lang]. unfold fallbackSpeak, synth_cancel.
  cbn [speechSynthesis update_call set_calls]. rewrite Hs1.
  cbn [log emit update_call set_calls]. rewrite Hlog, <- app_assoc.
  reflexivity.
Qed.

End WidgetSpeech.

(** C6 at its failing input.  When the /speak response carries audio and
    [audio.play()] is rejected, the widget's hook reaches the completion of
    the call and [LISTENING] without handing the text to the synthesizer
    (no [EUtter] is sent); the other hook starts the local voice there.
    When the response has an empty body it is the other way round: the
    widget's hook starts the local voice, the other hook plays the empty
    body and completes on the error of the audio element. *)
Theorem blocked_playback_skips_local_voice (w : World) (text : Text) (k : OnEnd) :
  text_falsy text = false ->
  speechSynthesis w = true ->
  let call := length (calls w) in
  let blocked := [SpeakResponse call Body; PlayRejected call] in
  (exists W0,
      Widget.run blocked (Widget.speak text k Return w) = Widget.run_onEnd k W0
      /\ stateRef W0 = LISTENING
      /\ log W0 = log w ++ [ESpeakRequest call text (languageRef w);
                            EPlay call; ECompletion call])
  /\ log (Hook.run blocked (Hook.speak text k w))
     = log w ++ [ESpeakRequest call text (languageRef w); EPlay call;
                 EUtter call text (languageRef w)]
  /\ log (Widget.run [SpeakResponse call EmptyBody] (Widget.speak text k Return w))
     = log w ++ [ESpeakRequest call text (languageRef w);
                 EUtter call text (languageRef w)]
  /\ log (Hook.run [SpeakResponse call EmptyBody; AudioError call]
            (Hook.speak text k w))
     = log w ++ [ESpeakRequest call text (languageRef w); EPlay call;
                 ECompletion call].
Proof.
  intros Ht Hs. cbv zeta.
  split; [|split; [apply Hook_blocked_playback; assumption|
                   split; [apply Widget_empty_body; assumption|
                           apply Hook_empty_body; assumption]]].
  unfold Widget.speak. rewrite Ht.
  destruct (begin_speak_summary text k Return w) as (_ & _ & _ & Hlog & Hc & _).
  destruct (audio_settled _ _ (PlayRejected (length (calls w))) _ Hc eq_refl
              (or_intror eq_refl) (or_intror (or_intror eq_refl)))
    as (W0 & HW & _ & Hst & _ & Hlog0 & _).
  exists W0. split; [exact HW|]. split; [exact Hst|].
  rewrite Hlog0, Hlog. cbn [c_after after_effects].
  rewrite <- app_assoc. reflexivity.
Qed.

Lemma blocked_playback_skips_local_voice_witness :
  log (Widget.run [SpeakResponse 0 Body; PlayRejected 0]
         (Widget.speak (TQuestion (Some "address"%string) hi) NoCallback Return
            ujjwala_last))
  = [ESpeakRequest 0 (TQuestion (Some "address"%string) hi) hi_IN;
     EPlay 0; ECompletion 0]
  /\ log (Hook.run [SpeakResponse 0 Body; PlayRejected 0]
            (Hook.speak (TQuestion (Some "address"%string) hi) NoCallback
               ujjwala_last))
     = [ESpeakRequest 0 (TQuestion (Some "address"%string) hi) hi_IN;
        EPlay 0; EUtter 0 (TQuestion (Some "address"%string) hi) hi_IN].
Proof.
  pose proof (blocked_playback_skips_local_voice ujjwala_last
                (TQuestion (Some "address"%string) hi) NoCallback eq_refl eq_refl)
    as H.
  cbv zeta in H. destruct H as ((W0 & HW & _ & Hlog) & Hhook & _).
  cbn [Widget.run_onEnd] in HW. rewrite <- HW in Hlog.
  vm_compute in Hlog, Hhook. vm_compute.
  split; [exact Hlog | exact Hhook].
Defined.

Section Cancel.

Import Widget.

Lemma cancel_utter_audio c : c_audio (cancel_utter c) = c_audio c.
Proof. unfold cancel_utter. destruct (c_utter c) as [[]|]; reflexivity. Qed.

Lemma pause_detach_utter c : c_utter (pause_detach c) = c_utter c.
Proof. unfold pause_detach. destruct (c_audio c); reflexivity. Qed.

(** The calls after the synchronous part of [speak]. *)
Lemma calls_begin_speak t k a w :
  calls (begin_speak t k a w)
  = calls (synth_cancel (stop_audio w))
      ++ [mkCall t (languageRef (synth_cancel (stop_audio w))) k a
            AwaitFetch None None].
Proof. reflexivity. Qed.

Lemma lookup_synth_cancel w i :
  calls (synth_cancel w) !! i
  = (if speechSynthesis w then cancel_utter else id) <$> calls w !! i.
Proof.
  unfold synth_cancel. destruct (speechSynthesis w); cbn.
  - apply list_lookup_fmap.
  - destruct (calls w !! i); reflexivity.
Qed.

Lemma speak_stops_current w i c au t k a :
  text_falsy t = false ->
  currentAudio w = Some i -> calls w !! i = Some c -> c_audio c = Some au ->
  (exists c', calls (speak t k a w) !! i = Some c'
              /\ c_audio c' = Some (mkAudio false false))
  /\ currentAudio (speak t k a w) = None
  /\ on_audio_ended i (speak t k a w) = speak t k a w.
Proof.
  intros Ht Hcur Hc Hau. unfold speak. rewrite Ht.
  assert (Hi : i < length (calls (synth_cancel (stop_audio w)))).
  { rewrite length_synth_cancel, length_stop_audio.
    apply lookup_lt_Some in Hc. exact Hc. }
  assert (Hl : exists c', calls (begin_speak t k a w) !! i = Some c'
                          /\ c_audio c' = Some (mkAudio false false)).
  { rewrite calls_begin_speak, lookup_app_l by exact Hi.
    rewrite lookup_synth_cancel. unfold stop_audio. rewrite Hcur. cbn.
    rewrite list_lookup_alter_eq, Hc. cbn.
    eexists. split; [reflexivity|].
    unfold pause_detach. rewrite Hau.
    destruct (speechSynthesis w); [rewrite cancel_utter_audio|]; reflexivity. }
  split; [exact Hl|]. split.
  - unfold begin_speak, synth_cancel, stop_audio. rewrite Hcur. cbn.
    destruct (speechSynthesis w); reflexivity.
  - destruct Hl as (c' & Hc' & Hau'). unfold on_audio_ended.
    rewrite Hc', Hau'. reflexivity.
Qed.

Lemma speak_cancels_queue w i c t k a :
  text_falsy t = false -> speechSynthesis w = true ->
  calls w !! i = Some c -> c_utter c = Some Queued ->
  exists c', calls (speak t k a w) !! i = Some c'
             /\ c_utter c' = Some Cancelled.
Proof.
  intros Ht Hs Hc Hu. unfold speak. rewrite Ht.
  assert (Hi : i < length (calls (synth_cancel (stop_audio w)))).
  { rewrite length_synth_cancel, length_stop_audio.
    apply lookup_lt_Some in Hc. exact Hc. }
  rewrite calls_begin_speak, lookup_app_l by exact Hi.
  rewrite lookup_synth_cancel.
  replace (speechSynthesis (stop_audio w)) with true
    by (unfold stop_audio; destruct (currentAudio w); cbn; rewrite Hs; reflexivity).
  unfold stop_audio. destruct (currentAudio w) as [j|] eqn:Hcur; cbn.
  - destruct (decide (j = i)) as [->|Hne].
    + rewrite list_lookup_alter_eq, Hc. cbn. eexists. split; [reflexivity|].
      unfold cancel_utter. rewrite pause_detach_utter, Hu. reflexivity.
    + rewrite list_lookup_alter_ne, Hc by exact Hne. cbn.
      eexists. split; [reflexivity|].
      unfold cancel_utter. rewrite Hu. reflexivity.
  - rewrite Hc. cbn. eexists. split; [reflexivity|].
    unfold cancel_utter. rewrite Hu. reflexivity.
Qed.

End Cancel.

(** C5 (as amended).  A call of [speak] with a truthy text pauses the
    audio that is [window.currentAudio] and detaches its [onended] handler,
    so the [ended] event of that audio no longer reaches the hook, and it
    cancels the utterances in the queue of the synthesizer.  In every run of
    the hook the completion of each call is reached at most once. *)
Theorem speak_cancels_and_completes_once :
  (forall w i c au t k a,
      text_falsy t = false ->
      currentAudio w = Some i -> calls w !! i = Some c -> c_audio c = Some au ->
      (exists c', calls (Widget.speak t k a w) !! i = Some c'
                  /\ c_audio c' = Some (mkAudio false false))
      /\ currentAudio (Widget.speak t k a w) = None
      /\ Widget.on_audio_ended i (Widget.speak t k a w) = Widget.speak t k a w)
  /\ (forall w i c t k a,
         text_falsy t = false -> speechSynthesis w = true ->
         calls w !! i = Some c -> c_utter c = Some Queued ->
         exists c', calls (Widget.speak t k a w) !! i = Some c'
                    /\ c_utter c' = Some Cancelled)
  /\ (forall p synth es call,
         completions call (Widget.run es (Widget.initial p synth)) <= 1).
Proof.
  split; [exact speak_stops_current|]. split; [exact speak_cancels_queue|].
  intros p synth es call. apply Inv_at_most_once, Inv_run, Inv_initial.
Qed.

(** C5, as stated, fails: a second call of [speak] made while the first
    still awaits its /speak response cancels nothing, and when both
    responses have arrived both audio elements are playing. *)
Lemma overlapping_utterances :
  map c_text (active two_speaks) = [TGreeting en_IN; TRetry en]
  /\ map c_audio (calls two_speaks)
     = [Some (mkAudio true true); Some (mkAudio true true)]
  /\ length (active two_speaks) = 2.
Proof. repeat split; reflexivity. Qed.

Lemma speak_cancels_and_completes_once_witness :
  currentAudio first_playing = Some 0
  /\ currentAudio (Widget.speak (TRetry en) NoCallback Return first_playing) = None
  /\ (exists c', calls (Widget.speak (TRetry en) NoCallback Return first_playing) !! 0
                 = Some c'
                 /\ c_audio c' = Some (mkAudio false false))
  /\ (exists c', calls (Widget.speak (TRetry en) NoCallback Return first_local) !! 0
                 = Some c'
                 /\ c_utter c' = Some Cancelled).
Proof.
  destruct speak_cancels_and_completes_once as (Hstop & Hcancel & _).
  destruct (Hstop first_playing 0
              (mkCall (TGreeting en_IN) hi_IN NoCallback Return AwaitAudio
                 (Some (mkAudio true true)) None)
              (mkAudio true true) (TRetry en) NoCallback Return
              eq_refl eq_refl eq_refl eq_refl) as (Hc & Hcur & _).
  split; [reflexivity|]. split; [exact Hcur|]. split; [exact Hc|].
  apply (Hcancel first_local 0
           (mkCall (TGreeting en_IN) hi_IN NoCallback Return Returned
              None (Some Queued))); reflexivity.
Defined.

(* ===================================================================== *)
(** ** Scenario D: a form answered field by field *)
(* ===================================================================== *)

Section ScenarioD.

Import Widget.

Variable o : nat -> Outcome.

Lemma saves_snoc lg e : saves (lg ++ [e]) = saves lg + (if is_save e then 1 else 0).
Proof.
  unfold saves. rewrite List.filter_app, length_app. cbn.
  destruct (is_save e); reflexivity.
Qed.

Lemma downloads_snoc lg e :
  downloads (lg ++ [e]) = downloads lg + (if is_download e then 1 else 0).
Proof.
  unfold downloads. rewrite List.filter_app, length_app. cbn.
  destruct (is_download e); reflexivity.
Qed.

Lemma saves_app l1 l2 : saves (l1 ++ l2) = saves l1 + saves l2.
Proof. unfold saves. rewrite List.filter_app, length_app. reflexivity. Qed.

Lemma downloads_app l1 l2 : downloads (l1 ++ l2) = downloads l1 + downloads l2.
Proof. unfold downloads. rewrite List.filter_app, length_app. reflexivity. Qed.

Lemma saves_speech_effects w call c :
  forall oc, saves (speech_effects w call c oc) = saves (after_effects (c_after c) w).
Proof.
  intros oc. unfold speech_effects.
  destruct (is_remote oc); [|destruct (speechSynthesis w)];
    rewrite ?saves_app; cbn; lia.
Qed.

Lemma downloads_speech_effects w call c :
  forall oc, downloads (speech_effects w call c oc)
             = downloads (after_effects (c_after c) w).
Proof.
  intros oc. unfold speech_effects.
  destruct (is_remote oc); [|destruct (speechSynthesis w)];
    rewrite ?downloads_app; cbn; lia.
Qed.

Lemma possible_synth w w' oc :
  speechSynthesis w' = speechSynthesis w -> possible w' oc = possible w oc.
Proof. intros H. destruct oc; cbn; rewrite ?H; reflexivity. Qed.

Lemma answer_intro t w v :
  t <> [] -> is_triage (stateRef w) = false ->
  usable (extractValue t (getFieldOrder w !! currentStepRef w)) = Some v ->
  answer t w = Some v.
Proof.
  intros Ht Htr Hv. unfold answer.
  destruct t; [contradiction|]. cbn [falsy orb]. rewrite Htr. exact Hv.
Qed.

(** An answer that is not the last: the value is stored, the step index
    moves on, the acknowledgment and the next question are spoken. *)
Lemma turn_next t w v :
  answer t w = Some v ->
  currentStepRef w + 1 < length (getFieldOrder w) ->
  (forall i, possible w (o i) = true) ->
  let call := length (calls w) in
  let W := run (Transcript t :: play_out call (o call)
                  ++ play_out (S call) (o (S call))) w in
  session W = (props w, speechSynthesis w, currentStepRef w + 1, languageRef w,
               <[key_of (getFieldOrder w !! currentStepRef w) := v]>
                 (collectedDataRef w))
  /\ stateRef W = LISTENING
  /\ length (calls W) = S (S call)
  /\ saves (log W) = saves (log w)
  /\ downloads (log W) = downloads (log w).
Proof.
  intros Ha Hlt Hpo. cbv zeta.
  change (Transcript t :: play_out (length (calls w)) (o (length (calls w)))
            ++ play_out (S (length (calls w))) (o (S (length (calls w)))))
    with ([Transcript t] ++ play_out (length (calls w)) (o (length (calls w)))
            ++ play_out (S (length (calls w))) (o (S (length (calls w))))).
  unfold run. rewrite !foldl_app. fold (run [Transcript t] w).
  cbn [run foldl handle]. rewrite (processResponse_next _ _ _ Ha Hlt).
  set (wq := set_step _ _).
  assert (Hsq : session wq
                = (props w, speechSynthesis w, currentStepRef w + 1, languageRef w,
                   <[key_of (getFieldOrder w !! currentStepRef w) := v]>
                     (collectedDataRef w))).
  { subst wq. cbn. destruct (onFieldUpdate (props w)); reflexivity. }
  assert (Hcq : calls wq = calls w).
  { subst wq. cbn. destruct (onFieldUpdate (props w)); reflexivity. }
  assert (Hlq : saves (log wq) = saves (log w)
                /\ downloads (log wq) = downloads (log w)).
  { subst wq. destruct (onFieldUpdate (props w)); cbn -[saves downloads];
      rewrite ?saves_snoc, ?downloads_snoc; cbn [is_save is_download]; lia. }
  destruct (begin_speak_summary
              (TGotIt (phrase_code (languageRef w)) v)
              (AskNext (currentStepRef w + 1)) Return wq)
    as (Hs1 & _ & Hlen1 & Hlog1 & Hc1 & _).
  set (w1 := begin_speak _ _ _ wq) in *.
  rewrite Hcq in *.
  assert (Hp1w : props w1 = props w)
    by exact (f_equal (fun s => fst (fst (fst (fst s)))) (eq_trans Hs1 Hsq)).
  assert (Hsy1w : speechSynthesis w1 = speechSynthesis w)
    by exact (f_equal (fun s => snd (fst (fst (fst s)))) (eq_trans Hs1 Hsq)).
  assert (Hf1 : getFieldOrder w1 = getFieldOrder w)
    by (unfold getFieldOrder; rewrite Hp1w; reflexivity).
  assert (Hp1 : forall i, possible w1 (o i) = true).
  { intros i. rewrite (possible_synth _ _ _ Hsy1w). apply Hpo. }
  destruct (play_out_then_ask (length (calls w)) _ (o (length (calls w)))
              (currentStepRef w + 1) w1 (Hp1 _) Hc1 eq_refl eq_refl eq_refl)
    as (Hs2 & _ & Hlen2 & Hlog2 & Hc2 & _).
  { rewrite Hf1. exact Hlt. }
  fold (run (play_out (length (calls w)) (o (length (calls w)))) w1) in *.
  set (w2 := run (play_out (length (calls w)) (o (length (calls w)))) w1) in *.
  rewrite Hlen1 in *.
  assert (Hp2 : possible w2 (o (S (length (calls w)))) = true).
  { rewrite (possible_session _ _ _ Hs2). apply Hp1. }
  destruct (play_out_summary (S (length (calls w))) _
              (o (S (length (calls w)))) w2 Hp2 Hc2 eq_refl (or_introl eq_refl))
    as (W0 & HW & Hs3 & Hst3 & Hlen3 & Hlog3 & _).
  fold (run (play_out (S (length (calls w))) (o (S (length (calls w))))) w2).
  rewrite HW. cbn [c_onEnd run_onEnd].
  split; [rewrite Hs3, Hs2, Hs1; exact Hsq|].
  split; [exact Hst3|].
  split; [rewrite Hlen3, Hlen2; reflexivity|].
  rewrite Hlog3, Hlog2, Hlog1.
  rewrite !saves_app, !downloads_app, !saves_speech_effects,
    !downloads_speech_effects.
  destruct Hlq as [Hq1 Hq2]. rewrite Hq1, Hq2.
  cbn [c_after after_effects]. unfold saves, downloads.
  cbn [List.filter is_save is_download length]. lia.
Qed.

(** The last answer: the value is stored, the closing message is spoken,
    one save request is sent and the download is scheduled; the state is
    [COMPLETED] only until [speak] sets [SPEAKING]. *)
Lemma turn_last t w v :
  answer t w = Some v ->
  length (getFieldOrder w) <= currentStepRef w + 1 ->
  (forall i, possible w (o i) = true) ->
  let call := length (calls w) in
  let W := run (Transcript t :: play_out call (o call)) w in
  session W = (props w, speechSynthesis w, currentStepRef w, languageRef w,
               <[key_of (getFieldOrder w !! currentStepRef w) := v]>
                 (collectedDataRef w))
  /\ stateRef (processResponse t w) = SPEAKING
  /\ stateRef W = LISTENING
  /\ saves (log W) = saves (log w) + 1
  /\ downloads (log W)
     = downloads (log w) + (if onDownload (props w) then 1 else 0).
Proof.
  intros Ha Hge Hpo. cbv zeta.
  change (Transcript t :: play_out (length (calls w)) (o (length (calls w))))
    with ([Transcript t] ++ play_out (length (calls w)) (o (length (calls w)))).
  unfold run. rewrite !foldl_app. fold (run [Transcript t] w).
  cbn [run foldl handle]. rewrite (processResponse_last _ _ _ Ha Hge).
  set (d := <[key_of (getFieldOrder w !! currentStepRef w) := v]>
              (collectedDataRef w)).
  set (wq := set_state COMPLETED _).
  assert (Hsq : session wq
                = (props w, speechSynthesis w, currentStepRef w, languageRef w, d)).
  { subst wq. cbn. destruct (onFieldUpdate (props w)); reflexivity. }
  assert (Hcq : calls wq = calls w).
  { subst wq. cbn. destruct (onFieldUpdate (props w)); reflexivity. }
  assert (Hlq : saves (log wq) = saves (log w)
                /\ downloads (log wq) = downloads (log w)).
  { subst wq. destruct (onFieldUpdate (props w)); cbn -[saves downloads];
      rewrite ?saves_snoc, ?downloads_snoc; cbn [is_save is_download]; lia. }
  destruct (begin_speak_summary (TDone (phrase_code (languageRef w)))
              NoCallback (SaveAndDownload d) wq)
    as (Hs1 & Hst1 & Hlen1 & Hlog1 & Hc1 & _).
  set (w1 := begin_speak _ _ _ wq) in *.
  rewrite Hcq in *.
  assert (Hp1w : props w1 = props w)
    by exact (f_equal (fun s => fst (fst (fst (fst s)))) (eq_trans Hs1 Hsq)).
  assert (Hsy1w : speechSynthesis w1 = speechSynthesis w)
    by exact (f_equal (fun s => snd (fst (fst (fst s)))) (eq_trans Hs1 Hsq)).
  assert (Hp1 : possible w1 (o (length (calls w))) = true).
  { rewrite (possible_synth _ _ _ Hsy1w). apply Hpo. }
  destruct (play_out_summary (length (calls w)) _ (o (length (calls w))) w1
              Hp1 Hc1 eq_refl (or_introl eq_refl))
    as (W0 & HW & Hs3 & Hst3 & _ & Hlog3 & _).
  fold (run (play_out (length (calls w)) (o (length (calls w)))) w1).
  rewrite HW. cbn [c_onEnd run_onEnd].
  split; [rewrite Hs3, Hs1; exact Hsq|].
  split; [exact Hst1|]. split; [exact Hst3|].
  rewrite Hlog3, Hlog1.
  rewrite !saves_app, !downloads_app, !saves_speech_effects,
    !downloads_speech_effects.
  cbn [c_after after_effects].
  rewrite Hp1w.
  destruct Hlq as [Hq1 Hq2]. rewrite Hq1, Hq2.
  unfold saves, downloads.
  destruct (onDownload (props w));
    cbn [List.filter is_save is_download length app]; lia.
Qed.

Lemma scenario_from ts :
  forall vs w,
    is_triage (stateRef w) = false ->
    ts <> [] -> length vs = length ts ->
    currentStepRef w + length ts = length (getFieldOrder w) ->
    (forall i, possible w (o i) = true) ->
    (forall i t v,
        ts !! i = Some t -> vs !! i = Some v ->
        t <> [] /\ usable (extractValue t
                             (getFieldOrder w !! (currentStepRef w + i))) = Some v) ->
    let W := run (scenario_D o (length (calls w)) ts) w in
    stateRef W = LISTENING
    /\ props W = props w
    /\ currentStepRef W + 1 = length (getFieldOrder w)
    /\ collectedDataRef W
       = collect (collectedDataRef w)
           (zip (drop (currentStepRef w) (getFieldOrder w)) vs)
    /\ saves (log W) = saves (log w) + 1
    /\ downloads (log W)
       = downloads (log w) + (if onDownload (props w) then 1 else 0).
Proof.
  induction ts as [|t ts IH]; intros vs w Htr Hne Hlen Hstep Hpo Hans;
    [contradiction|].
  destruct vs as [|v vs]; [discriminate|].
  destruct (Hans 0 t v eq_refl eq_refl) as [Ht Hv].
  rewrite Nat.add_0_r in Hv.
  pose proof (answer_intro _ _ _ Ht Htr Hv) as Ha.
  assert (Hf : exists f, getFieldOrder w !! currentStepRef w = Some f).
  { apply lookup_lt_is_Some. cbn in Hstep. lia. }
  destruct Hf as [f Hf].
  rewrite (drop_S _ _ _ Hf). cbn [zip zip_with collect foldl fst snd].
  fold (collect (<[f:=v]> (collectedDataRef w))
          (zip (drop (S (currentStepRef w)) (getFieldOrder w)) vs)).
  destruct ts as [|t2 ts].
  - cbn [scenario_D]. cbn [length] in Hstep.
    destruct (turn_last t w v Ha ltac:(lia) Hpo) as (Hs & _ & Hst & Hsav & Hdl).
    cbv zeta in Hs, Hst, Hsav, Hdl |- *.
    set (W := run (Transcript t :: play_out (length (calls w))
                                    (o (length (calls w)))) w) in *.
    destruct vs; [|discriminate].
    pose proof (f_equal (fun s => fst (fst (fst (fst s)))) Hs) as Hp.
    pose proof (f_equal (fun s => snd (fst (fst s))) Hs) as Hstp.
    pose proof (f_equal snd Hs) as Hcol.
    cbn [session fst snd] in Hp, Hstp, Hcol. rewrite Hf in Hcol.
    rewrite Hst, Hp, Hstp, Hcol, Hsav, Hdl.
    assert (Hz : zip (drop (S (currentStepRef w)) (getFieldOrder w))
                   ([] : list jsstring) = [])
      by (destruct (drop _ _); reflexivity).
    rewrite Hz. repeat split; try reflexivity. lia.
  - change (scenario_D o (length (calls w)) (t :: t2 :: ts))
      with ((Transcript t :: play_out (length (calls w)) (o (length (calls w)))
               ++ play_out (S (length (calls w))) (o (S (length (calls w)))))
              ++ scenario_D o (S (S (length (calls w)))) (t2 :: ts)).
    cbn [length] in Hstep.
    destruct (turn_next t w v Ha ltac:(lia) Hpo) as (Hs & Hst & Hcl & Hsav & Hdl).
    cbv zeta in Hs, Hst, Hcl, Hsav, Hdl |- *.
    rewrite run_app.
    set (w1 := run (Transcript t :: play_out (length (calls w)) (o (length (calls w)))
                 ++ play_out (S (length (calls w))) (o (S (length (calls w))))) w)
      in *.
    pose proof (f_equal (fun s => fst (fst (fst (fst s)))) Hs) as Hp.
    pose proof (f_equal (fun s => snd (fst (fst (fst s)))) Hs) as Hsy.
    pose proof (f_equal (fun s => snd (fst (fst s))) Hs) as Hstp.
    pose proof (f_equal snd Hs) as Hcol.
    cbn [session fst snd] in Hp, Hsy, Hstp, Hcol. rewrite Hf in Hcol.
    assert (Hf1 : getFieldOrder w1 = getFieldOrder w)
      by (unfold getFieldOrder; rewrite Hp; reflexivity).
    rewrite <- Hcl.
    destruct (IH vs w1) as (Hst' & Hp' & Hstp' & Hcol' & Hsav' & Hdl').
    + rewrite Hst. reflexivity.
    + discriminate.
    + cbn [length] in Hlen |- *. lia.
    + rewrite Hf1, Hstp. cbn [length]. lia.
    + intros i. rewrite (possible_synth _ _ _ Hsy). apply Hpo.
    + intros i t' v' Hti Hvi. rewrite Hf1, Hstp.
      replace (currentStepRef w + 1 + i) with (currentStepRef w + S i) by lia.
      apply (Hans (S i)); assumption.
    + cbv zeta in Hst', Hp', Hstp', Hcol', Hsav', Hdl'.
      rewrite Hf1 in Hstp', Hcol'. rewrite Hstp, Hcol in Hcol'.
      rewrite Hp in Hp', Hdl'.
      rewrite Hst', Hp', Hcol', Hsav', Hdl', Hsav, Hdl.
      replace (currentStepRef w + 1) with (S (currentStepRef w)) by lia.
      repeat split; try reflexivity. exact Hstp'.
Qed.

Lemma collect_lookup_notin l :
  forall (d : gmap string jsstring) k, k ∉ l.*1 -> collect d l !! k = d !! k.
Proof.
  induction l as [|[k0 v0] l IH]; intros d k Hk; [reflexivity|].
  cbn [collect foldl fst snd]. fold (collect (<[k0:=v0]> d) l).
  cbn in Hk. apply not_elem_of_cons in Hk as [Hne Hk].
  rewrite IH by exact Hk. apply lookup_insert_ne. congruence.
Qed.

Lemma collect_lookup l :
  forall (d : gmap string jsstring) i k v,
    NoDup l.*1 -> l !! i = Some (k, v) -> collect d l !! k = Some v.
Proof.
  induction l as [|[k0 v0] l IH]; intros d i k v Hnd Hi; [discriminate|].
  cbn [collect foldl fst snd]. fold (collect (<[k0:=v0]> d) l).
  cbn in Hnd. apply NoDup_cons in Hnd as [Hk0 Hnd].
  destruct i as [|i].
  - injection Hi as -> ->. rewrite collect_lookup_notin by exact Hk0.
    apply lookup_insert_eq.
  - apply (IH _ i); assumption.
Qed.

Lemma collect_dom l :
  forall d : gmap string jsstring, dom (collect d l) = dom d ∪ list_to_set l.*1.
Proof.
  induction l as [|[k0 v0] l IH]; intros d.
  - cbn. symmetry. apply (right_id_L ∅ (∪)).
  - cbn [collect foldl fst snd]. fold (collect (<[k0:=v0]> d) l).
    rewrite IH, dom_insert_L. cbn [fmap list_fmap fst list_to_set].
    rewrite (comm_L (∪) {[k0]} (dom d)), <- (assoc_L (∪)). reflexivity.
Qed.

End ScenarioD.

(** Every configured field order is non-empty and names each field once. *)
Lemma scheme_orders_distinct :
  Forall (fun order => NoDup order.2 /\ order.2 <> []) SCHEME_FIELD_ORDER.
Proof.
  repeat constructor; try discriminate;
    apply (bool_decide_unpack _); vm_compute; exact I.
Qed.

(** C2 at its failing input.  A form whose fields are answered one after
    the other, each transcript yielding a value: the collected data have
    one entry per field, under the key of the field and with the value
    extracted for it, one /save-form request is sent and the download is
    scheduled once (when the parent passes [onDownload]).  The state at the
    end is [LISTENING]: [COMPLETED] is set and overwritten by the [speak]
    of the closing message. *)
Theorem scenario_D_ends_listening
    (w : World) (o : nat -> Outcome) (ts vs : list jsstring) :
  let fields := Widget.getFieldOrder w in
  Widget.is_triage (stateRef w) = false ->
  currentStepRef w = 0 ->
  collectedDataRef w = ∅ ->
  NoDup fields ->
  ts <> [] ->
  length ts = length fields ->
  length vs = length fields ->
  (forall i, possible w (o i) = true) ->
  (forall i t v,
      ts !! i = Some t -> vs !! i = Some v ->
      t <> [] /\ Widget.usable (Widget.extractValue t (fields !! i)) = Some v) ->
  let W := Widget.run (scenario_D o (length (calls w)) ts) w in
  stateRef W = LISTENING
  /\ stateRef W <> COMPLETED
  /\ dom (collectedDataRef W) = list_to_set fields
  /\ size (collectedDataRef W) = length fields
  /\ (forall i f v, fields !! i = Some f -> vs !! i = Some v ->
                    collectedDataRef W !! f = Some v)
  /\ saves (log W) = saves (log w) + 1
  /\ downloads (log W)
     = downloads (log w) + (if onDownload (props w) then 1 else 0).
Proof.
  intros fields Htr Hstep Hcol Hnd Hne Hlt Hlv Hpo Hans W.
  destruct (scenario_from o ts vs w Htr Hne) as (Hst & _ & _ & HcolW & Hsav & Hdl).
  - lia.
  - rewrite Hstep. exact Hlt.
  - exact Hpo.
  - rewrite Hstep. exact Hans.
  - cbv zeta in Hst, HcolW, Hsav, Hdl. fold W in Hst, HcolW, Hsav, Hdl.
    rewrite Hstep, Hcol in HcolW. rewrite drop_0 in HcolW. fold fields in HcolW.
    assert (Hfst : (zip fields vs).*1 = fields) by (apply fst_zip; lia).
    split; [exact Hst|]. split; [rewrite Hst; discriminate|].
    assert (Hdom : dom (collectedDataRef W) = list_to_set fields).
    { rewrite HcolW, collect_dom, Hfst, dom_empty_L. apply (left_id_L ∅ (∪)). }
    split; [exact Hdom|].
    split; [rewrite <- size_dom, Hdom; apply size_list_to_set, Hnd|].
    split; [|split; [exact Hsav | exact Hdl]].
    intros i f v Hf Hv. rewrite HcolW. apply (collect_lookup _ _ i).
    + rewrite Hfst. exact Hnd.
    + apply lookup_zip_Some. split; assumption.
Qed.

Lemma scenario_D_ends_listening_witness :
  let W := Widget.run (scenario_D (fun _ => Played) 0 ujjwala_answers)
             ujjwala_first in
  stateRef W = LISTENING
  /\ size (collectedDataRef W) = 8
  /\ collectedDataRef W !! "name"%string = Some (js "Sita Devi")
  /\ saves (log W) = 1
  /\ downloads (log W) = 1.
Proof.
  pose proof (scenario_D_ends_listening ujjwala_first (fun _ => Played)
                ujjwala_answers ujjwala_values) as H.
  cbv zeta in H.
  destruct H as (Hst & _ & _ & Hsize & Hlk & Hsav & Hdl).
  - reflexivity.
  - reflexivity.
  - reflexivity.
  - apply (bool_decide_unpack _). vm_compute. exact I.
  - discriminate.
  - reflexivity.
  - reflexivity.
  - intros i. reflexivity.
  - intros i t v Ht Hv.
    do 8 (destruct i as [|i];
          [cbn in Ht, Hv; injection Ht as <-; injection Hv as <-;
           split; [discriminate | vm_compute; reflexivity]|]).
    cbn in Ht. discriminate.
  - specialize (Hlk 0 "name"%string (js "Sita Devi") eq_refl eq_refl).
    vm_compute in Hst, Hsize, Hlk, Hsav, Hdl. vm_compute.
    repeat split; assumption.
Defined.

(* ===================================================================== *)
(** ** Speech output as a relation between states *)
(* ===================================================================== *)

Section SpeaksFrame.

Import Widget.

Lemma Speaks_refl w : Speaks w w.
Proof.
  exists [], []. rewrite !app_nil_r.
  split; [left; reflexivity|]. repeat split; reflexivity.
Qed.

Lemma Speaks_trans w1 w2 w3 : Speaks w1 w2 -> Speaks w2 w3 -> Speaks w1 w3.
Proof.
  intros (l1 & t1 & Hs1 & Hl1 & Hq1 & Hh1 & Hc1 & Hp1 & Hse1)
         (l2 & t2 & Hs2 & Hl2 & Hq2 & Hh2 & Hc2 & Hp2 & Hse2).
  exists (l1 ++ l2), (t1 ++ t2). split.
  - destruct Hs2 as [Hs2|Hs2]; [rewrite Hs2; exact Hs1 | right; exact Hs2].
  - rewrite Hl2, Hl1, Hh2, Hh1, Hc2, Hc1, Hse2, Hse1, map_app, !forallb_app,
      Hq1, Hq2, Hp1, Hp2, <- !app_assoc.
    repeat split; reflexivity.
Qed.

Lemma Speaks_silent w w' :
  stateRef w' = stateRef w -> log w' = log w ->
  conversationHistory w' = conversationHistory w ->
  map c_text (calls w') = map c_text (calls w) ->
  session w' = session w ->
  Speaks w w'.
Proof.
  intros Hs Hl Hh Hc Hse. exists [], []. rewrite !app_nil_r.
  split; [left; exact Hs|]. repeat split; assumption || reflexivity.
Qed.

Lemma Speaks_emit e w : quiet e = true -> Speaks w (emit e w).
Proof.
  intros Hq. exists [e], []. rewrite !app_nil_r.
  split; [left; reflexivity|]. cbn [forallb]. rewrite Hq.
  repeat split; reflexivity.
Qed.

Lemma Speaks_state s w : observable s = true -> Speaks w (set_state s w).
Proof.
  intros Ho. exists [], []. rewrite !app_nil_r.
  split; [right; exact Ho|]. repeat split; reflexivity.
Qed.

Lemma text_alter (f : Call -> Call) i (cs : list Call) :
  (forall c, c_text (f c) = c_text c) ->
  map c_text (alter f i cs) = map c_text cs.
Proof.
  intros Hf. revert i. induction cs as [|c cs IH]; intros [|i];
    try reflexivity; cbn.
  - rewrite Hf. reflexivity.
  - f_equal. apply IH.
Qed.

Lemma text_fmap (f : Call -> Call) (cs : list Call) :
  (forall c, c_text (f c) = c_text c) ->
  map c_text (f <$> cs) = map c_text cs.
Proof.
  intros Hf. induction cs as [|c cs IH]; [reflexivity|].
  cbn. rewrite Hf. f_equal. exact IH.
Qed.

Lemma Speaks_update_call i f w :
  (forall c, c_text (f c) = c_text c) -> Speaks w (update_call i f w).
Proof.
  intros Hf. apply Speaks_silent; try reflexivity.
  cbn. apply text_alter, Hf.
Qed.

Lemma text_pause_detach c : c_text (pause_detach c) = c_text c.
Proof. unfold pause_detach. destruct (c_audio c); reflexivity. Qed.

Lemma text_cancel_utter c : c_text (cancel_utter c) = c_text c.
Proof. unfold cancel_utter. destruct (c_utter c) as [[]|]; reflexivity. Qed.

Lemma Speaks_stop_audio w : Speaks w (stop_audio w).
Proof.
  unfold stop_audio. destruct (currentAudio w) as [a|]; [|apply Speaks_refl].
  apply Speaks_silent; try reflexivity.
  cbn. apply text_alter, text_pause_detach.
Qed.

Lemma Speaks_synth_cancel w : Speaks w (synth_cancel w).
Proof.
  unfold synth_cancel. destruct (speechSynthesis w); [|apply Speaks_refl].
  apply Speaks_silent; try reflexivity.
  cbn. apply text_fmap, text_cancel_utter.
Qed.

(** One call of [speak] is one entry of the history. *)
Lemma Speaks_say t c w :
  c_text c = t -> proper t = true ->
  Speaks w (set_calls (calls w ++ [c]) (addHistory (AiSaid t) w)).
Proof.
  intros Hc Hp. exists [], [t]. rewrite !app_nil_r.
  split; [left; reflexivity|]. cbn [forallb]. rewrite Hp.
  repeat split; try reflexivity.
  cbn. rewrite map_app. cbn. rewrite Hc. reflexivity.
Qed.

Lemma Speaks_begin_speak t k a w :
  proper t = true -> Speaks w (begin_speak t k a w).
Proof.
  intros Hp. unfold begin_speak. cbv zeta.
  set (w0 := synth_cancel (stop_audio w)).
  eapply Speaks_trans; [|apply Speaks_emit; reflexivity].
  eapply Speaks_trans;
    [|apply (Speaks_say t (mkCall t (languageRef w0) k a AwaitFetch None None)
               (set_state SPEAKING w0)); [reflexivity | exact Hp]].
  eapply Speaks_trans; [|apply (Speaks_state SPEAKING); reflexivity].
  eapply Speaks_trans; [apply Speaks_stop_audio | apply Speaks_synth_cancel].
Qed.

Lemma Speaks_speak_plain t w : proper t = true -> Speaks w (speak_plain t w).
Proof.
  intros Hp. unfold speak_plain. destruct (text_falsy t);
    [apply Speaks_refl | apply Speaks_begin_speak, Hp].
Qed.

Lemma Speaks_askNextQuestion n w : Speaks w (askNextQuestion n w).
Proof.
  unfold askNextQuestion.
  destruct (Nat.leb_spec (length (getFieldOrder w)) n); [apply Speaks_refl|].
  apply Speaks_speak_plain.
  destruct (lookup_lt_is_Some_2 (getFieldOrder w) n) as [f Hf]; [lia|].
  rewrite Hf. reflexivity.
Qed.

Lemma Speaks_run_onEnd k w : Speaks w (run_onEnd k w).
Proof.
  destruct k; cbn [run_onEnd].
  - apply Speaks_refl.
  - apply Speaks_askNextQuestion.
  - destruct (onSchemeChange (props w));
      [apply Speaks_emit; reflexivity | apply Speaks_refl].
Qed.

Lemma Speaks_run_after a w : Speaks w (run_after a w).
Proof.
  destruct a; cbn [run_after]; [apply Speaks_refl|].
  cbn [props emit].
  destruct (onDownload (props w)).
  - eapply Speaks_trans; [|apply Speaks_emit; reflexivity].
    apply Speaks_emit. reflexivity.
  - apply Speaks_emit. reflexivity.
Qed.

Lemma Speaks_speak t k a w : proper t = true -> Speaks w (speak t k a w).
Proof.
  intros Hp. unfold speak. destruct (text_falsy t).
  - eapply Speaks_trans; [apply Speaks_run_onEnd | apply Speaks_run_after].
  - apply Speaks_begin_speak, Hp.
Qed.

Lemma text_set_phase p c : c_text (set_phase p c) = c_text c.
Proof. reflexivity. Qed.

Lemma Speaks_complete i c w : Speaks w (complete i c w).
Proof.
  unfold complete. cbv zeta.
  eapply Speaks_trans; [|apply Speaks_run_after].
  eapply Speaks_trans; [|apply Speaks_run_onEnd].
  eapply Speaks_trans; [|apply Speaks_emit; reflexivity].
  eapply Speaks_trans; [|apply (Speaks_state LISTENING); reflexivity].
  apply Speaks_update_call. reflexivity.
Qed.

Lemma Speaks_resolve i w : Speaks w (resolve i w).
Proof.
  unfold resolve. destruct (calls w !! i) as [c|]; [|apply Speaks_refl].
  destruct (c_phase c); try apply Speaks_refl. apply Speaks_complete.
Qed.

Lemma Speaks_fallbackSpeak i c w : Speaks w (fallbackSpeak i c w).
Proof.
  unfold fallbackSpeak. destruct (speechSynthesis w); cbv zeta.
  - eapply Speaks_trans; [|apply Speaks_emit; reflexivity].
    eapply Speaks_trans; [|apply Speaks_update_call; reflexivity].
    apply Speaks_synth_cancel.
  - eapply Speaks_trans; [|apply Speaks_run_onEnd].
    eapply Speaks_trans; [|apply Speaks_emit; reflexivity].
    apply (Speaks_state LISTENING). reflexivity.
Qed.

Lemma Speaks_on_speak_response i r w : Speaks w (on_speak_response i r w).
Proof.
  unfold on_speak_response. destruct (calls w !! i) as [c|]; [|apply Speaks_refl].
  destruct (c_phase c); try apply Speaks_refl.
  destruct r; cbv zeta.
  1-3: eapply Speaks_trans; [|apply Speaks_run_after];
       eapply Speaks_trans; [|apply Speaks_fallbackSpeak];
       apply Speaks_update_call; reflexivity.
  eapply Speaks_trans; [|apply Speaks_emit; reflexivity].
  eapply Speaks_trans; [|apply Speaks_silent; reflexivity].
  apply Speaks_update_call. reflexivity.
Qed.

Lemma Speaks_on_audio_ended i w : Speaks w (on_audio_ended i w).
Proof.
  unfold on_audio_ended. destruct (calls w !! i) as [c|]; [|apply Speaks_refl].
  destruct (c_audio c) as [a|]; [|apply Speaks_refl].
  destruct (playing a && onended a); [|apply Speaks_refl]. cbv zeta.
  eapply Speaks_trans; [|apply Speaks_resolve].
  eapply Speaks_trans; [|apply Speaks_silent; reflexivity].
  apply Speaks_update_call. reflexivity.
Qed.

Lemma Speaks_on_audio_failed i w : Speaks w (on_audio_failed i w).
Proof.
  unfold on_audio_failed. destruct (calls w !! i) as [c|]; [|apply Speaks_refl].
  destruct (c_audio c) as [a|]; [|apply Speaks_refl]. cbv zeta.
  eapply Speaks_trans; [|apply Speaks_resolve].
  eapply Speaks_trans; [|apply Speaks_silent; reflexivity].
  apply Speaks_update_call. reflexivity.
Qed.

Lemma Speaks_on_utterance_done i w : Speaks w (on_utterance_done i w).
Proof.
  unfold on_utterance_done. destruct (calls w !! i) as [c|]; [|apply Speaks_refl].
  assert (Hgo : Speaks w
                  (run_onEnd (c_onEnd c)
                     (emit (ECompletion i) (set_state LISTENING
                        (update_call i (set_utter (Some Delivered)) w))))).
  { eapply Speaks_trans; [|apply Speaks_run_onEnd].
    eapply Speaks_trans; [|apply Speaks_emit; reflexivity].
    eapply Speaks_trans; [|apply (Speaks_state LISTENING); reflexivity].
    apply Speaks_update_call. reflexivity. }
  destruct (c_utter c) as [[]|]; try apply Speaks_refl; exact Hgo.
Qed.

(** A change of one counter of the requests is no speech at all. *)
Lemma Speaks_set_recommends n w : Speaks w (set_recommends n w).
Proof. apply Speaks_silent; reflexivity. Qed.

Lemma Speaks_on_recommend_response r w : Speaks w (on_recommend_response r w).
Proof.
  unfold on_recommend_response. destruct (recommends w) as [|n];
    [apply Speaks_refl|].
  cbv zeta.
  destruct r as [|data];
    [eapply Speaks_trans; [apply (Speaks_set_recommends n)|];
     apply Speaks_speak; reflexivity|].
  destruct (success data);
    [eapply Speaks_trans; [apply (Speaks_set_recommends n)|];
     apply Speaks_speak; reflexivity|].
  destruct (falsy (message data));
    (eapply Speaks_trans; [apply (Speaks_set_recommends n)|]);
    apply Speaks_speak; reflexivity.
Qed.

(** Every message but a transcript, a restart and a render is speech
    output. *)
Lemma Speaks_handle e w :
  match e with
  | StartConversation _ | Transcript _ | Render _ => True
  | _ => Speaks w (handle e w)
  end.
Proof.
  destruct e; cbn [handle]; try exact I.
  - apply Speaks_on_speak_response.
  - apply Speaks_on_audio_ended.
  - apply Speaks_on_audio_failed.
  - apply Speaks_on_audio_failed.
  - apply Speaks_on_utterance_done.
  - apply Speaks_on_utterance_done.
  - apply Speaks_on_recommend_response.
Qed.

(** What [Speaks] gives for the counters of the log. *)
Lemma quiet_no_recommend l :
  forallb quiet l = true -> List.filter is_recommend l = [].
Proof.
  induction l as [|e l IH]; [reflexivity|]. cbn [forallb List.filter].
  intros H. apply andb_prop in H as [He Hl]. rewrite (IH Hl).
  destruct e; try reflexivity; discriminate.
Qed.

Lemma quiet_no_field_update l :
  forallb quiet l = true -> List.filter is_field_update l = [].
Proof.
  induction l as [|e l IH]; [reflexivity|]. cbn [forallb List.filter].
  intros H. apply andb_prop in H as [He Hl]. rewrite (IH Hl).
  destruct e; try reflexivity; discriminate.
Qed.

Lemma Speaks_recommend_requests w w' :
  Speaks w w' -> recommend_requests (log w') = recommend_requests (log w).
Proof.
  intros (l & ts & _ & Hl & Hq & _). unfold recommend_requests.
  rewrite Hl, List.filter_app, (quiet_no_recommend _ Hq), app_nil_r.
  reflexivity.
Qed.

Lemma Speaks_field_updates w w' :
  Speaks w w' ->
  List.filter is_field_update (log w') = List.filter is_field_update (log w).
Proof.
  intros (l & ts & _ & Hl & Hq & _).
  rewrite Hl, List.filter_app, (quiet_no_field_update _ Hq), app_nil_r.
  reflexivity.
Qed.

Lemma Speaks_state_kept w w' :
  Speaks w w' -> stateRef w' = stateRef w \/ observable (stateRef w') = true.
Proof. intros (l & ts & H & _). exact H. Qed.

Lemma Speaks_session w w' : Speaks w w' -> session w' = session w.
Proof. intros (l & ts & _ & _ & _ & _ & _ & _ & H). exact H. Qed.

(** The start of a conversation, as speech output from the state that
    [startConversation] resets. *)
Lemma startConversation_Speaks lang w :
  exists w0,
    Speaks w0 (startConversation lang w)
    /\ observable (stateRef (startConversation lang w)) = true
    /\ conversationHistory w0 = [] /\ log w0 = log w /\ calls w0 = calls w
    /\ session w0 = (props w, speechSynthesis w, 0, lang, ∅)
    /\ recommends w0 = recommends w.
Proof.
  unfold startConversation.
  cbn [props set_collected set_step set_history set_language].
  destruct (scheme (props w)) as [s|].
  - eexists. split; [apply Speaks_speak; reflexivity|].
    split; [|repeat split; reflexivity].
    unfold speak. cbn [text_falsy].
    rewrite (proj1 (proj2 (begin_speak_summary _ _ _ _))). reflexivity.
  - eexists. split; [apply Speaks_speak; reflexivity|].
    split; [|repeat split; reflexivity].
    unfold speak. cbn [text_falsy].
    rewrite (proj1 (proj2 (begin_speak_summary _ _ _ _))). reflexivity.
Qed.

(** One transcript that is not empty: the branch of the triage sends its
    request, the other branches speak after having stored the value, if
    any. *)
Lemma processResponse_Speaks t w :
  falsy t = false ->
  if is_triage (stateRef w) then
    processResponse t w
    = emit (ERecommendRequest t (languageRef w))
        (set_recommends (S (recommends w))
           (addHistory (UserSaid t) (set_state PROCESSING w)))
  else
    exists w0,
      Speaks w0 (processResponse t w)
      /\ stateRef (processResponse t w) = SPEAKING
      /\ conversationHistory w0 = conversationHistory w ++ [UserSaid t]
      /\ calls w0 = calls w
      /\ recommends w0 = recommends w
      /\ props w0 = props w
      /\ log w0
         = log w ++ match answer t w with
                    | Some v =>
                        field_update w (getFieldOrder w !! currentStepRef w) v
                    | None => []
                    end.
Proof.
  intros Ht. destruct (is_triage (stateRef w)) eqn:Htr.
  - apply processResponse_triage; assumption.
  - destruct (answer t w) as [v|] eqn:Ha.
    + destruct (Nat.ltb_spec (currentStepRef w + 1) (length (getFieldOrder w))).
      * rewrite (processResponse_next _ _ _ Ha) by assumption.
        eexists. split; [apply Speaks_begin_speak; reflexivity|].
        split; [apply (begin_speak_summary _ _ _ _)|].
        unfold field_update.
        destruct (onFieldUpdate (props w)); cbn; rewrite ?app_nil_r;
          repeat split; reflexivity.
      * rewrite (processResponse_last _ _ _ Ha) by assumption.
        eexists. split; [apply Speaks_begin_speak; reflexivity|].
        split; [apply (begin_speak_summary _ _ _ _)|].
        unfold field_update.
        destruct (onFieldUpdate (props w)); cbn; rewrite ?app_nil_r;
          repeat split; reflexivity.
    + rewrite (processResponse_retry _ _ Ht Htr Ha).
      eexists. split; [apply Speaks_begin_speak; reflexivity|].
      split; [apply (begin_speak_summary _ _ _ _)|].
      cbn. rewrite app_nil_r. repeat split; reflexivity.
Qed.

End SpeaksFrame.

(* ===================================================================== *)
(** ** Whole turns of the dialogue *)
(* ===================================================================== *)

Section Turns.

Import Widget.

Lemma speech_effects_env w w' call c o :
  props w' = props w -> speechSynthesis w' = speechSynthesis w ->
  speech_effects w' call c o = speech_effects w call c o.
Proof.
  intros Hp Hs. unfold speech_effects.
  rewrite (after_effects_props (c_after c) w w' Hp), Hs. reflexivity.
Qed.

(** [startConversation] and the greeting played out, up to the callback
    of the greeting. *)
Lemma start_turn lang w oc :
  possible w oc = true ->
  let call := length (calls w) in
  let c := new_call (opening w lang) lang (opening_onEnd w) Return in
  exists W0,
    run (StartConversation lang :: play_out call oc) w
    = run_onEnd (opening_onEnd w) W0
    /\ session W0 = (props w, speechSynthesis w, 0, lang, ∅)
    /\ stateRef W0 = LISTENING
    /\ length (calls W0) = S call
    /\ log W0 = log w ++ [ESpeakRequest call (opening w lang) lang]
                  ++ speech_effects w call c oc
    /\ recommends W0 = recommends w.
Proof.
  intros Hpo. cbv zeta.
  change (StartConversation lang :: play_out (length (calls w)) oc)
    with ([StartConversation lang] ++ play_out (length (calls w)) oc).
  rewrite run_app. cbn [run foldl handle].
  fold (run (play_out (length (calls w)) oc) (startConversation lang w)).
  assert (Hst : exists wr,
             startConversation lang w
             = begin_speak (opening w lang) (opening_onEnd w) Return wr
             /\ session wr = (props w, speechSynthesis w, 0, lang, ∅)
             /\ calls wr = calls w /\ log wr = log w
             /\ recommends wr = recommends w).
  { unfold startConversation, opening, opening_onEnd.
    cbn [props set_collected set_step set_history set_language].
    destruct (scheme (props w)); eexists; (split; [reflexivity|]);
      repeat split; reflexivity. }
  destruct Hst as (wr & -> & Hsr & Hcr & Hlr & Hrr).
  destruct (begin_speak_summary (opening w lang) (opening_onEnd w) Return wr)
    as (Hs1 & _ & Hlen1 & Hlog1 & Hc1 & Hr1).
  set (w1 := begin_speak _ _ _ wr) in *.
  assert (Hl : languageRef wr = lang)
    by exact (f_equal (fun s => snd (fst s)) Hsr).
  rewrite Hcr, Hlr, Hl in *.
  assert (Hp1 : props w1 = props w)
    by exact (f_equal (fun s => fst (fst (fst (fst s)))) (eq_trans Hs1 Hsr)).
  assert (Hsy1 : speechSynthesis w1 = speechSynthesis w)
    by exact (f_equal (fun s => snd (fst (fst (fst s)))) (eq_trans Hs1 Hsr)).
  destruct (play_out_summary (length (calls w)) _ oc w1
              (eq_trans (possible_synth _ _ _ Hsy1) Hpo) Hc1 eq_refl
              (or_intror eq_refl))
    as (W0 & HW & Hs0 & Hst0 & Hlen0 & Hlog0 & Hr0).
  exists W0. cbn [c_onEnd] in HW.
  split; [exact HW|]. split; [rewrite Hs0, Hs1; exact Hsr|].
  split; [exact Hst0|]. split; [rewrite Hlen0; exact Hlen1|].
  split; [|rewrite Hr0, Hr1; exact Hrr].
  rewrite Hlog0, Hlog1, (speech_effects_env w w1 _ _ _ Hp1 Hsy1), <- app_assoc.
  reflexivity.
Qed.

(** The answer to the last question and the closing message played out. *)
Lemma submit_turn t w v oc :
  answer t w = Some v ->
  length (getFieldOrder w) <= currentStepRef w + 1 ->
  possible w oc = true ->
  let fieldKey := getFieldOrder w !! currentStepRef w in
  let d := <[key_of fieldKey := v]> (collectedDataRef w) in
  let call := length (calls w) in
  let c := new_call (TDone (phrase_code (languageRef w))) (languageRef w)
             NoCallback (SaveAndDownload d) in
  let W := run (Transcript t :: play_out call oc) w in
  session W = (props w, speechSynthesis w, currentStepRef w, languageRef w, d)
  /\ stateRef W = LISTENING
  /\ length (calls W) = S call
  /\ log W = log w ++ field_update w fieldKey v
               ++ [ESpeakRequest call (TDone (phrase_code (languageRef w)))
                     (languageRef w)]
               ++ speech_effects w call c oc
  /\ recommends W = recommends w.
Proof.
  intros Ha Hge Hpo. cbv zeta.
  change (Transcript t :: play_out (length (calls w)) oc)
    with ([Transcript t] ++ play_out (length (calls w)) oc).
  rewrite run_app. cbn [run foldl handle].
  fold (run (play_out (length (calls w)) oc) (processResponse t w)).
  rewrite (processResponse_last _ _ _ Ha Hge).
  set (d := <[key_of (getFieldOrder w !! currentStepRef w) := v]>
              (collectedDataRef w)).
  set (wq := set_state COMPLETED _).
  assert (Hsq : session wq
                = (props w, speechSynthesis w, currentStepRef w, languageRef w, d)).
  { subst wq. cbn. destruct (onFieldUpdate (props w)); reflexivity. }
  assert (Hcq : calls wq = calls w).
  { subst wq. cbn. destruct (onFieldUpdate (props w)); reflexivity. }
  assert (Hrq : recommends wq = recommends w).
  { subst wq. cbn. destruct (onFieldUpdate (props w)); reflexivity. }
  assert (Hlq : log wq
                = log w ++ field_update w (getFieldOrder w !! currentStepRef w) v).
  { subst wq. unfold field_update. cbn.
    destruct (onFieldUpdate (props w)); cbn; rewrite ?app_nil_r; reflexivity. }
  destruct (begin_speak_summary (TDone (phrase_code (languageRef w)))
              NoCallback (SaveAndDownload d) wq)
    as (Hs1 & _ & Hlen1 & Hlog1 & Hc1 & Hr1).
  set (w1 := begin_speak _ _ _ wq) in *.
  assert (Hl : languageRef wq = languageRef w)
    by exact (f_equal (fun s => snd (fst s)) Hsq).
  rewrite Hcq, Hlq, Hl in *.
  assert (Hp1 : props w1 = props w)
    by exact (f_equal (fun s => fst (fst (fst (fst s)))) (eq_trans Hs1 Hsq)).
  assert (Hsy1 : speechSynthesis w1 = speechSynthesis w)
    by exact (f_equal (fun s => snd (fst (fst (fst s)))) (eq_trans Hs1 Hsq)).
  destruct (play_out_summary (length (calls w)) _ oc w1
              (eq_trans (possible_synth _ _ _ Hsy1) Hpo) Hc1 eq_refl
              (or_introl eq_refl))
    as (W0 & HW & Hs0 & Hst0 & Hlen0 & Hlog0 & Hr0).
  cbn [c_onEnd run_onEnd] in HW. rewrite HW.
  split; [rewrite Hs0, Hs1; exact Hsq|].
  split; [exact Hst0|]. split; [rewrite Hlen0; exact Hlen1|].
  split; [|rewrite Hr0, Hr1; exact Hrq].
  rewrite Hlog0, Hlog1, (speech_effects_env w w1 _ _ _ Hp1 Hsy1), <- !app_assoc.
  reflexivity.
Qed.

(** The counters of the effects of one utterance. *)
Lemma speech_effects_quiet w call c o :
  forallb quiet (speech_effects w call c o) = true.
Proof.
  unfold speech_effects.
  assert (Ha : forallb quiet (after_effects (c_after c) w) = true).
  { destruct (c_after c); cbn; [reflexivity|].
    destruct (onDownload (props w)); reflexivity. }
  destruct (is_remote o); [cbn; exact Ha|].
  destruct (speechSynthesis w); rewrite ?forallb_app; cbn; rewrite Ha;
    reflexivity.
Qed.

Lemma speech_effects_no_scheme_change w call c o :
  List.filter is_scheme_change (speech_effects w call c o) = [].
Proof.
  unfold speech_effects.
  assert (Ha : List.filter is_scheme_change (after_effects (c_after c) w) = []).
  { destruct (c_after c); cbn; [reflexivity|].
    destruct (onDownload (props w)); reflexivity. }
  destruct (is_remote o); [cbn; exact Ha|].
  destruct (speechSynthesis w); rewrite ?List.filter_app; cbn; rewrite Ha;
    reflexivity.
Qed.

End Turns.

(* ===================================================================== *)
(** ** The states of the hook between two messages *)
(* ===================================================================== *)

Section States.

Import Widget.

Lemma run_cons e es w : run (e :: es) w = run es (handle e w).
Proof. reflexivity. Qed.

Lemma observable_not_triage s : observable s = true -> is_triage s = false.
Proof. destruct s; try reflexivity; discriminate. Qed.

Lemma recommend_requests_app l1 l2 :
  recommend_requests (l1 ++ l2) = recommend_requests l1 + recommend_requests l2.
Proof.
  unfold recommend_requests. rewrite List.filter_app, length_app. reflexivity.
Qed.

Lemma recommend_requests_field_update w fieldKey v :
  recommend_requests (field_update w fieldKey v) = 0.
Proof. unfold field_update. destruct (onFieldUpdate (props w)); reflexivity. Qed.

(** Once the hook has left [IDLE], a message leaves it in an observable
    state and sends no /recommend-scheme request. *)
Lemma handle_started e w :
  observable (stateRef w) = true ->
  observable (stateRef (handle e w)) = true
  /\ recommend_requests (log (handle e w)) = recommend_requests (log w).
Proof.
  intros Ho.
  assert (Hgo : forall w', Speaks w w' ->
                  observable (stateRef w') = true
                  /\ recommend_requests (log w') = recommend_requests (log w)).
  { intros w' H. split; [|apply Speaks_recommend_requests, H].
    destruct (Speaks_state_kept _ _ H) as [-> | H']; assumption. }
  destruct e; cbn [handle].
  - destruct (startConversation_Speaks lang w)
      as (w0 & Hsp & Hob & _ & Hlog & _).
    split; [exact Hob|].
    rewrite (Speaks_recommend_requests _ _ Hsp), Hlog. reflexivity.
  - destruct (falsy t) eqn:Ht.
    + unfold processResponse. rewrite Ht. split; [exact Ho | reflexivity].
    + pose proof (processResponse_Speaks t w Ht) as H.
      rewrite (observable_not_triage _ Ho) in H.
      destruct H as (w0 & Hsp & Hst & _ & _ & _ & _ & Hlog).
      split; [rewrite Hst; reflexivity|].
      rewrite (Speaks_recommend_requests _ _ Hsp), Hlog,
        recommend_requests_app.
      destruct (answer t w);
        [rewrite recommend_requests_field_update|]; cbn; lia.
  - split; [exact Ho | reflexivity].
  - apply Hgo, Speaks_on_speak_response.
  - apply Hgo, Speaks_on_audio_ended.
  - apply Hgo, Speaks_on_audio_failed.
  - apply Hgo, Speaks_on_audio_failed.
  - apply Hgo, Speaks_on_utterance_done.
  - apply Hgo, Speaks_on_utterance_done.
  - apply Hgo, Speaks_on_recommend_response.
Qed.

Lemma run_started es w :
  observable (stateRef w) = true ->
  observable (stateRef (run es w)) = true
  /\ recommend_requests (log (run es w)) = recommend_requests (log w).
Proof.
  revert w. induction es as [|e es IH]; intros w Ho; [split; auto|].
  cbn [run foldl]. destruct (handle_started e w Ho) as [Ho' Hr'].
  destruct (IH _ Ho') as [Ho'' Hr''].
  split; [exact Ho''|]. fold (run es (handle e w)) in Hr''.
  rewrite <- Hr'. exact Hr''.
Qed.

(** The first message that the hook acts on takes it out of [IDLE]. *)
Lemma handle_fresh e w : fresh w -> fresh (handle e w) \/ started (handle e w).
Proof.
  intros (Hst & Hlog & Hh & Hc & Hr & Hstep & Hcol & Hl).
  destruct e; cbn [handle].
  - right. destruct (startConversation_Speaks lang w)
      as (w0 & Hsp & Hob & _ & Hlog0 & _).
    split; [exact Hob|].
    rewrite (Speaks_recommend_requests _ _ Hsp), Hlog0, Hlog. cbn. lia.
  - destruct (falsy t) eqn:Ht.
    + left. unfold processResponse. rewrite Ht. repeat split; assumption.
    + right. pose proof (processResponse_Speaks t w Ht) as H.
      rewrite Hst in H. cbn [is_triage] in H. rewrite H.
      split; [reflexivity|]. cbn [log emit set_recommends addHistory
                                   set_history set_state].
      rewrite Hlog. cbn. lia.
  - left. repeat split; assumption.
  - left. unfold on_speak_response. rewrite Hc. repeat split; assumption.
  - left. unfold on_audio_ended. rewrite Hc. repeat split; assumption.
  - left. unfold on_audio_failed. rewrite Hc. repeat split; assumption.
  - left. unfold on_audio_failed. rewrite Hc. repeat split; assumption.
  - left. unfold on_utterance_done. rewrite Hc. repeat split; assumption.
  - left. unfold on_utterance_done. rewrite Hc. repeat split; assumption.
  - left. unfold on_recommend_response. rewrite Hr. repeat split; assumption.
Qed.

Lemma run_fresh es w : fresh w -> fresh (run es w) \/ started (run es w).
Proof.
  revert w. induction es as [|e es IH]; intros w H; [left; exact H|].
  cbn [run foldl]. fold (run es (handle e w)).
  destruct (handle_fresh e w H) as [H' | [Ho Hr]]; [apply IH, H'|].
  right. destruct (run_started es _ Ho) as [Ho' Hr'].
  split; [exact Ho' | rewrite Hr'; exact Hr].
Qed.

Lemma fresh_initial p synth : fresh (initial p synth).
Proof. repeat split; reflexivity. Qed.

End States.

(** X1.  Between two messages the hook of [AssistantWidget.jsx] is never
    found in [TRIAGE] nor in [COMPLETED]: [startConversation] and
    [processResponse] set these states and call [speak] in the same turn,
    which sets [SPEAKING].  The state is [IDLE] only as long as nothing
    has been sent, said or recorded; afterwards it is one of [SPEAKING],
    [LISTENING] and [PROCESSING]. *)
Theorem states_between_messages (p : Props) (synth : bool) (es : list Event) :
  let W := Widget.run es (Widget.initial p synth) in
  stateRef W <> TRIAGE
  /\ stateRef W <> COMPLETED
  /\ ((stateRef W = IDLE /\ log W = [] /\ conversationHistory W = []
       /\ calls W = [])
      \/ observable (stateRef W) = true).
Proof.
  cbv zeta.
  destruct (run_fresh es _ (fresh_initial p synth))
    as [(Hst & Hlog & Hh & Hc & _) | [Ho _]].
  - rewrite Hst. split; [discriminate|]. split; [discriminate|].
    left. repeat split; assumption.
  - split; [|split; [|right; exact Ho]];
      intros E; rewrite E in Ho; discriminate.
Qed.

(** X2.  The hook sends a transcript to /recommend-scheme only while it is
    [IDLE]: in every run from the mounted hook at most one such request is
    sent, and none after [startConversation] has been called, whether a
    scheme is selected or not. *)
Theorem recommend_request_only_when_idle
    (p : Props) (synth : bool) (es : list Event) :
  let W := Widget.run es (Widget.initial p synth) in
  recommend_requests (log W) <= 1
  /\ forall lang es',
       recommend_requests (log (Widget.run (StartConversation lang :: es') W))
       = recommend_requests (log W).
Proof.
  cbv zeta. split.
  - destruct (run_fresh es _ (fresh_initial p synth))
      as [(_ & Hlog & _) | [_ Hr]]; [rewrite Hlog; cbn; lia | exact Hr].
  - intros lang es'. rewrite run_cons. cbn [Widget.handle].
    set (W := Widget.run es (Widget.initial p synth)).
    destruct (startConversation_Speaks lang W)
      as (w0 & Hsp & Hob & _ & Hlog & _).
    destruct (run_started es' _ Hob) as [_ Hr]. rewrite Hr.
    rewrite (Speaks_recommend_requests _ _ Hsp), Hlog. reflexivity.
Qed.

(* ===================================================================== *)
(** ** The start of a conversation, the triage and the last answer *)
(* ===================================================================== *)

Section TurnLemmas.

Import Widget.

Lemma fields_session w w' :
  props w' = props w -> getFieldOrder w' = getFieldOrder w.
Proof. intros H. unfold getFieldOrder. rewrite H. reflexivity. Qed.

(** The callback of the greeting: the first question, when there is
    one. *)
Lemma opening_onEnd_asks w W0 :
  props W0 = props w ->
  run_onEnd (opening_onEnd w) W0
  = match getFieldOrder w !! 0 with
    | Some f =>
        begin_speak (TQuestion (Some f) (phrase_code (languageRef W0)))
          NoCallback Return W0
    | None => W0
    end.
Proof.
  intros Hp. pose proof (fields_session _ _ Hp) as Hf.
  unfold opening_onEnd. destruct (scheme (props w)) as [s|] eqn:Hs.
  - cbn [run_onEnd]. destruct (getFieldOrder w !! 0) as [f|] eqn:Hf0.
    + rewrite askNextQuestion_asks
        by (rewrite Hf; apply lookup_lt_Some in Hf0; exact Hf0).
      rewrite Hf, Hf0. reflexivity.
    + unfold askNextQuestion. rewrite Hf.
      apply lookup_ge_None in Hf0.
      destruct (Nat.leb_spec (length (getFieldOrder w)) 0); [reflexivity | lia].
  - cbn [run_onEnd]. unfold getFieldOrder. rewrite Hs. reflexivity.
Qed.

Lemma saves_field_update w fieldKey v : saves (field_update w fieldKey v) = 0.
Proof. unfold field_update. destruct (onFieldUpdate (props w)); reflexivity. Qed.


Lemma usable_Some r v : usable r = Some v -> r = Some v /\ v <> [].
Proof.
  destruct r as [[|c s]|]; try discriminate.
  intros [= <-]. split; [reflexivity | discriminate].
Qed.

Lemma extractValue_truthy t ft v : extractValue t ft = Some v -> t <> [].
Proof. intros H ->. discriminate. Qed.

End TurnLemmas.

(** X3.  [startConversation(lang)] sets the language, the step index 0
    and empty collected data, and requests the greeting; however the
    greeting plays out, the question of the first field of the order is
    requested next in the language [lang].  Without a scheme, or when the
    field order of the scheme is empty, nothing is asked and the hook ends
    in [LISTENING].  The id of the scheme is one that names no member of
    [Object.prototype]: for 'constructor' and the like
    [SCHEME_FIELD_ORDER[s.id]] is an inherited member and not the field
    order of [Widget.getFieldOrder]. *)
Theorem start_greets_then_asks (w : World) (lang : Lang) (oc : Outcome) :
  own_id (scheme (props w)) = true ->
  possible w oc = true ->
  let call := length (calls w) in
  let first := Widget.getFieldOrder w !! 0 in
  let W := Widget.run (StartConversation lang :: play_out call oc) w in
  session W = (props w, speechSynthesis w, 0, lang, ∅)
  /\ log W
     = log w ++ [ESpeakRequest call (opening w lang) lang]
         ++ speech_effects w call
              (new_call (opening w lang) lang (opening_onEnd w) Return) oc
         ++ match first with
            | Some f => [ESpeakRequest (S call)
                           (TQuestion (Some f) (phrase_code lang)) lang]
            | None => []
            end
  /\ stateRef W = match first with Some _ => SPEAKING | None => LISTENING end.
Proof.
  intros _ Hpo. cbv zeta.
  destruct (start_turn lang w oc Hpo) as (W0 & -> & Hs & Hst & Hlen & Hlog & _).
  assert (Hp : props W0 = props w)
    by exact (f_equal (fun s => fst (fst (fst (fst s)))) Hs).
  assert (Hl : languageRef W0 = lang)
    by exact (f_equal (fun s => snd (fst s)) Hs).
  rewrite (opening_onEnd_asks w W0 Hp).
  destruct (Widget.getFieldOrder w !! 0) as [f|].
  - destruct (begin_speak_summary (TQuestion (Some f) (phrase_code (languageRef W0)))
                NoCallback Return W0) as (Hs' & Hst' & _ & Hlog' & _).
    rewrite Hl, Hlen, Hlog in *.
    split; [rewrite Hs'; exact Hs|]. split; [|exact Hst'].
    rewrite Hlog', <- !app_assoc. reflexivity.
  - split; [exact Hs|]. split; [|exact Hst].
    rewrite Hlog, app_nil_r. reflexivity.
Qed.

Lemma start_greets_then_asks_witness :
  own_id (scheme (FormFiller.hook_props (Some "ujjwala"%string))) = true
  /\ possible (Widget.initial (FormFiller.hook_props (Some "ujjwala"%string)) true)
       (LocalEnd FailHttp) = true
  /\ log (Widget.run (StartConversation gu_IN :: play_out 0 (LocalEnd FailHttp))
            (Widget.initial (FormFiller.hook_props (Some "ujjwala"%string)) true))
     = [ESpeakRequest 0 (TGreeting gu_IN) gu_IN;
        EUtter 0 (TGreeting gu_IN) gu_IN; ECompletion 0;
        ESpeakRequest 1 (TQuestion (Some "name"%string) gu) gu_IN]
  /\ currentStepRef
       (Widget.run (StartConversation gu_IN :: play_out 0 (LocalEnd FailHttp))
          (Widget.initial (FormFiller.hook_props (Some "ujjwala"%string)) true))
     = 0.
Proof.
  pose proof (start_greets_then_asks
                (Widget.initial (FormFiller.hook_props (Some "ujjwala"%string)) true)
                gu_IN (LocalEnd FailHttp) eq_refl eq_refl) as H.
  cbv zeta in H. destruct H as (Hs & Hlog & _).
  vm_compute in Hlog. vm_compute.
  split; [reflexivity|]. split; [reflexivity|].
  split; [exact Hlog | reflexivity].
Defined.

(** X4.  The answer of /recommend-scheme in the triage branch.  When
    [data.success] holds, [onSchemeChange(data.scheme_id)] is called
    exactly once: at once and without any speech when [data.message] is
    empty (the hook then stays in [PROCESSING]), and otherwise after the
    message has been spoken, however it plays out.  When [data.success]
    does not hold, the message, or the retry phrase in its place when it
    is empty, is spoken and no scheme change is sent. *)
Theorem recommendation_changes_scheme_once
    (w : World) (t : jsstring) (data : Recommendation) (oc : Outcome) :
  t <> [] ->
  Widget.is_triage (stateRef w) = true ->
  possible w oc = true ->
  let lang := languageRef w in
  let call := length (calls w) in
  let w1 := Widget.processResponse t w in
  let w2 := Widget.handle (RecommendResponse (RecommendJson data)) w1 in
  let w3 := Widget.run (play_out call oc) w2 in
  let change :=
    if success data && onSchemeChange (props w)
    then [ESchemeChange (recommended data)] else [] in
  let said :=
    if falsy (message data) then TRetry (phrase_code lang)
    else TServer (message data) in
  let onEnd :=
    if success data then ChangeScheme (recommended data) else NoCallback in
  log w1 = log w ++ [ERecommendRequest t lang]
  /\ if success data && falsy (message data)
     then log w2 = log w1 ++ change
          /\ stateRef w2 = PROCESSING
          /\ calls w2 = calls w
     else log w3 = log w1 ++ [ESpeakRequest call said lang]
                     ++ speech_effects w call (new_call said lang onEnd Return) oc
                     ++ change
          /\ scheme_changes (log w3) = scheme_changes (log w) ++ change
          /\ stateRef w3 = LISTENING
          /\ session w3 = session w.
Proof.
  intros Ht Htr Hpo. cbv zeta.
  assert (Hf : falsy t = false) by (destruct t; [contradiction | reflexivity]).
  rewrite (processResponse_triage _ _ Hf Htr).
  set (w1 := emit _ _).
  split; [reflexivity|].
  set (wp := set_recommends (recommends w) w1).
  assert (Hsay : forall said k,
             text_falsy said = false ->
             let W := Widget.run (play_out (length (calls w)) oc)
                        (Widget.speak said k Return wp) in
             exists W0, W = Widget.run_onEnd k W0
               /\ session W0 = session w /\ stateRef W0 = LISTENING
               /\ log W0 = log w1 ++ [ESpeakRequest (length (calls w)) said
                                        (languageRef w)]
                             ++ speech_effects w (length (calls w))
                                  (new_call said (languageRef w) k Return) oc).
  { intros said k Hsaid. cbv zeta. unfold Widget.speak. rewrite Hsaid.
    destruct (begin_speak_summary said k Return wp)
      as (Hs & _ & _ & Hlog & Hc & _).
    change (session wp) with (session w) in Hs.
    change (calls wp) with (calls w) in *.
    change (log wp) with (log w1) in *.
    change (languageRef wp) with (languageRef w) in *.
    destruct (play_out_summary _ _ oc _
                (eq_trans (possible_session _ _ oc Hs) Hpo) Hc eq_refl
                (or_intror eq_refl))
      as (W0 & HW & Hs0 & Hst0 & _ & Hlog0 & _).
    exists W0. cbn [c_onEnd] in HW. split; [exact HW|].
    split; [rewrite Hs0; exact Hs|]. split; [exact Hst0|].
    rewrite Hlog0, Hlog, (speech_effects_session _ _ _ _ _ Hs), <- app_assoc.
    reflexivity. }
  assert (Hw1 : scheme_changes (log w1) = scheme_changes (log w)).
  { subst w1. unfold scheme_changes. cbn [log emit].
    rewrite List.filter_app. apply app_nil_r. }
  assert (H2 : Widget.handle (RecommendResponse (RecommendJson data)) w1
               = if success data
                 then Widget.speak (TServer (message data))
                        (ChangeScheme (recommended data)) Return wp
                 else Widget.speak
                        (if falsy (message data)
                         then TRetry (phrase_code (languageRef w))
                         else TServer (message data)) NoCallback Return wp)
    by reflexivity.
  rewrite H2. clear H2.
  destruct (success data); cbn [andb].
  - destruct (falsy (message data)) eqn:Hm.
    + unfold Widget.speak. cbn [text_falsy]. rewrite Hm.
      cbn [Widget.run_after Widget.run_onEnd].
      change (props wp) with (props w).
      destruct (onSchemeChange (props w)); cbn; rewrite ?app_nil_r;
        repeat split; reflexivity.
    + destruct (Hsay (TServer (message data)) (ChangeScheme (recommended data)) Hm)
        as (W0 & -> & Hs0 & Hst0 & Hlog0).
      cbn [Widget.run_onEnd].
      rewrite (session_props _ _ Hs0).
      destruct (onSchemeChange (props w)).
      * cbn [log emit stateRef]. rewrite Hlog0, <- !app_assoc.
        split; [reflexivity|]. split; [|split; [exact Hst0 | exact Hs0]].
        unfold scheme_changes in *. rewrite !List.filter_app, Hw1,
          speech_effects_no_scheme_change. reflexivity.
      * rewrite Hlog0, !app_nil_r.
        split; [reflexivity|]. split; [|split; [exact Hst0 | exact Hs0]].
        unfold scheme_changes in *. rewrite !List.filter_app, Hw1,
          speech_effects_no_scheme_change. cbn. rewrite !app_nil_r.
        reflexivity.
  - assert (Hm : text_falsy (if falsy (message data)
                             then TRetry (phrase_code (languageRef w))
                             else TServer (message data)) = false).
    { destruct (falsy (message data)) eqn:Hm; [reflexivity | exact Hm]. }
    destruct (Hsay _ NoCallback Hm) as (W0 & -> & Hs0 & Hst0 & Hlog0).
    cbn [Widget.run_onEnd]. rewrite Hlog0, !app_nil_r.
    split; [reflexivity|]. split; [|split; [exact Hst0 | exact Hs0]].
    unfold scheme_changes in *. rewrite !List.filter_app, Hw1,
      speech_effects_no_scheme_change. cbn. rewrite !app_nil_r. reflexivity.
Qed.

Lemma recommendation_changes_scheme_once_witness :
  log (Widget.run
         ([Transcript (js "gas cylinder");
           RecommendResponse
             (RecommendJson (mkRecommendation true (js "Ujjwala Yojana")
                               (Some "ujjwala"%string)))]
            ++ play_out 0 Played) no_scheme)
  = [ERecommendRequest (js "gas cylinder") hi_IN;
     ESpeakRequest 0 (TServer (js "Ujjwala Yojana")) hi_IN;
     EPlay 0; ECompletion 0; ESchemeChange (Some "ujjwala"%string)]
  /\ log (Widget.run
            [Transcript (js "gas cylinder");
             RecommendResponse
               (RecommendJson (mkRecommendation true [] (Some "ujjwala"%string)))]
            no_scheme)
     = [ERecommendRequest (js "gas cylinder") hi_IN;
        ESchemeChange (Some "ujjwala"%string)].
Proof.
  pose proof (recommendation_changes_scheme_once no_scheme (js "gas cylinder")
                (mkRecommendation true (js "Ujjwala Yojana")
                   (Some "ujjwala"%string)) Played
                ltac:(discriminate) eq_refl eq_refl) as H.
  pose proof (recommendation_changes_scheme_once no_scheme (js "gas cylinder")
                (mkRecommendation true [] (Some "ujjwala"%string)) Played
                ltac:(discriminate) eq_refl eq_refl) as H'.
  cbv zeta in H, H'. destruct H as (_ & Hlog & _). destruct H' as (_ & Hlog' & _).
  vm_compute in Hlog, Hlog'. vm_compute.
  split; [exact Hlog | exact Hlog'].
Defined.

(* ===================================================================== *)
(** ** What follows the greeting without a scheme, and the closing
       message *)
(* ===================================================================== *)

Section SubmitLemmas.

Import Widget.

Lemma filter_save_speech_effects w call c o :
  List.filter is_save (speech_effects w call c o)
  = List.filter is_save (after_effects (c_after c) w).
Proof.
  unfold speech_effects.
  destruct (is_remote o); [reflexivity|].
  destruct (speechSynthesis w); rewrite ?List.filter_app; cbn;
    rewrite ?app_nil_r; reflexivity.
Qed.

Lemma filter_save_field_update w fieldKey v :
  List.filter is_save (field_update w fieldKey v) = [].
Proof. unfold field_update. destruct (onFieldUpdate (props w)); reflexivity. Qed.

Lemma recommend_requests_speech_effects w call c o :
  recommend_requests (speech_effects w call c o) = 0.
Proof.
  unfold recommend_requests.
  rewrite (quiet_no_recommend _ (speech_effects_quiet w call c o)).
  reflexivity.
Qed.

End SubmitLemmas.

(** X5.  Without a scheme, the reply to the greeting of the triage is not
    sent to /recommend-scheme: the greeting has left the hook in
    [LISTENING], so [processResponse] takes the form-filling branch with an
    empty field order.  A reply from which a value is extracted is stored
    under the key "undefined", the closing message is spoken, and a
    /save-form request with the scheme 'unknown' is sent. *)
Theorem reply_to_triage_greeting_is_filed
    (w : World) (lang : Lang) (o0 o1 : Outcome) (t v : jsstring) :
  scheme (props w) = None ->
  Widget.usable (Widget.extractValue t None) = Some v ->
  possible w o0 = true ->
  possible w o1 = true ->
  let call := length (calls w) in
  let d : gmap string jsstring := <["undefined"%string := v]> ∅ in
  let W := Widget.run (StartConversation lang :: play_out call o0
                         ++ Transcript t :: play_out (S call) o1) w in
  log W
  = log w ++ [ESpeakRequest call (TTriageGreeting lang) lang]
      ++ speech_effects w call
           (new_call (TTriageGreeting lang) lang NoCallback Return) o0
      ++ field_update w None v
      ++ [ESpeakRequest (S call) (TDone (phrase_code lang)) lang]
      ++ speech_effects w (S call)
           (new_call (TDone (phrase_code lang)) lang NoCallback
              (SaveAndDownload d)) o1
  /\ recommend_requests (log W) = recommend_requests (log w)
  /\ List.filter is_save (log W)
     = List.filter is_save (log w) ++ [ESaveRequest "unknown" [] [] d]
  /\ collectedDataRef W = d
  /\ stateRef W = LISTENING.
Proof.
  intros Hsch Hv Hp0 Hp1. cbv zeta.
  rewrite app_comm_cons, run_app.
  destruct (start_turn lang w o0 Hp0) as (W0 & -> & Hs & Hst & Hlen & Hlog & _).
  unfold opening_onEnd, opening in *. rewrite Hsch in *.
  cbn [Widget.run_onEnd].
  assert (Hp : props W0 = props w)
    by exact (f_equal (fun s => fst (fst (fst (fst s)))) Hs).
  assert (Hsy : speechSynthesis W0 = speechSynthesis w)
    by exact (f_equal (fun s => snd (fst (fst (fst s)))) Hs).
  assert (Hl : languageRef W0 = lang)
    by exact (f_equal (fun s => snd (fst s)) Hs).
  assert (Hstep : currentStepRef W0 = 0)
    by exact (f_equal (fun s => snd (fst (fst s))) Hs).
  assert (Hcol : collectedDataRef W0 = ∅)
    by exact (f_equal (fun s => snd s) Hs).
  assert (Hf : Widget.getFieldOrder W0 = []).
  { unfold Widget.getFieldOrder. rewrite Hp, Hsch. reflexivity. }
  assert (Ha : answer t W0 = Some v).
  { apply answer_intro.
    - apply usable_Some in Hv as [Hv _]. exact (extractValue_truthy _ _ _ Hv).
    - rewrite Hst. reflexivity.
    - rewrite Hf. exact Hv. }
  destruct (submit_turn t W0 v o1 Ha) as (HsW & HstW & _ & HlogW & _).
  { rewrite Hf. cbn. lia. }
  { rewrite (possible_synth _ _ _ Hsy). exact Hp1. }
  rewrite Hlen in *. rewrite Hf, Hl, Hstep, Hcol in *. cbn [lookup] in *.
  change ([] !! 0) with (@None string) in *.
  cbn [Widget.key_of default] in *.
  set (W := Widget.run _ W0) in *.
  assert (HlogW' :
            log W
            = log w ++ [ESpeakRequest (length (calls w)) (TTriageGreeting lang) lang]
                ++ speech_effects w (length (calls w))
                     (new_call (TTriageGreeting lang) lang NoCallback Return) o0
                ++ field_update w None v
                ++ [ESpeakRequest (S (length (calls w)))
                      (TDone (phrase_code lang)) lang]
                ++ speech_effects w (S (length (calls w)))
                     (new_call (TDone (phrase_code lang)) lang NoCallback
                        (SaveAndDownload (<["undefined"%string := v]> ∅))) o1).
  { rewrite HlogW, Hlog, (speech_effects_env w W0 _ _ _ Hp Hsy), <- !app_assoc.
    unfold field_update. rewrite Hp. reflexivity. }
  split; [exact HlogW'|].
  split; [|split; [|split]].
  - rewrite HlogW', !recommend_requests_app, !recommend_requests_speech_effects,
      recommend_requests_field_update. cbn. lia.
  - rewrite HlogW', !List.filter_app, !filter_save_speech_effects,
      filter_save_field_update.
    cbn [c_after new_call after_effects List.filter is_save app].
    rewrite Hsch, lookup_insert_ne, lookup_empty by discriminate.
    rewrite lookup_insert_ne, lookup_empty by discriminate.
    cbn [default]. destruct (onDownload (props w)); reflexivity.
  - exact (f_equal (fun s => snd s) HsW).
  - exact HstW.
Qed.

Lemma reply_to_triage_greeting_is_filed_witness :
  log (Widget.run (StartConversation hi_IN :: play_out 0 Played
                     ++ Transcript (js "gas cylinder") :: play_out 1 Played)
         no_scheme)
  = [ESpeakRequest 0 (TTriageGreeting hi_IN) hi_IN; EPlay 0; ECompletion 0;
     EFieldUpdate None (js "gas cylinder");
     ESpeakRequest 1 (TDone hi) hi_IN; EPlay 1; ECompletion 1;
     ESaveRequest "unknown" [] [] (<["undefined"%string := js "gas cylinder"]> ∅);
     EDownloadTimer].
Proof.
  pose proof (reply_to_triage_greeting_is_filed no_scheme hi_IN Played Played
                (js "gas cylinder") (js "gas cylinder")
                eq_refl eq_refl eq_refl eq_refl) as H.
  cbv zeta in H. destruct H as (Hlog & _).
  vm_compute in Hlog. vm_compute. exact Hlog.
Defined.



(* ===================================================================== *)
(** ** Invariants of the dialogue *)
(* ===================================================================== *)

Section Invariants.

Import Widget.

Lemma processResponse_props t w : props (processResponse t w) = props w.
Proof.
  destruct (falsy t) eqn:Ht; [unfold processResponse; rewrite Ht; reflexivity|].
  pose proof (processResponse_Speaks t w Ht) as H.
  destruct (is_triage (stateRef w)); [rewrite H; reflexivity|].
  destruct H as (w0 & Hsp & _ & _ & _ & _ & Hp & _).
  rewrite (session_props _ _ (Speaks_session _ _ Hsp)). exact Hp.
Qed.

Lemma startConversation_session lang w :
  session (startConversation lang w)
  = (props w, speechSynthesis w, 0, lang, ∅).
Proof.
  destruct (startConversation_Speaks lang w) as (w0 & Hsp & _ & _ & _ & _ & Hs & _).
  rewrite (Speaks_session _ _ Hsp). exact Hs.
Qed.

(** The messages of the network, the audio element and the synthesizer
    leave the session alone. *)
Lemma handle_session e w :
  match e with
  | StartConversation _ | Transcript _ | Render _ => True
  | _ => session (handle e w) = session w
  end.
Proof.
  pose proof (Speaks_handle e w) as H.
  destruct e; try exact I; apply Speaks_session, H.
Qed.






(** The form data after a log. *)
Lemma formData_snoc lg e :
  FormFiller.formData (lg ++ [e])
  = match e with
    | EFieldUpdate field value =>
        FormFiller.onFieldUpdate field value (FormFiller.formData lg)
    | _ => FormFiller.formData lg
    end.
Proof. unfold FormFiller.formData. rewrite foldl_app. reflexivity. Qed.

Lemma formData_quiet lg l :
  forallb quiet l = true -> FormFiller.formData (lg ++ l) = FormFiller.formData lg.
Proof.
  revert lg. induction l as [|e l IH]; intros lg H; [rewrite app_nil_r; reflexivity|].
  cbn [forallb] in H. apply andb_prop in H as [He Hl].
  change (lg ++ e :: l) with (lg ++ [e] ++ l). rewrite app_assoc, (IH _ Hl).
  rewrite formData_snoc. destruct e; try reflexivity; discriminate.
Qed.

Lemma Speaks_formData w w' :
  Speaks w w' -> FormFiller.formData (log w') = FormFiller.formData (log w).
Proof.
  intros (l & ts & _ & Hl & Hq & _). rewrite Hl. apply formData_quiet, Hq.
Qed.

Lemma mirrored_Speaks w w' : Speaks w w' -> mirrored w -> mirrored w'.
Proof.
  intros Hsp [Hp Hm]. pose proof (Speaks_session _ _ Hsp) as Hs.
  split.
  - rewrite (session_props _ _ Hs). exact Hp.
  - rewrite (session_collected _ _ Hs), (Speaks_formData _ _ Hsp). exact Hm.
Qed.

Lemma mirrored_handle e w : mirrored w -> mirrored (handle e w).
Proof.
  intros H. pose proof (Speaks_handle e w) as Hsp.
  destruct e; cbn [handle] in *; try (apply (mirrored_Speaks _ _ Hsp), H).
  - destruct H as [Hp Hm].
    destruct (startConversation_Speaks lang w)
      as (w0 & Hsp0 & _ & _ & Hlog & _ & Hs0 & _).
    pose proof (eq_trans (Speaks_session _ _ Hsp0) Hs0) as Hs.
    assert (Hpr : props (startConversation lang w) = props w)
      by exact (f_equal (fun s => fst (fst (fst (fst s)))) Hs).
    assert (Hcol : collectedDataRef (startConversation lang w) = ∅)
      by exact (f_equal (fun s => snd s) Hs).
    split; [rewrite Hpr; exact Hp|].
    rewrite Hcol. apply map_empty_subseteq.
  - destruct H as [Hp Hm]. split; [rewrite processResponse_props; exact Hp|].
    rewrite processResponse_collected.
    destruct (falsy t) eqn:Ht.
    { unfold answer, processResponse. rewrite Ht. exact Hm. }
    pose proof (processResponse_Speaks t w Ht) as HS.
    destruct (is_triage (stateRef w)) eqn:Htr.
    + unfold answer. rewrite Ht, Htr. cbn [orb]. rewrite HS.
      cbn [log emit set_recommends addHistory set_history set_state].
      rewrite formData_snoc. exact Hm.
    + destruct HS as (w0 & Hsp0 & _ & _ & _ & _ & _ & Hlog).
      rewrite (Speaks_formData _ _ Hsp0), Hlog.
      destruct (answer t w) as [v|].
      * unfold field_update. rewrite Hp. rewrite formData_snoc.
        apply insert_mono, Hm.
      * rewrite app_nil_r. exact Hm.
  - exact H.
Qed.

Lemma mirrored_run es w : mirrored w -> mirrored (run es w).
Proof.
  revert w. induction es as [|e es IH]; intros w H; [exact H|].
  rewrite run_cons. apply IH, mirrored_handle, H.
Qed.

(** The history and the calls of [speak] after one message. *)
Lemma handle_history e w :
  is_start e = false ->
  exists texts,
    conversationHistory (handle e w)
    = conversationHistory w ++ heard [e] ++ map AiSaid texts
    /\ map c_text (calls (handle e w)) = map c_text (calls w) ++ texts.
Proof.
  intros Hst. pose proof (Speaks_handle e w) as Hsp.
  assert (Hgo : forall w', Speaks w w' ->
                  exists texts,
                    conversationHistory w'
                    = conversationHistory w ++ [] ++ map AiSaid texts
                    /\ map c_text (calls w') = map c_text (calls w) ++ texts).
  { intros w' (l & ts & _ & _ & _ & Hh & Hc & _). exists ts. split; assumption. }
  destruct e; try discriminate; cbn [handle heard flat_map app] in *;
    try (apply Hgo, Hsp).
  - destruct (falsy t) eqn:Ht.
    { unfold processResponse. rewrite Ht. exists []. cbn.
      rewrite !app_nil_r. split; reflexivity. }
    pose proof (processResponse_Speaks t w Ht) as HS.
    destruct (is_triage (stateRef w)).
    + rewrite HS. exists []. cbn. rewrite app_nil_r. split; reflexivity.
    + destruct HS as (w0 & (l & ts & _ & _ & _ & Hh & Hc & _) & _ & Hh0 & Hc0 & _).
      exists ts. rewrite Hh, Hh0, Hc, Hc0, <- app_assoc. split; reflexivity.
  - exists []. cbn. rewrite !app_nil_r. split; reflexivity.
Qed.

Lemma filter_user_ai ts : List.filter is_user (map AiSaid ts) = [].
Proof. induction ts as [|t ts IH]; [reflexivity | exact IH]. Qed.

Lemma ai_texts_ai ts : ai_texts (map AiSaid ts) = ts.
Proof.
  induction ts as [|t ts IH]; [reflexivity|]. cbn. f_equal. exact IH.
Qed.

Lemma heard_cons e es : heard (e :: es) = heard [e] ++ heard es.
Proof. unfold heard. cbn [flat_map]. rewrite app_nil_r. reflexivity. Qed.

Lemma heard_user es :
  List.filter is_user (heard es) = heard es /\ ai_texts (heard es) = [].
Proof.
  induction es as [|e es [IH1 IH2]]; [split; reflexivity|].
  rewrite heard_cons.
  unfold ai_texts in *. rewrite List.filter_app, flat_map_app, IH1, IH2.
  destruct e; cbn; try (split; reflexivity).
  destruct (falsy t); split; reflexivity.
Qed.

Lemma ai_texts_app h1 h2 : ai_texts (h1 ++ h2) = ai_texts h1 ++ ai_texts h2.
Proof. unfold ai_texts. apply flat_map_app. Qed.

(** The texts of the calls of [speak] after one message. *)
Lemma handle_proper e w :
  forallb proper (map c_text (calls w)) = true ->
  forallb proper (map c_text (calls (handle e w))) = true.
Proof.
  intros H. pose proof (Speaks_handle e w) as Hsp.
  assert (Hgo : forall w0 w', Speaks w0 w' -> calls w0 = calls w ->
                  forallb proper (map c_text (calls w')) = true).
  { intros w0 w' (l & ts & _ & _ & _ & _ & Hc & Hp & _) E.
    rewrite Hc, E, forallb_app, H, Hp. reflexivity. }
  destruct e; cbn [handle] in *; try (apply (Hgo w _ Hsp eq_refl)).
  - destruct (startConversation_Speaks lang w) as (w0 & Hsp0 & _ & _ & _ & Hc & _).
    apply (Hgo w0 _ Hsp0 Hc).
  - destruct (falsy t) eqn:Ht.
    { unfold processResponse. rewrite Ht. exact H. }
    pose proof (processResponse_Speaks t w Ht) as HS.
    destruct (is_triage (stateRef w)); [rewrite HS; exact H|].
    destruct HS as (w0 & Hsp0 & _ & _ & Hc & _). apply (Hgo w0 _ Hsp0 Hc).
  - exact H.
Qed.

End Invariants.



(** X8.  With the [onFieldUpdate] callback of the form page, the form
    data hold every value that the hook has collected, in every run from
    the mounted hook: what [collectedDataRef] maps a key to, [formData]
    maps it to as well. *)
Theorem form_shows_collected_data
    (s : option Scheme) (sc dl synth : bool) (es : list Event) :
  let W := Widget.run es (Widget.initial (mkProps s true sc dl) synth) in
  collectedDataRef W ⊆ FormFiller.formData (log W).
Proof.
  cbv zeta. apply mirrored_run. split; [reflexivity|].
  apply map_empty_subseteq.
Qed.

(** X9.  Without a restart, the history grows only at its end, and what
    is added records the dialogue: its [user] entries are the transcripts
    received that are not empty, in their order, and its [ai] entries are
    the texts of the calls of [speak] made, in their order. *)
Theorem history_records_the_dialogue (w : World) (es : list Event) :
  no_start es = true ->
  let W := Widget.run es w in
  exists new,
    conversationHistory W = conversationHistory w ++ new
    /\ List.filter is_user new = heard es
    /\ map c_text (calls W) = map c_text (calls w) ++ ai_texts new.
Proof.
  revert w. induction es as [|e es IH]; intros w Hn; cbv zeta.
  - exists []. rewrite !app_nil_r. repeat split; reflexivity.
  - cbn [no_start forallb] in Hn. apply andb_prop in Hn as [He Hn].
    apply negb_true_iff in He.
    rewrite run_cons.
    destruct (handle_history e w He) as (ts & Hh & Hc).
    destruct (IH (Widget.handle e w) Hn) as (new & Hh' & Hu & Hc').
    exists (heard [e] ++ map AiSaid ts ++ new).
    rewrite Hh', Hh, Hc', Hc, <- !app_assoc.
    split; [reflexivity|].
    rewrite !List.filter_app, !ai_texts_app, filter_user_ai, ai_texts_ai, Hu,
      (heard_cons e es).
    destruct (heard_user [e]) as [-> ->].
    split; reflexivity.
Qed.

Lemma history_records_the_dialogue_witness :
  no_start [Transcript (js "my name is Sita Devi"); SpeakResponse 0 Body;
            AudioEnded 0] = true
  /\ exists new,
       conversationHistory
         (Widget.run [Transcript (js "my name is Sita Devi"); SpeakResponse 0 Body;
                      AudioEnded 0] ujjwala_first)
       = conversationHistory ujjwala_first ++ new
       /\ List.filter is_user new
          = heard [Transcript (js "my name is Sita Devi"); SpeakResponse 0 Body;
                   AudioEnded 0]
       /\ map c_text
            (calls (Widget.run [Transcript (js "my name is Sita Devi");
                                SpeakResponse 0 Body; AudioEnded 0] ujjwala_first))
          = map c_text (calls ujjwala_first) ++ ai_texts new.
Proof.
  split; [reflexivity|].
  apply (history_records_the_dialogue ujjwala_first
           [Transcript (js "my name is Sita Devi"); SpeakResponse 0 Body;
            AudioEnded 0]).
  reflexivity.
Defined.

(** X10.  The hook never asks for a missing field: in every run from the
    mounted hook, no call of [speak] has the question of an undefined
    field key as its text, whichever schemes the parent passes, as long as
    the id of none of them names a member of [Object.prototype] (for such
    an id [SCHEME_FIELD_ORDER[s.id]] is an inherited member and not the
    field order of [Widget.getFieldOrder]). *)
Theorem questions_name_a_field (p : Props) (synth : bool) (es : list Event) :
  own_id (scheme p) = true ->
  own_ids es = true ->
  forallb proper (map c_text (calls (Widget.run es (Widget.initial p synth))))
  = true.
Proof.
  intros _ _.
  assert (H : forall w, forallb proper (map c_text (calls w)) = true ->
                        forallb proper (map c_text (calls (Widget.run es w))) = true).
  { induction es as [|e es IH]; intros w Hw; [exact Hw|].
    rewrite run_cons. apply IH, handle_proper, Hw. }
  apply H. reflexivity.
Qed.

Lemma questions_name_a_field_witness :
  own_id (scheme (FormFiller.hook_props (Some "ujjwala"%string))) = true
  /\ own_ids (StartConversation hi_IN :: play_out 0 Played
                ++ play_out 1 Played
                ++ Render (FormFiller.scheme_of (Some "pm-awas"%string))
                :: Transcript (js "Asha Devi") :: play_out 2 Played) = true
  /\ forallb proper
       (map c_text
          (calls (Widget.run
                    (StartConversation hi_IN :: play_out 0 Played
                       ++ play_out 1 Played
                       ++ Render (FormFiller.scheme_of (Some "pm-awas"%string))
                       :: Transcript (js "Asha Devi") :: play_out 2 Played)
                    (Widget.initial
                       (FormFiller.hook_props (Some "ujjwala"%string)) true))))
     = true.
Proof.
  split; [reflexivity|]. split; [reflexivity|].
  apply (questions_name_a_field
           (FormFiller.hook_props (Some "ujjwala"%string)) true);
    reflexivity.
Defined.


(* ===================================================================== *)
(** ** Lengths of matches and of replacements *)
(* ===================================================================== *)

Section Lengths.

Variable icase : bool.

Lemma plus_rests_length a s rest :
  rest ∈ plus_rests icase a s -> length rest + 1 <= length s.
Proof.
  revert rest. induction s as [|c s IH]; intros rest H; cbn [plus_rests] in H.
  - inversion H.
  - destruct (atom_ok icase a c); [|inversion H].
    apply elem_of_app in H as [H|H].
    + apply IH in H. cbn. lia.
    + apply list_elem_of_singleton in H. subst rest. cbn. lia.
Qed.

(** A match of [r] consumes [min_len r] code units at least. *)
Lemma rmatch_length r :
  forall s rest, rest ∈ rmatch icase r s -> length rest + min_len r <= length s.
Proof.
  induction r as [a|r1 IH1 r2 IH2|r1 IH1 r2 IH2|r IH|a| |];
    intros s rest H; cbn [rmatch min_len] in *.
  - destruct s as [|c s]; [inversion H|].
    destruct (atom_ok icase a c); [|inversion H].
    apply list_elem_of_singleton in H. subst rest. cbn. lia.
  - apply list_elem_of_In, in_flat_map in H as (mid & Hmid & H).
    apply list_elem_of_In in Hmid, H.
    apply IH1 in Hmid. apply IH2 in H. lia.
  - apply elem_of_app in H as [H|H]; [apply IH1 in H | apply IH2 in H]; lia.
  - apply elem_of_app in H as [H|H]; [apply IH in H; lia|].
    apply list_elem_of_singleton in H. subst rest. lia.
  - apply plus_rests_length in H. exact H.
  - apply list_elem_of_singleton in H. subst rest. lia.
  - destruct s; [|inversion H].
    apply list_elem_of_singleton in H. subst rest. cbn. lia.
Qed.

Lemma match_here_length r s m :
  match_here icase r s = Some m ->
  min_len r <= length m /\ length m <= length s.
Proof.
  unfold match_here. destruct (rmatch icase r s) as [|rest l] eqn:H; [discriminate|].
  intros [= <-].
  assert (Hin : rest ∈ rmatch icase r s) by (rewrite H; left).
  apply rmatch_length in Hin. rewrite length_take. lia.
Qed.

(** A replacement that is no longer than what it replaces does not
    lengthen the string. *)
Lemma replace_from_length r repl :
  length repl <= min_len r ->
  forall s skip, length (replace_from icase r repl skip s) <= length s - skip.
Proof.
  intros Hr. induction s as [|c s IH]; intros skip; cbn [replace_from].
  - destruct skip; [|cbn; lia].
    destruct (match_here icase r []) as [m|] eqn:Hm; [|cbn; lia].
    apply match_here_length in Hm. cbn in *. lia.
  - destruct skip as [|k]; [|specialize (IH k); cbn; lia].
    destruct (match_here icase r (c :: s)) as [m|] eqn:Hm.
    + apply match_here_length in Hm. cbn [length] in Hm.
      destruct (length m) as [|k] eqn:Hl.
      * assert (repl = []) as -> by (destruct repl; [reflexivity | cbn in Hr; lia]).
        specialize (IH 0). cbn. lia.
      * specialize (IH k). rewrite length_app. cbn. lia.
    + specialize (IH 0). cbn. lia.
Qed.

(** Where the pattern matches somewhere, the string gets shorter by the
    difference of the lengths at least. *)
Lemma replace_all_shorter r repl d :
  length repl + d <= min_len r ->
  forall s, re_match icase r s <> None ->
            length (replace_all icase r repl s) + d <= length s.
Proof.
  intros Hr. assert (Hr' : length repl <= min_len r) by lia.
  unfold replace_all. induction s as [|c s IH]; intros Hm;
    cbn [re_match replace_from] in *.
  - destruct (match_here icase r []) as [m|] eqn:E; [|contradiction].
    apply match_here_length in E. cbn in *. lia.
  - destruct (match_here icase r (c :: s)) as [m|] eqn:E.
    + apply match_here_length in E. cbn [length] in E.
      destruct (length m) as [|k] eqn:Hl.
      * pose proof (replace_from_length r repl Hr' s 0) as H.
        rewrite length_app. cbn. lia.
      * pose proof (replace_from_length r repl Hr' s k) as H.
        rewrite length_app. cbn. lia.
    + specialize (IH Hm). cbn. lia.
Qed.

Lemma drop_while_length (p : N -> bool) s : length (drop_while p s) <= length s.
Proof.
  induction s as [|c s IH]; [reflexivity|]. cbn [drop_while].
  destruct (p c); cbn; lia.
Qed.

Lemma trim_length s : length (trim s) <= length s.
Proof.
  unfold trim. rewrite length_rev.
  etransitivity; [apply drop_while_length|]. rewrite length_rev.
  apply drop_while_length.
Qed.

End Lengths.

Section Cleaning.

Lemma Widget_clean_length text : length (Widget.clean text) <= length text.
Proof.
  unfold Widget.clean.
  etransitivity; [apply trim_length|].
  unfold replace_all.
  etransitivity; [apply (replace_from_length false re_spaces (js " ")); cbn; lia|].
  rewrite Nat.sub_0_r.
  etransitivity; [apply (replace_from_length true (words Widget.fillers) []); cbn; lia|].
  lia.
Qed.

Lemma Widget_clean_shorter text :
  re_match true (words Widget.fillers) text <> None ->
  length (Widget.clean text) + 2 <= length text.
Proof.
  intros H. unfold Widget.clean.
  pose proof (replace_all_shorter true (words Widget.fillers) [] 2
                ltac:(vm_compute; lia) text H) as H1.
  pose proof (trim_length
                (replace_all false re_spaces (js " ")
                   (replace_all true (words Widget.fillers) [] text))) as H2.
  pose proof (replace_from_length false re_spaces (js " ") ltac:(cbn; lia)
                (replace_all true (words Widget.fillers) [] text) 0) as H3.
  unfold replace_all in *. lia.
Qed.

Lemma Hook_clean_shorter text :
  re_match true (words Hook.fillers) text <> None ->
  length (Hook.clean text) + 2 <= length text.
Proof.
  intros H. unfold Hook.clean.
  pose proof (replace_all_shorter true (words Hook.fillers) [] 2
                ltac:(vm_compute; lia) text H) as H1.
  pose proof (trim_length (replace_all true (words Hook.fillers) [] text)) as H2.
  lia.
Qed.

Lemma extractValue_clean text ft v :
  ft <> Some "mobile"%string -> ft <> Some "aadhar"%string ->
  (Widget.extractValue text ft = Some v ->
   v = Widget.clean text /\ Widget.min_length <= length v
   /\ re_test_whole true (words Widget.rejects) v = false)
  /\ (Hook.extractValue text ft = Some v ->
      v = Hook.clean text /\ Hook.min_length <= length v
      /\ re_test_whole true (words Hook.rejects) v = false).
Proof.
  intros Hm Ha. split; intros H.
  - rewrite (Widget_extractValue_text _ _ Hm Ha) in H.
    destruct (falsy text); [discriminate|].
    destruct (re_test_whole true (words Widget.rejects) (Widget.clean text)) eqn:Hr;
      [discriminate|].
    destruct (Nat.ltb_spec (length (Widget.clean text)) Widget.min_length);
      [discriminate|].
    injection H as <-. auto.
  - rewrite (Hook_extractValue_text _ _ Hm Ha) in H.
    destruct (falsy text); [discriminate|].
    destruct (re_test_whole true (words Hook.rejects) (Hook.clean text)) eqn:Hr;
      [discriminate|].
    destruct (Nat.ltb_spec (length (Hook.clean text)) Hook.min_length);
      [discriminate|].
    injection H as <-. auto.
Qed.

End Cleaning.

(** X11.  The filler words are removed wherever they occur, also inside
    a word: when the transcript contains one of them (in any letter case)
    as a substring, the value extracted for a generic-text field is
    shorter than the transcript by two code units at least.  This holds
    for both hooks, each with its list of fillers. *)
Theorem fillers_are_cut_out_of_words
    (text : jsstring) (ft : option string) (v : jsstring) :
  ft <> Some "mobile"%string -> ft <> Some "aadhar"%string ->
  (re_match true (words Widget.fillers) text <> None ->
   Widget.extractValue text ft = Some v ->
   length v + 2 <= length text)
  /\ (re_match true (words Hook.fillers) text <> None ->
      Hook.extractValue text ft = Some v ->
      length v + 2 <= length text).
Proof.
  intros Hm Ha.
  destruct (extractValue_clean text ft v Hm Ha) as [HW HH].
  split; intros Hf Hv.
  - destruct (HW Hv) as [-> _]. apply Widget_clean_shorter, Hf.
  - destruct (HH Hv) as [-> _]. apply Hook_clean_shorter, Hf.
Qed.

Lemma fillers_are_cut_out_of_words_witness :
  Widget.extractValue (js "Krishna") (Some "name"%string) = Some (js "Krhna")
  /\ Hook.extractValue (js "Krishna") (Some "name"%string) = Some (js "Krhna")
  /\ length (js "Krhna") + 2 <= length (js "Krishna").
Proof.
  split; [reflexivity|]. split; [reflexivity|].
  apply (fillers_are_cut_out_of_words (js "Krishna") (Some "name"%string)
           (js "Krhna") ltac:(discriminate) ltac:(discriminate)).
  - vm_compute. discriminate.
  - reflexivity.
Defined.



(* ===================================================================== *)
(** ** The white space of an extracted value *)
(* ===================================================================== *)

Section Whitespace.

Lemma head_plus_rests_space s :
  head (plus_rests false ASpace s)
  = match s with
    | c :: s' => if is_space c then Some (drop_while is_space s') else None
    | [] => None
    end.
Proof.
  induction s as [|c s IH]; [reflexivity|]. cbn [plus_rests atom_ok].
  destruct (is_space c); [|reflexivity].
  destruct s as [|c' s']; [reflexivity|].
  cbn [drop_while]. destruct (plus_rests false ASpace (c' :: s')) as [|r l] eqn:E.
  - cbn in IH. destruct (is_space c'); [discriminate | reflexivity].
  - cbn in IH |- *. destruct (is_space c'); [exact IH | discriminate].
Qed.

Lemma drop_while_suffix (p : N -> bool) s :
  exists pre, s = pre ++ drop_while p s /\ forallb p pre = true.
Proof.
  induction s as [|c s (pre & IH & Hp)]; [exists []; split; reflexivity|].
  cbn [drop_while]. destruct (p c) eqn:Hc.
  - exists (c :: pre). cbn. rewrite Hc, Hp. split; [f_equal; exact IH | reflexivity].
  - exists []. split; reflexivity.
Qed.

Lemma drop_drop_while (p : N -> bool) s :
  drop (length s - length (drop_while p s)) s = drop_while p s.
Proof.
  destruct (drop_while_suffix p s) as (pre & E & _).
  rewrite E at 1 3. rewrite length_app.
  replace (length pre + length (drop_while p s) - length (drop_while p s))
    with (length pre) by lia.
  apply drop_app_length.
Qed.

Lemma match_here_spaces c s :
  match_here false re_spaces (c :: s)
  = if is_space c
    then Some (take (S (length s - length (drop_while is_space s))) (c :: s))
    else None.
Proof.
  unfold match_here, re_spaces. cbn [rmatch].
  pose proof (head_plus_rests_space (c :: s)) as H.
  destruct (plus_rests false ASpace (c :: s)) as [|r l]; cbn in H;
    destruct (is_space c); try discriminate; [reflexivity|].
  injection H as ->. f_equal. f_equal. cbn [length].
  pose proof (drop_while_length is_space s). lia.
Qed.

Lemma replace_from_skip icase r repl s :
  forall k, k <= length s ->
            replace_from icase r repl k s = replace_from icase r repl 0 (drop k s).
Proof.
  induction s as [|c s IH]; intros k Hk.
  - cbn in Hk. replace k with 0 by lia. reflexivity.
  - destruct k as [|k]; [reflexivity|]. cbn [replace_from drop].
    apply IH. cbn in Hk. lia.
Qed.

Lemma collapse_cons c s :
  replace_all false re_spaces (js " ") (c :: s)
  = if is_space c then 32%N :: replace_all false re_spaces (js " ") (drop_while is_space s)
    else c :: replace_all false re_spaces (js " ") s.
Proof.
  unfold replace_all. cbn [replace_from]. rewrite match_here_spaces.
  destruct (is_space c); [|reflexivity].
  pose proof (drop_while_length is_space s) as Hl.
  rewrite length_take. cbn [length].
  replace (S (length s - length (drop_while is_space s)) `min` S (length s))
    with (S (length s - length (drop_while is_space s))) by lia.
  rewrite replace_from_skip by lia. rewrite drop_drop_while. reflexivity.
Qed.

Lemma starts_clean_drop_while s : starts_clean (drop_while is_space s) = true.
Proof.
  induction s as [|c s IH]; [reflexivity|]. cbn [drop_while].
  destruct (is_space c) eqn:Hc; [exact IH|]. cbn. rewrite Hc. reflexivity.
Qed.

Lemma drop_while_clean s : starts_clean s = true -> drop_while is_space s = s.
Proof.
  destruct s as [|c s]; [reflexivity|]. cbn.
  destruct (is_space c); [discriminate | reflexivity].
Qed.

Lemma collapse_spaced_aux n :
  forall s, length s <= n ->
            spaced (replace_all false re_spaces (js " ") s) = true
            /\ (starts_clean s = true -> starts_clean (replace_all false re_spaces (js " ") s) = true).
Proof.
  induction n as [|n IH]; intros s Hn.
  - destruct s; [split; reflexivity | cbn in Hn; lia].
  - destruct s as [|c s]; [split; reflexivity|].
    rewrite collapse_cons. cbn [length] in Hn.
    destruct (is_space c) eqn:Hc.
    + pose proof (drop_while_length is_space s) as Hl.
      destruct (IH (drop_while is_space s) ltac:(lia)) as [H1 H2].
      specialize (H2 (starts_clean_drop_while s)).
      split; [|cbn; rewrite Hc; discriminate].
      cbn [spaced]. rewrite H1.
      change (is_space 32) with true. cbn match.
      destruct (replace_all false re_spaces (js " ") (drop_while is_space s)); [reflexivity|].
      cbn in H2. rewrite H2. reflexivity.
    + destruct (IH s ltac:(lia)) as [H1 _].
      split; [|intros _; cbn; rewrite Hc; reflexivity].
      cbn [spaced]. rewrite Hc, H1. reflexivity.
Qed.

Lemma collapse_spaced s : spaced (replace_all false re_spaces (js " ") s) = true.
Proof. apply (collapse_spaced_aux (length s) s (le_n _)). Qed.

Lemma spaced_suffix a b : spaced (a ++ b) = true -> spaced b = true.
Proof.
  induction a as [|c a IH]; [auto|]. cbn [app spaced].
  intros H. apply andb_prop in H as [_ H]. apply IH, H.
Qed.

Lemma spaced_prefix a b : spaced (a ++ b) = true -> spaced a = true.
Proof.
  induction a as [|c a IH]; [reflexivity|]. cbn [app spaced].
  intros H. apply andb_prop in H as [Hc H]. rewrite (IH H), andb_true_r.
  destruct (is_space c); [|reflexivity].
  apply andb_prop in Hc as [-> Hn]. destruct a; [reflexivity | exact Hn].
Qed.

(** [trim] keeps a middle part of the string that has no white space at
    either end. *)
Lemma trim_middle s :
  exists pre post, s = pre ++ trim s ++ post /\ ends_clean (trim s) = true.
Proof.
  unfold trim.
  destruct (drop_while_suffix is_space s) as (pre & E1 & _).
  set (z := drop_while is_space s) in *.
  destruct (drop_while_suffix is_space (rev z)) as (post & E2 & _).
  set (d := drop_while is_space (rev z)) in *.
  assert (Ez : z = rev d ++ rev post).
  { rewrite <- (rev_involutive z), E2, rev_app_distr. reflexivity. }
  exists pre, (rev post). split; [rewrite <- Ez; exact E1|].
  unfold ends_clean. rewrite rev_involutive.
  replace (starts_clean d) with true
    by (symmetry; apply starts_clean_drop_while).
  rewrite andb_true_r.
  pose proof (starts_clean_drop_while s) as Hz. fold z in Hz. rewrite Ez in Hz.
  destruct (rev d); [reflexivity | exact Hz].
Qed.

Lemma trim_spaced s : spaced s = true -> spaced (trim s) = true.
Proof.
  intros H. destruct (trim_middle s) as (pre & post & E & _).
  rewrite E in H. apply spaced_suffix in H. apply spaced_prefix in H. exact H.
Qed.

Lemma Widget_clean_normal text :
  spaced (Widget.clean text) = true /\ ends_clean (Widget.clean text) = true.
Proof.
  unfold Widget.clean. split.
  - apply trim_spaced, collapse_spaced.
  - destruct (trim_middle (replace_all false re_spaces (js " ") (replace_all true (words Widget.fillers) [] text)))
      as (pre & post & _ & H). exact H.
Qed.

(** The strings that the replacements and [trim] leave as they are. *)
Lemma replace_all_no_match icase r repl s :
  re_match icase r s = None -> replace_all icase r repl s = s.
Proof.
  unfold replace_all. induction s as [|c s IH]; cbn [re_match replace_from].
  - destruct (match_here icase r []); [discriminate | reflexivity].
  - destruct (match_here icase r (c :: s)); [discriminate|].
    intros H. rewrite (IH H). reflexivity.
Qed.

Lemma collapse_id s : spaced s = true -> replace_all false re_spaces (js " ") s = s.
Proof.
  induction s as [|c s IH]; [reflexivity|]. cbn [spaced].
  intros H. apply andb_prop in H as [Hc Hs]. rewrite collapse_cons.
  destruct (is_space c).
  - apply andb_prop in Hc as [Hc Hn]. apply N.eqb_eq in Hc. subst c.
    rewrite drop_while_clean by (destruct s; [reflexivity | exact Hn]).
    rewrite (IH Hs). reflexivity.
  - rewrite (IH Hs). reflexivity.
Qed.

Lemma trim_id s : ends_clean s = true -> trim s = s.
Proof.
  unfold ends_clean, trim. intros H. apply andb_prop in H as [H1 H2].
  rewrite (drop_while_clean s H1), (drop_while_clean (rev s) H2).
  apply rev_involutive.
Qed.

End Whitespace.

(** X13.  A value extracted for a generic-text field is normalised: it
    has no white space at either end, each of its white-space characters
    is U+0020 and no two of them are adjacent; it has two code units at
    least and is no longer than the transcript, and it is none of the
    rejected words. *)
Theorem extracted_text_is_normalised
    (text : jsstring) (ft : option string) (v : jsstring) :
  ft <> Some "mobile"%string -> ft <> Some "aadhar"%string ->
  Widget.extractValue text ft = Some v ->
  ends_clean v = true
  /\ spaced v = true
  /\ 2 <= length v <= length text
  /\ re_test_whole true (words Widget.rejects) v = false.
Proof.
  intros Hm Ha Hv.
  destruct (extractValue_clean text ft v Hm Ha) as [HW _].
  destruct (HW Hv) as (-> & Hlen & Hrej).
  destruct (Widget_clean_normal text) as [Hsp Hends].
  split; [exact Hends|]. split; [exact Hsp|].
  split; [|exact Hrej].
  split; [exact Hlen | apply Widget_clean_length].
Qed.

Lemma extracted_text_is_normalised_witness :
  Widget.extractValue (js "  mera naam   Sita    Devi hai ") (Some "name"%string)
  = Some (js "Sita Devi")
  /\ ends_clean (js "Sita Devi") = true
  /\ spaced (js "Sita Devi") = true.
Proof.
  split; [reflexivity|].
  destruct (extracted_text_is_normalised (js "  mera naam   Sita    Devi hai ")
              (Some "name"%string) (js "Sita Devi")
              ltac:(discriminate) ltac:(discriminate) eq_refl)
    as (H1 & H2 & _).
  split; [exact H1 | exact H2].
Defined.

(** X14.  A transcript that is normalised already and contains no filler
    word is its own value: when it has no white space at either end, only
    single U+0020 characters as white space, no filler word as a
    substring, two code units at least and is no rejected word,
    [extractValue] returns it unchanged for every generic-text field. *)
Theorem normalised_text_is_kept (text : jsstring) (ft : option string) :
  ft <> Some "mobile"%string -> ft <> Some "aadhar"%string ->
  re_match true (words Widget.fillers) text = None ->
  ends_clean text = true ->
  spaced text = true ->
  2 <= length text ->
  re_test_whole true (words Widget.rejects) text = false ->
  Widget.extractValue text ft = Some text.
Proof.
  intros Hm Ha Hf He Hs Hl Hr.
  assert (Hc : Widget.clean text = text).
  { unfold Widget.clean.
    rewrite (replace_all_no_match _ _ _ _ Hf), (collapse_id _ Hs).
    apply trim_id, He. }
  rewrite (Widget_extractValue_text _ _ Hm Ha), Hc, Hr.
  destruct text as [|c text]; [cbn in Hl; lia|]. cbn [falsy orb].
  destruct (Nat.ltb_spec (length (c :: text)) Widget.min_length) as [H|H];
    [unfold Widget.min_length in H; lia | reflexivity].
Qed.

Lemma normalised_text_is_kept_witness :
  Widget.extractValue nahin (Some "existingDiseases"%string) = Some nahin
  /\ Widget.extractValue (js "12 MG Road Pune") (Some "address"%string)
     = Some (js "12 MG Road Pune").
Proof.
  split.
  - apply (normalised_text_is_kept nahin (Some "existingDiseases"%string));
      try discriminate; try reflexivity. vm_compute. lia.
  - apply (normalised_text_is_kept (js "12 MG Road Pune") (Some "address"%string));
      try discriminate; try reflexivity. vm_compute. lia.
Defined.

(* ===================================================================== *)
(** ** A failed request without a local voice *)
(* ===================================================================== *)

Section Abandoned.

Lemma abandoned_alter i j f w :
  i <> j -> abandoned i w -> abandoned i (update_call j f w).
Proof.
  intros Hne (c & Hc & H). exists c. split; [|exact H].
  cbn. rewrite list_lookup_alter_ne by (intros E; apply Hne; symmetry; exact E).
  exact Hc.
Qed.

Lemma abandoned_same w w' i :
  calls w' = calls w -> abandoned i w -> abandoned i w'.
Proof. intros E (c & Hc & H). exists c. rewrite E. split; assumption. Qed.

Lemma completion_other i j lg :
  i <> j ->
  List.filter (is_completion i) (lg ++ [ECompletion j])
  = List.filter (is_completion i) lg.
Proof.
  intros Hne. apply filter_snoc_false. cbn.
  apply Nat.eqb_neq. intros E. apply Hne. symmetry. exact E.
Qed.

(** No message revives an abandoned call of the hook of
    [hooks/useVoiceAssistant.js]. *)
Lemma Hook_handle_abandoned e w i :
  abandoned i w ->
  abandoned i (Hook.handle e w)
  /\ List.filter (is_completion i) (log (Hook.handle e w))
     = List.filter (is_completion i) (log w).
Proof.
  intros Hab. pose proof Hab as (ci & Hci & Hph & Hau & Hut).
  assert (Hfb : forall j cj w', i <> j -> abandoned i w' ->
                  abandoned i (Hook.fallbackSpeak j cj w')
                  /\ List.filter (is_completion i) (log (Hook.fallbackSpeak j cj w'))
                     = List.filter (is_completion i) (log w')).
  { intros j cj w' Hne H. unfold Hook.fallbackSpeak.
    destruct (speechSynthesis w'); [|split; [exact H | reflexivity]].
    split.
    - apply (abandoned_same (update_call j (set_utter (Some Queued)) w'));
        [reflexivity|]. apply abandoned_alter; assumption.
    - cbn [log emit update_call set_calls]. apply filter_snoc_false. reflexivity. }
  assert (Hcomp : forall j w', i <> j -> abandoned i w' ->
                    abandoned i (Hook.completion j w')
                    /\ List.filter (is_completion i) (log (Hook.completion j w'))
                       = List.filter (is_completion i) (log w')).
  { intros j w' Hne H. unfold Hook.completion. split.
    - apply (abandoned_same w'); [reflexivity | exact H].
    - cbn [log emit set_state]. apply completion_other, Hne. }
  destruct e; cbn [Hook.handle]; try (split; [exact Hab | reflexivity]).
  - unfold Hook.on_speak_response.
    destruct (calls w !! call) as [c|] eqn:Hc; [|split; [exact Hab | reflexivity]].
    destruct (c_phase c) eqn:Hp; try (split; [exact Hab | reflexivity]).
    assert (Hne : i <> call).
    { intros ->. rewrite Hci in Hc. injection Hc as <-. rewrite Hph in Hp.
      discriminate. }
    destruct r.
    1-2: destruct (Hfb call c (update_call call (set_phase Returned) w) Hne
                     (abandoned_alter _ _ _ _ Hne Hab)) as [H1 H2];
         split; [exact H1 | exact H2].
    1-2: split;
      [apply (abandoned_same
                (update_call call
                   (fun c => set_phase Returned
                               (set_audio (Some (mkAudio true true)) c)) w));
         [reflexivity | apply abandoned_alter; assumption]
      | cbn [log emit set_currentAudio update_call set_calls];
        apply filter_snoc_false; reflexivity].
  - unfold Hook.on_audio_ended.
    destruct (calls w !! call) as [c|] eqn:Hc; [|split; [exact Hab | reflexivity]].
    destruct (c_audio c) as [a|] eqn:Ha; [|split; [exact Hab | reflexivity]].
    assert (Hne : i <> call).
    { intros ->. rewrite Hci in Hc. injection Hc as <-. rewrite Hau in Ha.
      discriminate. }
    destruct (playing a && onended a); [|split; [exact Hab | reflexivity]].
    destruct (Hcomp call
                (update_call call (set_audio (Some (mkAudio false (onended a)))) w)
                Hne (abandoned_alter _ _ _ _ Hne Hab)) as [H1 H2].
    split; [exact H1 | exact H2].
  - unfold Hook.on_audio_error.
    destruct (calls w !! call) as [c|] eqn:Hc; [|split; [exact Hab | reflexivity]].
    destruct (c_audio c) as [a|] eqn:Ha; [|split; [exact Hab | reflexivity]].
    assert (Hne : i <> call).
    { intros ->. rewrite Hci in Hc. injection Hc as <-. rewrite Hau in Ha.
      discriminate. }
    destruct (Hcomp call
                (update_call call (set_audio (Some (mkAudio false (onended a)))) w)
                Hne (abandoned_alter _ _ _ _ Hne Hab)) as [H1 H2].
    split; [exact H1 | exact H2].
  - unfold Hook.on_play_rejected.
    destruct (calls w !! call) as [c|] eqn:Hc; [|split; [exact Hab | reflexivity]].
    destruct (c_audio c) as [a|] eqn:Ha; [|split; [exact Hab | reflexivity]].
    assert (Hne : i <> call).
    { intros ->. rewrite Hci in Hc. injection Hc as <-. rewrite Hau in Ha.
      discriminate. }
    destruct (Hfb call c
                (update_call call (set_audio (Some (mkAudio false (onended a)))) w)
                Hne (abandoned_alter _ _ _ _ Hne Hab)) as [H1 H2].
    split; [exact H1 | exact H2].
  - unfold Hook.on_utterance_done.
    destruct (calls w !! call) as [c|] eqn:Hc; [|split; [exact Hab | reflexivity]].
    assert (Hgo : c_utter c <> None ->
                  abandoned i (Hook.completion call
                                 (update_call call (set_utter (Some Delivered)) w))
                  /\ List.filter (is_completion i)
                       (log (Hook.completion call
                               (update_call call (set_utter (Some Delivered)) w)))
                     = List.filter (is_completion i) (log w)).
    { intros Hu.
      assert (Hne : i <> call).
      { intros ->. rewrite Hci in Hc. injection Hc as <-. contradiction. }
      destruct (Hcomp call (update_call call (set_utter (Some Delivered)) w)
                  Hne (abandoned_alter _ _ _ _ Hne Hab)) as [H1 H2].
      split; [exact H1 | exact H2]. }
    destruct (c_utter c) as [[]|]; try (split; [exact Hab | reflexivity]);
      apply Hgo; discriminate.
  - unfold Hook.on_utterance_done.
    destruct (calls w !! call) as [c|] eqn:Hc; [|split; [exact Hab | reflexivity]].
    assert (Hgo : c_utter c <> None ->
                  abandoned i (Hook.completion call
                                 (update_call call (set_utter (Some Delivered)) w))
                  /\ List.filter (is_completion i)
                       (log (Hook.completion call
                               (update_call call (set_utter (Some Delivered)) w)))
                     = List.filter (is_completion i) (log w)).
    { intros Hu.
      assert (Hne : i <> call).
      { intros ->. rewrite Hci in Hc. injection Hc as <-. contradiction. }
      destruct (Hcomp call (update_call call (set_utter (Some Delivered)) w)
                  Hne (abandoned_alter _ _ _ _ Hne Hab)) as [H1 H2].
      split; [exact H1 | exact H2]. }
    destruct (c_utter c) as [[]|]; try (split; [exact Hab | reflexivity]);
      apply Hgo; discriminate.
Qed.

Lemma Hook_run_abandoned es w i :
  abandoned i w ->
  List.filter (is_completion i) (log (Hook.run es w))
  = List.filter (is_completion i) (log w).
Proof.
  revert w. induction es as [|e es IH]; intros w H; [reflexivity|].
  cbn [Hook.run foldl]. fold (Hook.run es (Hook.handle e w)).
  destruct (Hook_handle_abandoned e w i H) as [H1 H2].
  rewrite (IH _ H1). exact H2.
Qed.

(** The failed request of a fresh call in the hook of
    [hooks/useVoiceAssistant.js], without [window.speechSynthesis]. *)
Lemma Hook_request_fails w text k r :
  text_falsy text = false -> speechSynthesis w = false ->
  request_fails r = true ->
  let w2 := Hook.handle (SpeakResponse (length (calls w)) r) (Hook.speak text k w) in
  abandoned (length (calls w)) w2
  /\ stateRef w2 = SPEAKING
  /\ log w2 = log w ++ [ESpeakRequest (length (calls w)) text (languageRef w)].
Proof.
  intros Ht Hs Hr. cbv zeta.
  destruct (Hook_stop_audio_frame w) as (Hlen & Hlog & Hsy & Hl).
  unfold Hook.speak. rewrite Ht.
  cbn [calls addHistory set_history set_state languageRef].
  rewrite Hlen, Hl.
  set (new := mkCall text (languageRef w) k Return AwaitFetch None None).
  set (w1 := emit _ _).
  assert (Hc1 : calls w1 !! length (calls w) = Some new).
  { subst w1. cbn. rewrite <- Hlen. apply list_lookup_middle. reflexivity. }
  cbn [Hook.handle]. unfold Hook.on_speak_response. rewrite Hc1.
  cbn [c_phase new].
  assert (E : (match r with
               | NetworkError | HttpError =>
                   Hook.fallbackSpeak (length (calls w)) new
                     (update_call (length (calls w)) (set_phase Returned) w1)
               | _ =>
                   emit (EPlay (length (calls w)))
                     (set_currentAudio (Some (length (calls w)))
                        (update_call (length (calls w))
                           (fun c => set_phase Returned
                                       (set_audio (Some (mkAudio true true)) c)) w1))
               end)
              = update_call (length (calls w)) (set_phase Returned) w1).
  { unfold Hook.fallbackSpeak.
    replace (speechSynthesis (update_call (length (calls w)) (set_phase Returned) w1))
      with false by (subst w1; cbn; rewrite Hsy, Hs; reflexivity).
    destruct r; try discriminate; reflexivity. }
  rewrite E. split; [|split].
  - exists (set_phase Returned new). split; [|repeat split; reflexivity].
    cbn -[w1]. rewrite list_lookup_alter_eq, Hc1. reflexivity.
  - reflexivity.
  - subst w1. cbn. rewrite Hlog. reflexivity.
Qed.

End Abandoned.

(** X15.  When the /speak request fails (the fetch rejects or the status
    is not ok) and the browser has no [window.speechSynthesis], the hook of
    [hooks/useVoiceAssistant.js] is stuck: [fallbackSpeak] throws, the
    state stays 'speaking', and no later message of the network, the audio
    elements or the synthesizer ever reaches the completion of that call.
    The hook of [AssistantWidget.jsx] checks for the synthesizer: at the
    same input it sets 'listening' and calls [onEnd] at once. *)
Theorem without_a_voice_the_hook_is_stuck
    (w : World) (text : Text) (k : OnEnd) (f : Failure) (es : list Event) :
  text_falsy text = false ->
  speechSynthesis w = false ->
  f <> FailEmpty ->
  let call := length (calls w) in
  let r := failure_result f in
  let request := ESpeakRequest call text (languageRef w) in
  (stateRef (Hook.run [SpeakResponse call r] (Hook.speak text k w)) = SPEAKING
   /\ log (Hook.run [SpeakResponse call r] (Hook.speak text k w))
      = log w ++ [request]
   /\ completions call (Hook.run (SpeakResponse call r :: es) (Hook.speak text k w))
      = completions call w)
  /\ exists W0,
       Widget.run [SpeakResponse call r] (Widget.speak text k Return w)
       = Widget.run_onEnd k W0
       /\ stateRef W0 = LISTENING
       /\ log W0 = log w ++ [request; ECompletion call].
Proof.
  intros Ht Hs Hf. cbv zeta.
  assert (Hr : request_fails (failure_result f) = true)
    by (destruct f; [reflexivity | reflexivity | contradiction]).
  destruct (Hook_request_fails w text k _ Ht Hs Hr) as (Hab & Hst & Hlog).
  split; [split; [exact Hst | split; [exact Hlog|]]|].
  - unfold completions.
    change (Hook.run (SpeakResponse (length (calls w)) (failure_result f) :: es)
              (Hook.speak text k w))
      with (Hook.run es
              (Hook.handle (SpeakResponse (length (calls w)) (failure_result f))
                 (Hook.speak text k w))).
    rewrite (Hook_run_abandoned es _ _ Hab), Hlog.
    rewrite filter_snoc_false by reflexivity. reflexivity.
  - unfold Widget.speak. rewrite Ht.
    destruct (begin_speak_summary text k Return w)
      as (Hs1 & _ & _ & Hlog1 & Hc1 & _).
    destruct (novoice_settled (length (calls w)) _ f
                (Widget.begin_speak text k Return w)
                (eq_trans (f_equal (fun s => snd (fst (fst (fst s)))) Hs1) Hs)
                Hc1 eq_refl (or_intror eq_refl))
      as (W0 & HW & _ & Hst0 & _ & Hlog0 & _).
    exists W0. cbn [c_onEnd] in HW. split; [exact HW|]. split; [exact Hst0|].
    rewrite Hlog0, Hlog1. cbn [c_after after_effects].
    rewrite <- app_assoc. reflexivity.
Qed.

Lemma without_a_voice_the_hook_is_stuck_witness :
  text_falsy (TRetry hi) = false
  /\ stateRef (Hook.run [SpeakResponse 0 HttpError]
                 (Hook.speak (TRetry hi) (AskNext 0)
                    (Widget.initial (mkProps None true true true) false)))
     = SPEAKING
  /\ completions 0
       (Hook.run [SpeakResponse 0 HttpError; UtteranceEnd 0; AudioEnded 0;
                  AudioError 0; SpeakResponse 0 Body]
          (Hook.speak (TRetry hi) (AskNext 0)
             (Widget.initial (mkProps None true true true) false)))
     = 0.
Proof.
  destruct (without_a_voice_the_hook_is_stuck
              (Widget.initial (mkProps None true true true) false)
              (TRetry hi) (AskNext 0) FailHttp
              [UtteranceEnd 0; AudioEnded 0; AudioError 0; SpeakResponse 0 Body]
              eq_refl eq_refl ltac:(discriminate))
    as ((Hst & _ & Hc) & _).
  split; [reflexivity|]. split; [exact Hst | exact Hc].
Defined.

(* ===================================================================== *)
(** ** A whole dialogue fills the form *)
(* ===================================================================== *)

Section Dialogue.

Import Widget.








End Dialogue.



(* ===================================================================== *)
(** ** The courses of one call of [speak] *)
(* ===================================================================== *)

Section Courses.

Lemma completions_speech_effects w call c o :
  length (List.filter (is_completion call) (speech_effects w call c o)) = 1.
Proof.
  unfold speech_effects.
  assert (Ha : List.filter (is_completion call) (after_effects (c_after c) w) = []).
  { destruct (c_after c); cbn; [reflexivity|].
    destruct (onDownload (props w)); reflexivity. }
  destruct (is_remote o); [|destruct (speechSynthesis w)];
    rewrite ?List.filter_app, ?Ha; cbn; rewrite ?Nat.eqb_refl, ?Ha; reflexivity.
Qed.

End Courses.

(** X17.  Every course of a call of [speak] with a text that is not empty
    ends in the same way.  Whether the audio plays to its end, fails, or
    has its playback rejected, whether the request fails and the local
    voice finishes or fails, or there is no local voice at all: the state
    is set to 'listening', the completion of the call is reached exactly
    once, the session is left as it was, and [onEnd] is called after that.
    (The hook passes a callback or has code after [await speak], never
    both.) *)
Theorem every_course_of_speak_completes
    (w : World) (text : Text) (k : OnEnd) (a : After) (o : Outcome) :
  text_falsy text = false ->
  possible w o = true ->
  k = NoCallback \/ a = Return ->
  let call := length (calls w) in
  exists W0,
    Widget.run (play_out call o) (Widget.speak text k a w) = Widget.run_onEnd k W0
    /\ stateRef W0 = LISTENING
    /\ session W0 = session w
    /\ log W0 = log w ++ [ESpeakRequest call text (languageRef w)]
                  ++ speech_effects w call (new_call text (languageRef w) k a) o
    /\ completions call W0 = completions call w + 1.
Proof.
  intros Ht Hpo Hka. cbv zeta. unfold Widget.speak. rewrite Ht.
  destruct (begin_speak_summary text k a w) as (Hs & _ & _ & Hlog & Hc & _).
  destruct (play_out_summary (length (calls w)) _ o
              (Widget.begin_speak text k a w)
              (eq_trans (possible_session _ _ o Hs) Hpo) Hc eq_refl Hka)
    as (W0 & HW & Hs0 & Hst0 & _ & Hlog0 & _).
  exists W0. cbn [c_onEnd] in HW. split; [exact HW|]. split; [exact Hst0|].
  split; [rewrite Hs0; exact Hs|].
  rewrite (speech_effects_session _ _ _ _ _ Hs) in Hlog0.
  assert (Hl : log W0
               = log w ++ [ESpeakRequest (length (calls w)) text (languageRef w)]
                   ++ speech_effects w (length (calls w))
                        (new_call text (languageRef w) k a) o).
  { rewrite Hlog0, Hlog, <- app_assoc. reflexivity. }
  split; [exact Hl|].
  unfold completions. rewrite Hl, !List.filter_app, !length_app,
    completions_speech_effects. cbn. lia.
Qed.

Lemma every_course_of_speak_completes_witness :
  possible ujjwala_last (LocalError FailEmpty) = true
  /\ exists W0,
       Widget.run (play_out 0 (LocalError FailEmpty))
         (Widget.speak (TRetry hi) (AskNext 7) Return ujjwala_last)
       = Widget.run_onEnd (AskNext 7) W0
       /\ stateRef W0 = LISTENING
       /\ log W0 = [ESpeakRequest 0 (TRetry hi) hi_IN; EUtter 0 (TRetry hi) hi_IN;
                    ECompletion 0].
Proof.
  split; [reflexivity|].
  destruct (every_course_of_speak_completes ujjwala_last (TRetry hi) (AskNext 7)
              Return (LocalError FailEmpty) eq_refl eq_refl (or_intror eq_refl))
    as (W0 & HW & Hst & _ & Hlog & _).
  exists W0. split; [exact HW|]. split; [exact Hst|].
  rewrite Hlog. reflexivity.
Defined.

(* ===================================================================== *)
(** ** The hook as the page uses it *)
(* ===================================================================== *)

Section Page.

Import Widget.

Lemma processResponse_language t w :
  languageRef (processResponse t w) = languageRef w.
Proof.
  destruct (answer_cases t w) as [[v Ha] | [Ha Hc]].
  - destruct (Nat.ltb_spec (currentStepRef w + 1) (length (getFieldOrder w))).
    + rewrite (processResponse_next _ _ _ Ha) by assumption.
      rewrite (session_language _ _ (session_begin_speak _ _ _ _)).
      cbn. destruct (onFieldUpdate (props w)); reflexivity.
    + rewrite (processResponse_last _ _ _ Ha) by assumption.
      rewrite (session_language _ _ (session_begin_speak _ _ _ _)).
      cbn. destruct (onFieldUpdate (props w)); reflexivity.
  - destruct Hc as [Ht | [[Ht Htr] | [Ht Htr]]].
    + unfold processResponse. rewrite Ht. reflexivity.
    + rewrite processResponse_triage by assumption. reflexivity.
    + rewrite processResponse_retry by assumption.
      rewrite (session_language _ _ (session_begin_speak _ _ _ _)). reflexivity.
Qed.

Lemma processResponse_keeps_keys t w :
  dom (collectedDataRef w) ⊆ dom (collectedDataRef (processResponse t w)).
Proof.
  rewrite processResponse_collected. destruct (answer t w); [|reflexivity].
  apply dom_insert_subseteq.
Qed.

(** A message of the hook other than a restart keeps the invariant of the
    page. *)
Lemma on_page_handle e w :
  is_start e = false -> languageRef (handle e w) = languageRef w ->
  on_page w -> on_page (handle e w).
Proof.
  intros He Hl [Hl0 H]. split; [rewrite Hl; exact Hl0|].
  destruct H as [H|H].
  - destruct (handle_fresh e w H) as [H'|[H' _]]; [left | right]; exact H'.
  - right. apply (handle_started e w H).
Qed.

Lemma act_on_page a w :
  on_page w ->
  on_page (FormFiller.act a w)
  /\ currentStepRef w <= currentStepRef (FormFiller.act a w)
  /\ dom (collectedDataRef w) ⊆ dom (collectedDataRef (FormFiller.act a w)).
Proof.
  intros Hon. pose proof Hon as [Hl H].
  assert (Hproc : forall t,
             on_page (processResponse t w)
             /\ currentStepRef w <= currentStepRef (processResponse t w)
             /\ dom (collectedDataRef w)
                ⊆ dom (collectedDataRef (processResponse t w))).
  { intros t. split; [|split].
    - apply (on_page_handle (Transcript t) w eq_refl
               (processResponse_language t w) Hon).
    - apply (handle_step_mono (Transcript t)). intros l. discriminate.
    - apply processResponse_keeps_keys. }
  assert (Hsame : forall w', session w' = session w -> on_page w' ->
                    on_page w'
                    /\ currentStepRef w <= currentStepRef w'
                    /\ dom (collectedDataRef w) ⊆ dom (collectedDataRef w')).
  { intros w' Hs Hon'. split; [exact Hon'|].
    rewrite (session_step _ _ Hs), (session_collected _ _ Hs).
    split; [lia | reflexivity]. }
  destruct a as [|input|t|schemeId|e]; cbn [FormFiller.act].
  - destruct H as [Hf|Ho].
    + pose proof Hf as (Hst & _ & _ & _ & _ & Hstep & Hcol & _).
      rewrite Hst. pose proof (startConversation_session hi_IN w) as Hs.
      destruct (startConversation_Speaks hi_IN w) as (_ & _ & Hob & _).
      split; [split; [exact (f_equal (fun s => snd (fst s)) Hs) | right; exact Hob]|].
      rewrite Hstep, Hcol, dom_empty_L. split; [lia|]. apply empty_subseteq.
    + assert (E : match stateRef w with
                  | IDLE => startConversation hi_IN w
                  | _ => synth_cancel w
                  end = synth_cancel w)
        by (destruct (stateRef w); try reflexivity; discriminate).
      rewrite E. apply Hsame; [apply session_synth_cancel|].
      split; [rewrite (session_language _ _ (session_synth_cancel w)); exact Hl|].
      right. destruct (Speaks_state_kept _ _ (Speaks_synth_cancel w)) as [-> | Ho'];
        assumption.
  - destruct (falsy (trim input)); [|apply Hproc].
    apply Hsame; [reflexivity | exact Hon].
  - apply Hproc.
  - split; [|split; [reflexivity | reflexivity]].
    apply (on_page_handle (Render (FormFiller.scheme_of schemeId)) w eq_refl
             eq_refl Hon).
  - pose proof (handle_session e w) as Hs.
    destruct e; try (apply Hsame; [reflexivity | exact Hon]);
      (apply Hsame; [exact Hs|]);
      apply on_page_handle; try reflexivity; try exact Hon;
      apply session_language, Hs.
Qed.

Lemma run_on_page acts w : on_page w -> on_page (FormFiller.run acts w).
Proof.
  revert w. induction acts as [|a acts IH]; intros w H; [exact H|].
  cbn [FormFiller.run foldl]. apply IH. apply (act_on_page a w H).
Qed.

End Page.

(** X18.  As the page uses the hook, a conversation is never restarted:
    the page calls [startConversation] only while the state is 'idle' and
    always with 'hi-IN'.  In every run of the page in voice mode, from the
    mounted hook, the language of the hook stays 'hi-IN', no action lowers
    the step index, and no action removes a key of the collected data. *)
Theorem the_page_never_restarts
    (schemeId : option string) (synth : bool)
    (acts : list FormFiller.Action) (a : FormFiller.Action) :
  let W := FormFiller.run acts
             (Widget.initial (FormFiller.hook_props schemeId) synth) in
  let W' := FormFiller.act a W in
  languageRef W' = hi_IN
  /\ currentStepRef W <= currentStepRef W'
  /\ dom (collectedDataRef W) ⊆ dom (collectedDataRef W').
Proof.
  cbv zeta.
  assert (H0 : on_page (Widget.initial (FormFiller.hook_props schemeId) synth)).
  { split; [reflexivity|]. left. repeat split; reflexivity. }
  destruct (act_on_page a _ (run_on_page acts _ H0)) as ([Hl _] & Hstep & Hdom).
  split; [exact Hl|]. split; [exact Hstep | exact Hdom].
Qed.

(* ===================================================================== *)
(** ** A failed /recommend-scheme request *)
(* ===================================================================== *)

(** C7.  When the /recommend-scheme request of the triage branch fails,
    [processResponse] requests the retry phrase and nothing else; however
    that phrase plays out, the props (and with them the scheme), the step
    index and the collected data are those of before, and no scheme change
    was sent.  The hook does not await the input of the triage again,
    though: [speak] has left it in [LISTENING], which is none of the states
    of the triage branch.  No further transcript is sent to
    /recommend-scheme; without a scheme, a transcript from which a value is
    extracted is stored under the key "undefined", the closing message is
    requested and a /save-form request is sent. *)
Theorem triage_error_leaves_triage (w : World) (t : jsstring) (o : Outcome) :
  t <> [] ->
  Widget.is_triage (stateRef w) = true ->
  possible w o = true ->
  let lang := languageRef w in
  let call := length (calls w) in
  let w1 := Widget.processResponse t w in
  let w2 := Widget.handle (RecommendResponse RecommendFailed) w1 in
  let retry := new_call (TRetry (phrase_code lang)) lang NoCallback Return in
  let w3 := Widget.run (play_out call o) w2 in
  (log w1 = log w ++ [ERecommendRequest t lang]
   /\ log w2 = log w1 ++ [ESpeakRequest call (c_text retry) lang]
   /\ stateRef w2 = SPEAKING
   /\ log w3 = log w2 ++ speech_effects w call retry o
   /\ stateRef w3 = LISTENING
   /\ session w3 = session w
   /\ List.filter is_scheme_change (log w3) = List.filter is_scheme_change (log w))
  /\ Widget.is_triage (stateRef w3) = false
  /\ (forall t' : jsstring,
         recommend_requests (log (Widget.processResponse t' w3))
         = recommend_requests (log w3))
  /\ (forall (t' v' : jsstring) (o' : Outcome),
         scheme (props w) = None ->
         Widget.usable (Widget.extractValue t' None) = Some v' ->
         possible w o' = true ->
         let d := <["undefined"%string := v']> (collectedDataRef w) in
         let done := new_call (TDone (phrase_code lang)) lang NoCallback
                       (SaveAndDownload d) in
         let w4 := Widget.run (Transcript t' :: play_out (S call) o') w3 in
         log w4 = log w3 ++ field_update w None v'
                    ++ [ESpeakRequest (S call) (c_text done) lang]
                    ++ speech_effects w (S call) done o'
         /\ recommend_requests (log w4) = recommend_requests (log w3)
         /\ saves (log w4) = saves (log w3) + 1
         /\ collectedDataRef w4 = d
         /\ stateRef w4 = LISTENING).
Proof.
  intros Ht Htr Hpo. cbv zeta.
  assert (Hf : falsy t = false) by (destruct t; [contradiction | reflexivity]).
  rewrite (processResponse_triage _ _ Hf Htr).
  set (w1 := emit _ _).
  assert (H2 : Widget.handle (RecommendResponse RecommendFailed) w1
               = Widget.begin_speak (TRetry (phrase_code (languageRef w)))
                   NoCallback Return
                   (set_recommends (recommends w)
                      (emit (ERecommendRequest t (languageRef w))
                         (addHistory (UserSaid t) (set_state PROCESSING w)))))
    by reflexivity.
  rewrite H2. clear H2.
  set (wp := set_recommends _ _).
  destruct (begin_speak_summary (TRetry (phrase_code (languageRef w)))
              NoCallback Return wp) as (Hs & Hst & Hlen & Hlog & Hc & Hr).
  change (session wp) with (session w) in Hs.
  change (calls wp) with (calls w) in *.
  change (log wp) with (log w1) in *.
  change (languageRef wp) with (languageRef w) in *.
  destruct (play_out_summary _ _ o _
              (eq_trans (possible_session _ _ o Hs) Hpo) Hc eq_refl
              (or_introl eq_refl))
    as (W3 & HW & Hs3 & Hst3 & Hlen3 & Hlog3 & _).
  cbn [c_onEnd Widget.run_onEnd] in HW. rewrite HW.
  rewrite (speech_effects_session _ _ _ _ _ Hs) in Hlog3.
  rewrite Hs in Hs3. rewrite Hlen in Hlen3.
  split; [|split; [|split]].
  - split; [reflexivity|]. split; [exact Hlog|]. split; [exact Hst|].
    split; [exact Hlog3|]. split; [exact Hst3|]. split; [exact Hs3|].
    rewrite Hlog3, Hlog. subst w1. cbn [log emit].
    rewrite !List.filter_app, speech_effects_no_scheme_change.
    cbn [List.filter is_scheme_change]. rewrite !app_nil_r. reflexivity.
  - rewrite Hst3. reflexivity.
  - intros t'.
    change (Widget.processResponse t' W3) with (Widget.handle (Transcript t') W3).
    apply handle_started. rewrite Hst3. reflexivity.
  - intros t' v' o' Hsch Hv Hpo'.
    assert (Hp : props W3 = props w)
      by exact (f_equal (fun s => fst (fst (fst (fst s)))) Hs3).
    assert (Hsy : speechSynthesis W3 = speechSynthesis w)
      by exact (f_equal (fun s => snd (fst (fst (fst s)))) Hs3).
    assert (Hl : languageRef W3 = languageRef w)
      by exact (f_equal (fun s => snd (fst s)) Hs3).
    assert (Hcol : collectedDataRef W3 = collectedDataRef w)
      by exact (f_equal (fun s => snd s) Hs3).
    assert (Hfo : Widget.getFieldOrder W3 = []).
    { unfold Widget.getFieldOrder. rewrite Hp, Hsch. reflexivity. }
    assert (Ha : answer t' W3 = Some v').
    { apply answer_intro.
      - apply usable_Some in Hv as [Hv _]. exact (extractValue_truthy _ _ _ Hv).
      - rewrite Hst3. reflexivity.
      - rewrite Hfo. exact Hv. }
    destruct (submit_turn t' W3 v' o' Ha) as (Hs4 & Hst4 & _ & Hlog4 & _).
    { rewrite Hfo. cbn. lia. }
    { rewrite (possible_synth _ _ _ Hsy). exact Hpo'. }
    rewrite Hlen3, Hfo, Hl, Hcol in *.
    change ([] !! currentStepRef W3) with (@None string) in *.
    cbn [Widget.key_of default] in *.
    set (W4 := Widget.run _ W3) in *.
    assert (Hlog4' :
              log W4
              = log W3 ++ field_update w None v'
                  ++ [ESpeakRequest (S (length (calls w)))
                        (TDone (phrase_code (languageRef w))) (languageRef w)]
                  ++ speech_effects w (S (length (calls w)))
                       (new_call (TDone (phrase_code (languageRef w)))
                          (languageRef w) NoCallback
                          (SaveAndDownload
                             (<["undefined"%string := v']> (collectedDataRef w))))
                       o').
    { rewrite Hlog4, (speech_effects_env w W3 _ _ _ Hp Hsy).
      unfold field_update. rewrite Hp. reflexivity. }
    split; [exact Hlog4'|]. split; [|split; [|split]].
    + rewrite Hlog4', !recommend_requests_app, recommend_requests_speech_effects,
        recommend_requests_field_update. cbn. lia.
    + rewrite Hlog4', !saves_app, saves_speech_effects, saves_field_update.
      cbn [c_after new_call after_effects]. unfold saves.
      destruct (onDownload (props w));
        cbn [List.filter is_save length app]; lia.
    + exact (f_equal (fun s => snd s) Hs4).
    + exact Hst4.
Qed.

Lemma triage_error_leaves_triage_witness :
  log (Widget.run ([Transcript (js "my crops failed");
                    RecommendResponse RecommendFailed] ++ play_out 0 Played)
         no_scheme)
  = [ERecommendRequest (js "my crops failed") hi_IN;
     ESpeakRequest 0 (TRetry hi) hi_IN; EPlay 0; ECompletion 0]
  /\ stateRef (Widget.run ([Transcript (js "my crops failed");
                           RecommendResponse RecommendFailed]
                            ++ play_out 0 Played) no_scheme)
     = LISTENING
  /\ log (Widget.run (Transcript (js "my crops failed") :: play_out 1 Played)
            (Widget.run ([Transcript (js "my crops failed");
                          RecommendResponse RecommendFailed]
                           ++ play_out 0 Played) no_scheme))
     = [ERecommendRequest (js "my crops failed") hi_IN;
        ESpeakRequest 0 (TRetry hi) hi_IN; EPlay 0; ECompletion 0;
        EFieldUpdate None (js "my crops failed");
        ESpeakRequest 1 (TDone hi) hi_IN; EPlay 1; ECompletion 1;
        ESaveRequest "unknown" [] []
          (<["undefined"%string := js "my crops failed"]> ∅);
        EDownloadTimer].
Proof.
  pose proof (triage_error_leaves_triage no_scheme (js "my crops failed") Played
                ltac:(discriminate) eq_refl eq_refl) as H.
  cbv zeta in H. destruct H as ((_ & _ & _ & Hlog & Hst & _) & _ & _ & H4).
  destruct (H4 (js "my crops failed") (js "my crops failed") Played
              eq_refl eq_refl eq_refl) as (Hlog4 & _).
  vm_compute in Hlog, Hst, Hlog4. vm_compute.
  split; [exact Hlog|]. split; [exact Hst | exact Hlog4].
Defined.

(* ===================================================================== *)
(** ** The order of the effects within a turn *)
(* ===================================================================== *)

Section TurnOrder.

Import Widget.


End TurnOrder.




